(** * The streaming engine of bnk-ai: a shallow embedding and its properties

    Embedded sources:
    - [src/streaming-engine.ts]: [isDebugEnabled], [createSSEStream];
    - the revision of that file which sniffs in-band error payloads:
      [handlePossibleErrorJSON], [createSSEStream] (the revision [Sniffing]
      below; the file itself is the revision [Plain], and its oldest revision
      differs from it in the debug tests only);
    - [src/streaming-types.ts]: [SSEMessage], [DebugOptions], [SSEEngineParams];
    - [src/plugins/ollama-plugin.ts]: [OllamaPlugin];
    - the two revisions of the plugin of OpenRouter and
      [src/plugins/open-router-structured-plugin.ts]: their
      [parseServerSentEvent].

    JavaScript strings are sequences of UTF-16 code units, byte chunks are
    lists of bytes.  The host functions the engine calls ([String.prototype]
    methods, [TextDecoder], [TextEncoder], [JSON.parse]) are written out after
    their standards, so that every definition evaluates.

    An instance is described by the calls it makes, in order: on the
    handlers and on the controller of the outbound stream.  The reader of
    the plugin delivers finitely many chunks and then ends or fails; the
    handlers return normally; the consumer of the outbound stream does not
    cancel it.  The [console.debug] lines are left out: [isDebugEnabled]
    decides them and they decide nothing. *)

From Stdlib Require Import List NArith ZArith Bool Arith Lia.
From Stdlib Require Import Strings.String Strings.Ascii Strings.Byte.
Import ListNotations.

(** ** JavaScript strings *)

Module JS.

Definition codeunit := N.
Definition jsstring := list codeunit.

(** A string literal of the source, for literals made of ASCII characters. *)
Definition lit (s : string) : jsstring :=
  map N_of_ascii (list_ascii_of_string s).

Definition LF : codeunit := 10%N.
Definition QUOTE : codeunit := 34%N.

Fixpoint eqb (s t : jsstring) : bool :=
  match s, t with
  | [], [] => true
  | c :: s', d :: t' => N.eqb c d && eqb s' t'
  | _, _ => false
  end.

(** [ToBoolean] of a string: the empty string is the only falsy one. *)
Definition truthy (s : jsstring) : bool :=
  match s with [] => false | _ :: _ => true end.

(** [s.startsWith(r)] *)
Fixpoint startsWith (s r : jsstring) {struct r} : bool :=
  match r, s with
  | [], _ => true
  | d :: r', c :: s' => N.eqb c d && startsWith s' r'
  | _ :: _, [] => false
  end.

(** [s.includes(r)] *)
Fixpoint includes (s r : jsstring) : bool :=
  startsWith s r || match s with [] => false | _ :: s' => includes s' r end.

(** ECMAScript [WhiteSpace] and [LineTerminator] code points: what [trim]
    strips and what [\s] matches. *)
Definition isWhiteSpace (c : codeunit) : bool :=
  ((9 <=? c) && (c <=? 13) || (c =? 32) || (c =? 160) || (c =? 5760)
   || (8192 <=? c) && (c <=? 8202) || (c =? 8232) || (c =? 8233)
   || (c =? 8239) || (c =? 8287) || (c =? 12288) || (c =? 65279))%N.

Fixpoint trimStart (s : jsstring) : jsstring :=
  match s with
  | c :: s' => if isWhiteSpace c then trimStart s' else s
  | [] => []
  end.

Definition trimEnd (s : jsstring) : jsstring := rev (trimStart (rev s)).

Definition trim (s : jsstring) : jsstring := trimEnd (trimStart s).

(** [s.split(sep)] for a non-empty separator: the scan moves left to right;
    at a position where [sep] matches, the current piece is closed and the
    next [length sep] code units are skipped ([skip] counts the ones still
    to skip). *)
Fixpoint split_go (sep : jsstring) (skip : nat) (s : jsstring) {struct s}
  : list jsstring :=
  match s with
  | [] => [[]]
  | c :: s' =>
      match skip with
      | S k => split_go sep k s'
      | O =>
          if startsWith s sep then [] :: split_go sep (List.length sep - 1) s'
          else match split_go sep 0 s' with
               | piece :: pieces => (c :: piece) :: pieces
               | [] => [[c]]
               end
      end
  end.

(** [s.split(sep)]: with the empty separator the result is the list of the
    code units of [s] (the empty list for the empty string). *)
Definition split (s sep : jsstring) : list jsstring :=
  match sep with
  | [] => map (fun c => [c]) s
  | _ :: _ => split_go sep 0 s
  end.

(** [s.replace(/^data:\s*/, empty)]: a leading [data:] goes, with the white
    space after it. *)
Definition stripDataPrefix (s : jsstring) : jsstring :=
  if startsWith s (lit "data:") then trimStart (skipn 5 s) else s.

End JS.

Import JS.

(** ** The debug gate ([isDebugEnabled]) *)

(** [DebugOptions]: three optional boolean flags. *)
Module DebugOptions.
Record t := {
  all : option bool;
  plugin : option bool;
  sse : option bool
}.
End DebugOptions.

(** [keyof DebugOptions] *)
Inductive DebugCategory := CatAll | CatPlugin | CatSse.

(** [debug?: boolean | DebugOptions] *)
Inductive DebugConfig :=
| DebugAbsent
| DebugBool (b : bool)
| DebugStructured (o : DebugOptions.t).

(** [debug[category]] *)
Definition flag (o : DebugOptions.t) (c : DebugCategory) : option bool :=
  match c with
  | CatAll => DebugOptions.all o
  | CatPlugin => DebugOptions.plugin o
  | CatSse => DebugOptions.sse o
  end.

(** [!!x] for an optional boolean: [undefined] is falsy. *)
Definition toBoolean (x : option bool) : bool :=
  match x with Some b => b | None => false end.

(** [ToBoolean] of the configuration: [undefined] and [false] are falsy, an
    object is truthy whatever its fields. *)
Definition debugTruthy (debug : DebugConfig) : bool :=
  match debug with
  | DebugAbsent => false
  | DebugBool b => b
  | DebugStructured _ => true
  end.

(** [streaming-engine.ts], lines 8-12. *)
Definition isDebugEnabled (debug : DebugConfig) (category : DebugCategory) : bool :=
  if negb (debugTruthy debug) then false             (* if (!debug) return false *)
  else match debug with
       | DebugBool b => b                            (* typeof debug === "boolean" *)
       | DebugStructured o => toBoolean (DebugOptions.all o) || toBoolean (flag o category)
       | DebugAbsent => false
       end.

(** The error-sniffing revision writes the last line as
    [!!(debug.all || debug[category])]. *)
Definition isDebugEnabled' (debug : DebugConfig) (category : DebugCategory) : bool :=
  if negb (debugTruthy debug) then false
  else match debug with
       | DebugBool b => b
       | DebugStructured o =>
           toBoolean (if toBoolean (DebugOptions.all o) then DebugOptions.all o
                      else flag o category)
       | DebugAbsent => false
       end.

(** ** Host objects: [TextDecoder] and [TextEncoder] *)

Module Encoding.

(** The state of the UTF-8 decoder of the Encoding standard. *)
Record Utf8Decoder := {
  codePoint : N;
  bytesSeen : N;
  bytesNeeded : N;
  lowerBoundary : N;
  upperBoundary : N
}.

Definition utf8Initial : Utf8Decoder :=
  {| codePoint := 0; bytesSeen := 0; bytesNeeded := 0;
     lowerBoundary := 128; upperBoundary := 191 |}.

Definition REPLACEMENT : N := 65533%N.

(** The handler at a byte read while no sequence is pending. *)
Definition leadByte (b : N) : Utf8Decoder * list N :=
  (if b <=? 127 then (utf8Initial, [b])
   else if (194 <=? b) && (b <=? 223) then
     ({| codePoint := N.land b 31; bytesSeen := 0; bytesNeeded := 1;
         lowerBoundary := 128; upperBoundary := 191 |}, [])
   else if (224 <=? b) && (b <=? 239) then
     ({| codePoint := N.land b 15; bytesSeen := 0; bytesNeeded := 2;
         lowerBoundary := if b =? 224 then 160 else 128;
         upperBoundary := if b =? 237 then 159 else 191 |}, [])
   else if (240 <=? b) && (b <=? 244) then
     ({| codePoint := N.land b 7; bytesSeen := 0; bytesNeeded := 3;
         lowerBoundary := if b =? 240 then 144 else 128;
         upperBoundary := if b =? 244 then 143 else 191 |}, [])
   else (utf8Initial, [REPLACEMENT]))%N.

(** The handler at one byte, with the replacement error mode: the scalar
    values it emits.  A byte that breaks a pending sequence yields U+FFFD and
    is then read again as a lead byte. *)
Definition utf8Handler (d : Utf8Decoder) (b : N) : Utf8Decoder * list N :=
  (if bytesNeeded d =? 0 then leadByte b
   else if (b <? lowerBoundary d) || (upperBoundary d <? b) then
     let '(d', out) := leadByte b in (d', REPLACEMENT :: out)
   else
     let cp := N.lor (N.shiftl (codePoint d) 6) (N.land b 63) in
     let seen := bytesSeen d + 1 in
     if seen =? bytesNeeded d then (utf8Initial, [cp])
     else ({| codePoint := cp; bytesSeen := seen; bytesNeeded := bytesNeeded d;
              lowerBoundary := 128; upperBoundary := 191 |}, []))%N.

(** A scalar value as UTF-16 code units. *)
Definition utf16 (cp : N) : jsstring :=
  (if cp <? 65536 then [cp]
   else [55296 + N.shiftr (cp - 65536) 10; 56320 + N.land (cp - 65536) 1023])%N.

(** [new TextDecoder()]: UTF-8, not fatal, [ignoreBOM] false. *)
Record TextDecoder := {
  decoder : Utf8Decoder;
  bomSeen : bool
}.

Definition newTextDecoder : TextDecoder :=
  {| decoder := utf8Initial; bomSeen := false |}.

(** Serialising the scalar values of one byte: the first scalar value of the
    stream is dropped when it is the byte order mark. *)
Fixpoint serialize (seen : bool) (items : list N) : bool * jsstring :=
  match items with
  | [] => (seen, [])
  | cp :: rest =>
      let '(seen', out) := serialize true rest in
      (seen', (if negb seen && (cp =? 65279)%N then [] else utf16 cp) ++ out)
  end.

Definition decodeByte (t : TextDecoder) (b : byte) : TextDecoder * jsstring :=
  let '(d', items) := utf8Handler (decoder t) (Byte.to_N b) in
  let '(seen', out) := serialize (bomSeen t) items in
  ({| decoder := d'; bomSeen := seen' |}, out).

(** [decoder.decode(value, { stream: true })]: the pending sequence and
    the mark flag are kept for the next call, nothing is flushed. *)
Fixpoint decode (t : TextDecoder) (value : list byte) : TextDecoder * jsstring :=
  match value with
  | [] => (t, [])
  | b :: rest =>
      let '(t', out) := decodeByte t b in
      let '(t'', out') := decode t' rest in
      (t'', out ++ out')
  end.

Definition isHigh (c : N) : bool := ((55296 <=? c) && (c <=? 56319))%N.
Definition isLow (c : N) : bool := ((56320 <=? c) && (c <=? 57343))%N.

(** The scalar values of a string: a surrogate pair is one scalar value, a
    lone surrogate becomes U+FFFD. *)
Fixpoint scalars (s : jsstring) : list N :=
  match s with
  | [] => []
  | c :: s' =>
      if isHigh c then
        match s' with
        | d :: s'' =>
            if isLow d
            then (65536 + N.shiftl (c - 55296) 10 + (d - 56320))%N :: scalars s''
            else REPLACEMENT :: scalars s'
        | [] => [REPLACEMENT]
        end
      else if isLow c then REPLACEMENT :: scalars s'
      else c :: scalars s'
  end.

Definition byteOf (n : N) : byte :=
  match Byte.of_N n with Some b => b | None => x00 end.

Definition utf8Bytes (cp : N) : list byte :=
  (if cp <? 128 then [byteOf cp]
   else if cp <? 2048 then
     [byteOf (192 + N.shiftr cp 6); byteOf (128 + N.land cp 63)]
   else if cp <? 65536 then
     [byteOf (224 + N.shiftr cp 12); byteOf (128 + N.land (N.shiftr cp 6) 63);
      byteOf (128 + N.land cp 63)]
   else
     [byteOf (240 + N.shiftr cp 18); byteOf (128 + N.land (N.shiftr cp 12) 63);
      byteOf (128 + N.land (N.shiftr cp 6) 63); byteOf (128 + N.land cp 63)])%N.

(** [encoder.encode(text)] *)
Definition encode (text : jsstring) : list byte :=
  flat_map utf8Bytes (scalars text).

End Encoding.

Import Encoding.

(** ** Host object: [JSON.parse] *)

Module JSON.

(** A number literal, kept exactly: its value is
    [(-1)^negative * mantissa * 10^exponent]. *)
Record Number := {
  negative : bool;
  mantissa : N;
  exponent : Z
}.

#[warnings="-register-all"]
Inductive value :=
| Null
| Bool (b : bool)
| Num (n : Number)
| Str (s : jsstring)
| Arr (items : list value)
| Obj (members : list (jsstring * value)).

(** JSON white space: space, tab, line feed, carriage return. *)
Definition isWs (c : codeunit) : bool :=
  ((c =? 32) || (c =? 9) || (c =? 10) || (c =? 13))%N.

Fixpoint skipWs (s : jsstring) : jsstring :=
  match s with
  | c :: s' => if isWs c then skipWs s' else s
  | [] => []
  end.

Definition isDigit (c : codeunit) : bool := ((48 <=? c) && (c <=? 57))%N.

Definition hexDigit (c : codeunit) : option N :=
  (if (48 <=? c) && (c <=? 57) then Some (c - 48)
   else if (65 <=? c) && (c <=? 70) then Some (c - 55)
   else if (97 <=? c) && (c <=? 102) then Some (c - 87)
   else None)%N.

(** The code unit of a one-letter escape. *)
Definition escape (c : codeunit) : option codeunit :=
  (if c =? 34 then Some 34 else if c =? 92 then Some 92
   else if c =? 47 then Some 47 else if c =? 98 then Some 8
   else if c =? 102 then Some 12 else if c =? 110 then Some 10
   else if c =? 114 then Some 13 else if c =? 116 then Some 9
   else None)%N.

(** The characters of a string after its opening quote, up to the closing
    one; the rest of the input follows. *)
Fixpoint parseString (s : jsstring) : option (jsstring * jsstring) :=
  match s with
  | [] => None
  | c :: s' =>
      if (c =? 34)%N then Some ([], s')
      else if (c =? 92)%N then
        match s' with
        | e :: s'' =>
            if (e =? 117)%N then
              match s'' with
              | h1 :: h2 :: h3 :: h4 :: s3 =>
                  match hexDigit h1, hexDigit h2, hexDigit h3, hexDigit h4 with
                  | Some a, Some b, Some c', Some d =>
                      match parseString s3 with
                      | Some (str, r) =>
                          Some ((a * 4096 + b * 256 + c' * 16 + d)%N :: str, r)
                      | None => None
                      end
                  | _, _, _, _ => None
                  end
              | _ => None
              end
            else
              match escape e, parseString s'' with
              | Some u, Some (str, r) => Some (u :: str, r)
              | _, _ => None
              end
        | [] => None
        end
      else if (c <? 32)%N then None
      else match parseString s' with
           | Some (str, r) => Some (c :: str, r)
           | None => None
           end
  end.

(** A run of decimal digits: the number read so far, how many digits were
    read, and the rest. *)
Fixpoint digits (acc : N) (count : nat) (s : jsstring) : N * nat * jsstring :=
  match s with
  | c :: s' =>
      if isDigit c then digits (acc * 10 + (c - 48))%N (S count) s'
      else (acc, count, s)
  | [] => (acc, count, [])
  end.

(** The parts of a number: an optional minus sign; a zero or a digit from 1
    to 9 followed by digits; an optional point followed by at least one
    digit; an optional exponent mark with an optional sign and at least one
    digit. *)
Definition numberSign (s : jsstring) : bool * jsstring :=
  match s with
  | c :: r => if (c =? 45)%N then (true, r) else (false, s)
  | [] => (false, s)
  end.

Definition numberInt (s : jsstring) : option (N * jsstring) :=
  match s with
  | c :: r =>
      if (c =? 48)%N then Some (0%N, r)
      else if isDigit c then
        let '(n, _, r') := digits 0 0 s in Some (n, r')
      else None
  | [] => None
  end.

(** The mantissa with the digits of the fraction, and how many they are. *)
Definition numberFrac (i : N) (s : jsstring) : option (N * nat * jsstring) :=
  match s with
  | c :: r =>
      if (c =? 46)%N then
        match digits i 0 r with
        | (_, O, _) => None
        | (m, k, r') => Some (m, k, r')
        end
      else Some (i, O, s)
  | [] => Some (i, O, s)
  end.

Definition exponentSign (s : jsstring) : Z * jsstring :=
  match s with
  | d :: r =>
      if (d =? 45)%N then ((-1)%Z, r)
      else if (d =? 43)%N then (1%Z, r)
      else (1%Z, s)
  | [] => (1%Z, s)
  end.

Definition numberExp (s : jsstring) : option (Z * jsstring) :=
  match s with
  | c :: r =>
      if (c =? 101)%N || (c =? 69)%N then
        let '(sign, r1) := exponentSign r in
        match digits 0 0 r1 with
        | (_, O, _) => None
        | (e, _, r2) => Some ((sign * Z.of_N e)%Z, r2)
        end
      else Some (0%Z, s)
  | [] => Some (0%Z, s)
  end.

Definition parseNumber (s : jsstring) : option (Number * jsstring) :=
  let '(neg, s1) := numberSign s in
  match numberInt s1 with
  | None => None
  | Some (i, s2) =>
      match numberFrac i s2 with
      | None => None
      | Some (m, k, s3) =>
          match numberExp s3 with
          | None => None
          | Some (e, s4) =>
              Some ({| negative := neg; mantissa := m;
                       exponent := (e - Z.of_nat k)%Z |}, s4)
          end
      end
  end.

(** One JSON value at the head of [s] (after white space), and the rest.
    [fuel] bounds the number of values and lists read: a text needs at most
    twice its length, and [parse] gives it more. *)
Fixpoint parseValue (fuel : nat) (s : jsstring) : option (value * jsstring) :=
  match fuel with
  | O => None
  | S fuel' =>
      match skipWs s with
      | [] => None
      | c :: r =>
          if (c =? 123)%N then
            match skipWs r with
            | d :: r' =>
                if (d =? 125)%N then Some (Obj [], r')
                else parseMembers fuel' (d :: r') []
            | [] => None
            end
          else if (c =? 91)%N then
            match skipWs r with
            | d :: r' =>
                if (d =? 93)%N then Some (Arr [], r')
                else parseElements fuel' (d :: r') []
            | [] => None
            end
          else if (c =? 34)%N then
            match parseString r with
            | Some (str, r') => Some (Str str, r')
            | None => None
            end
          else if startsWith (c :: r) (lit "true") then Some (Bool true, skipn 4 (c :: r))
          else if startsWith (c :: r) (lit "false") then Some (Bool false, skipn 5 (c :: r))
          else if startsWith (c :: r) (lit "null") then Some (Null, skipn 4 (c :: r))
          else match parseNumber (c :: r) with
               | Some (n, r') => Some (Num n, r')
               | None => None
               end
      end
  end

with parseMembers (fuel : nat) (s : jsstring) (acc : list (jsstring * value))
  : option (value * jsstring) :=
  match fuel with
  | O => None
  | S fuel' =>
      match skipWs s with
      | q :: r =>
          if (q =? 34)%N then
            match parseString r with
            | Some (key, r1) =>
                match skipWs r1 with
                | colon :: r2 =>
                    if (colon =? 58)%N then
                      match parseValue fuel' r2 with
                      | Some (v, r3) =>
                          match skipWs r3 with
                          | d :: r4 =>
                              if (d =? 44)%N then parseMembers fuel' r4 ((key, v) :: acc)
                              else if (d =? 125)%N then Some (Obj (rev ((key, v) :: acc)), r4)
                              else None
                          | [] => None
                          end
                      | None => None
                      end
                    else None
                | [] => None
                end
            | None => None
            end
          else None
      | [] => None
      end
  end

with parseElements (fuel : nat) (s : jsstring) (acc : list value)
  : option (value * jsstring) :=
  match fuel with
  | O => None
  | S fuel' =>
      match parseValue fuel' s with
      | Some (v, r) =>
          match skipWs r with
          | d :: r' =>
              if (d =? 44)%N then parseElements fuel' r' (v :: acc)
              else if (d =? 93)%N then Some (Arr (rev (v :: acc)), r')
              else None
          | [] => None
          end
      | None => None
      end
  end.

(** [JSON.parse(text)]: [None] stands for the [SyntaxError] it throws. *)
Definition parse (text : jsstring) : option value :=
  match parseValue (2 * List.length text + 2) text with
  | Some (v, r) => match skipWs r with [] => Some v | _ :: _ => None end
  | None => None
  end.

(** The Number value of a literal is zero when the literal is, or when it
    rounds to zero in binary64: at most [2^-1075] in absolute value. *)
Definition isZero (n : Number) : bool :=
  (mantissa n =? 0)%N
  || ((exponent n <? 0)%Z
      && (Z.of_N (mantissa n) * 2 ^ 1075 <=? 10 ^ (- exponent n))%Z).

(** [ToBoolean] of a parsed value. *)
Definition truthy (v : value) : bool :=
  match v with
  | Null => false
  | Bool b => b
  | Num n => negb (isZero n)
  | Str s => JS.truthy s
  | Arr _ | Obj _ => true
  end.

(** The binding of [key] among the members of an object: a later duplicate
    overrides an earlier one. *)
Fixpoint lookup (key : jsstring) (members : list (jsstring * value)) : option value :=
  match members with
  | [] => None
  | (k, v) :: rest =>
      match lookup key rest with
      | Some v' => Some v'
      | None => if JS.eqb k key then Some v else None
      end
  end.

(** [v.key] for a value that is neither [null] nor [undefined] and a key
    that no prototype defines (the keys the sources read are [error],
    [message], [done] and [response]): [None] is [undefined]. *)
Definition get (v : value) (key : jsstring) : option value :=
  match v with
  | Obj members => lookup key members
  | _ => None
  end.

(** Whether [ToString] throws on a parsed value, as it does inside
    [new Error(v)].  An object with a member [toString] has no method to
    convert it: the member is not callable, and [valueOf], its own or the
    inherited one, gives no primitive value either.  An array is joined, so
    it throws when the conversion of one of its items does; [null] items are
    not converted.  Every other value has a string. *)
Fixpoint stringThrows (v : value) : bool :=
  match v with
  | Obj members =>
      match lookup (lit "toString") members with
      | Some _ => true
      | None => false
      end
  | Arr items => existsb stringThrows items
  | _ => false
  end.

End JSON.

(** ** Messages, errors and effects *)

Inductive Role := System | User | Assistant.

(** [SSEMessage] *)
Record SSEMessage := {
  role : Role;
  content : jsstring
}.

(** A thrown value: one the plugin or the reader throws, named by a text, or
    the object [new Error(errorMsg)] the engine builds from a payload. *)
Inductive jserror :=
| Thrown (what : jsstring)
| NewError (errorMsg : JSON.value).

(** What an instance does to its surroundings: a call of a handler of
    [SSEEngineHandlers], or a call on the controller of the outbound stream.
    Every handler is optional in the source; an absent handler is an observer
    that ignores the call. *)
Inductive Effect :=
| OnSystemMessage (message : SSEMessage)
| OnUserMessage (message : SSEMessage)
| OnPartial (partial : SSEMessage)
| OnDone (fullContent : SSEMessage)
| OnError (error : jserror) (partialSoFar : SSEMessage)
| Enqueue (chunk : list byte)
| Close
| ControllerError (error : jserror).

(** The outcome of a call that may throw (of a promise that may reject). *)
Inductive Completion (A : Type) :=
| Normal (a : A)
| Throws (e : jserror).
Arguments Normal {A} a.
Arguments Throws {A} e.

(** ** The plugin contract *)

(** What the reader hands out: the chunks it delivers, then the end of the
    input or a failed read. *)
Inductive Ending := EndOfInput | ReadFailure (e : jserror).

Record Reader := {
  chunks : list (list byte);
  ending : Ending
}.

(** [ProviderPlugin].  [prepareRequest] is the outcome of the awaited call:
    what it does with its arguments stays on the network side. *)
Record ProviderPlugin := {
  delimiter : option jsstring;
  prepareRequest : Completion Reader;
  parseServerSentEvent : jsstring -> Completion (option jsstring)
}.

(** [plugin.delimiter ?? "\n\n"] *)
Definition delimiterOf (p : ProviderPlugin) : jsstring :=
  match delimiter p with Some d => d | None => [LF; LF] end.

(** [SSEEngineParams]; [options] and [handlers] do not steer the engine. *)
Record SSEEngineParams := {
  userMessage : jsstring;
  systemMessage : option jsstring;
  plugin : ProviderPlugin;
  debug : DebugConfig
}.

Definition DONE : jsstring := lit "[DONE]".

Definition assistant (text : jsstring) : SSEMessage :=
  {| role := Assistant; content := text |}.

(** ** Control flow inside [start] *)

(** How a block of [start] ends: it falls through with a value, it executes
    [return], or an exception leaves it; [fullResponse] is then the text the
    [catch] clause finds in the variable of that name. *)
Inductive Control (A : Type) :=
| Goes (a : A)
| Returns
| Raises (e : jserror) (fullResponse : jsstring).
Arguments Goes {A} a.
Arguments Returns {A}.
Arguments Raises {A} e fullResponse.

(** A block: the effects it performs, in order, and how it ends. *)
Definition Block (A : Type) : Type := list Effect * Control A.

Definition ret {A} (a : A) : Block A := ([], Goes a).

Definition bind {A B} (m : Block A) (k : A -> Block B) : Block B :=
  match m with
  | (effs, Goes a) => let '(effs', c) := k a in (effs ++ effs', c)
  | (effs, Returns) => (effs, Returns)
  | (effs, Raises e full) => (effs, Raises e full)
  end.

Notation "x <- m ;; k" := (bind m (fun x => k))
  (at level 61, m at next level, right associativity).

(** ** The error-payload sniffer *)

(** [handlePossibleErrorJSON(rawText, onError, controller)]: the effects of
    the call and the boolean it returns.  The [catch] clause takes a syntax
    error of [JSON.parse], the type error of reading a member of [null], and
    the type error of [new Error(errorMsg)] for a message that has no
    string: the error object is built before [onError] is called, so nothing
    has been called then. *)
Definition handlePossibleErrorJSON (rawText : jsstring) : list Effect * bool :=
  let trimmedText := stripDataPrefix (trim rawText) in
  if negb (startsWith trimmedText (lit "{")) then ([], false)
  else
    match JSON.parse trimmedText with
    | Some parsed =>
        match JSON.get parsed (lit "error") with
        | Some err =>
            if JSON.truthy err then
              match JSON.get err (lit "message") with
              | Some errorMsg =>
                  if JSON.truthy errorMsg then
                    if JSON.stringThrows errorMsg then ([], false)   (* catch *)
                    else
                      ([OnError (NewError errorMsg) (assistant []);
                        ControllerError (NewError errorMsg)], true)
                  else ([], false)
              | None => ([], false)
              end
            else ([], false)
        | None => ([], false)
        end
    | None => ([], false)                    (* catch: not valid JSON *)
    end.

(** The two revisions of the engine: [streaming-engine.ts], which has no
    sniffer, and the revision that calls [handlePossibleErrorJSON] on every
    frame and on the leftover. *)
Inductive Revision := Plain | Sniffing.

Definition sniff (rev : Revision) (trimmed : jsstring) : list Effect * bool :=
  match rev with
  | Plain => ([], false)
  | Sniffing => handlePossibleErrorJSON trimmed
  end.

(** ** The engine ([createSSEStream]) *)

(** How the loop over the lines of a frame ends. *)
Inductive Lines :=
| SawDone
| Text (eventText : jsstring)
| ParserThrew (e : jserror).

(** [for (const sseLine of sseLines)], lines 110-128. *)
Fixpoint eventLoop (p : ProviderPlugin) (sseLines : list jsstring)
  (eventText : jsstring) : Lines :=
  match sseLines with
  | [] => Text eventText
  | sseLine :: rest =>
      match parseServerSentEvent p sseLine with
      | Throws e => ParserThrew e
      | Normal None => eventLoop p rest eventText
      | Normal (Some parsed) =>
          if JS.eqb parsed DONE then SawDone
          else if truthy parsed then eventLoop p rest (eventText ++ parsed)
          else eventLoop p rest eventText
      end
  end.

(** [for (const line of lines)] of the leftover, lines 155-174. *)
Fixpoint leftoverLoop (p : ProviderPlugin) (lines : list jsstring)
  (leftoverText : jsstring) : Lines :=
  match lines with
  | [] => Text leftoverText
  | line :: rest =>
      if startsWith line (lit ":") then leftoverLoop p rest leftoverText
      else
        match parseServerSentEvent p line with
        | Throws e => ParserThrew e
        | Normal None => leftoverLoop p rest leftoverText
        | Normal (Some parsed) =>
            if JS.eqb parsed DONE then SawDone
            else if truthy parsed then leftoverLoop p rest (leftoverText ++ parsed)
            else leftoverLoop p rest leftoverText
        end
  end.

(** What follows the loop over the lines, in the frame path (lines 112-124
    and 130-143) and in the leftover path (lines 158-170 and 176-188) alike. *)
Definition conclude (fullResponse : jsstring) (r : Lines) : Block jsstring :=
  match r with
  | SawDone => ([OnDone (assistant fullResponse); Close], Returns)
  | ParserThrew e => ([], Raises e fullResponse)
  | Text eventText =>
      if truthy eventText then
        ([Enqueue (encode eventText); OnPartial (assistant eventText)],
         Goes (fullResponse ++ eventText))
      else ret fullResponse
  end.

(** The lines of a frame: [trimmed.split("\n").map((ln) => ln.trim())]. *)
Definition linesOf (trimmed : jsstring) : list jsstring :=
  map trim (split trimmed [LF]).

(** [lines.filter((ln) => ln && !ln.startsWith(":"))] *)
Definition sseLinesOf (lines : list jsstring) : list jsstring :=
  filter (fun ln => truthy ln && negb (startsWith ln (lit ":"))) lines.

(** The body of [for (const event of events)], lines 102-144: the new value
    of [fullResponse] when the loop goes on. *)
Definition processEvent (rev : Revision) (p : ProviderPlugin)
  (fullResponse : jsstring) (event : jsstring) : Block jsstring :=
  let trimmed := trim event in
  if negb (truthy trimmed) then ret fullResponse
  else
    let '(effs, isError) := sniff rev trimmed in
    if isError then (effs, Returns)
    else conclude fullResponse (eventLoop p (sseLinesOf (linesOf trimmed)) []).

Fixpoint processEvents (rev : Revision) (p : ProviderPlugin)
  (fullResponse : jsstring) (events : list jsstring) : Block jsstring :=
  match events with
  | [] => ret fullResponse
  | event :: rest =>
      full <- processEvent rev p fullResponse event ;;
      processEvents rev p full rest
  end.

(** The variables of one instance. *)
Record EngineState := {
  fullResponse : jsstring;
  buffer : jsstring;
  textDecoder : TextDecoder
}.

Definition initialState : EngineState :=
  {| fullResponse := []; buffer := []; textDecoder := newTextDecoder |}.

(** [events.pop() ?? empty]: the frames to process and the new buffer. *)
Definition frame (buffer delimiter : jsstring) : list jsstring * jsstring :=
  let events := split buffer delimiter in
  (removelast events, last events []).

(** One turn of [while (true)] on a chunk that was read, lines 91-144. *)
Definition onChunk (rev : Revision) (p : ProviderPlugin) (st : EngineState)
  (value : list byte) : Block EngineState :=
  let '(dec, chunk) := decode (textDecoder st) value in
  let '(events, rest) := frame (buffer st ++ chunk) (delimiterOf p) in
  full <- processEvents rev p (fullResponse st) events ;;
  ret {| fullResponse := full; buffer := rest; textDecoder := dec |}.

(** [while (true)], lines 82-145: the state at the [break]. *)
Fixpoint readLoop (rev : Revision) (p : ProviderPlugin) (st : EngineState)
  (input : list (list byte)) (fin : Ending) : Block EngineState :=
  match input with
  | [] =>
      match fin with
      | EndOfInput => ret st
      | ReadFailure e => ([], Raises e (fullResponse st))
      end
  | value :: rest =>
      st' <- onChunk rev p st value ;;
      readLoop rev p st' rest fin
  end.

(** The leftover, lines 147-189. *)
Definition handleLeftover (rev : Revision) (p : ProviderPlugin)
  (fullResponse : jsstring) (buffer : jsstring) : Block jsstring :=
  let leftover := trim buffer in
  if truthy leftover then
    let '(effs, isError) := sniff rev leftover in
    if isError then (effs, Returns)
    else conclude fullResponse (leftoverLoop p (linesOf leftover) [])
  else ret fullResponse.

(** The [try] block of [start], lines 82-200. *)
Definition tryBlock (rev : Revision) (p : ProviderPlugin) (r : Reader) : Block unit :=
  st <- readLoop rev p initialState (chunks r) (ending r) ;;
  full <- handleLeftover rev p (fullResponse st) (buffer st) ;;
  ([OnDone (assistant full); Close], Goes tt).

(** [start(controller)] with its [catch] clause, lines 77-213. *)
Definition start (rev : Revision) (p : ProviderPlugin) (r : Reader) : list Effect :=
  match tryBlock rev p r with
  | (effs, Raises error full) =>
      effs ++ [ControllerError error; OnError error (assistant full)]
  | (effs, _) => effs
  end.

(** One instance: what it has done when the promise of [createSSEStream]
    resolves, and what the task started by the outbound stream does later. *)
Record Instance := {
  beforeReturn : list Effect;
  afterReturn : list Effect
}.

Definition trace (i : Instance) : list Effect := beforeReturn i ++ afterReturn i.

(** [createSSEStream(params)], lines 15-215. *)
Definition createSSEStream (rev : Revision) (params : SSEEngineParams)
  : Completion Instance :=
  match prepareRequest (plugin params) with
  | Throws error =>
      Normal {| beforeReturn := [OnError error (assistant []); Close];
                afterReturn := [] |}
  | Normal reader =>
      Normal {|
        beforeReturn :=
          (match systemMessage params with
           | Some text =>
               if truthy text
               then [OnSystemMessage {| role := System; content := text |}]
               else []
           | None => []
           end)
          ++ [OnUserMessage {| role := User; content := userMessage params |}];
        afterReturn := start rev (plugin params) reader |}
  end.

(** ** The outbound stream *)

Inductive StreamState := Readable | Closed | Errored (e : jserror).

(** The outbound [ReadableStream]: the chunks queued for its consumer and
    its state.  A closed stream still hands out what is queued. *)
Record OutboundStream := {
  queue : list (list byte);
  state : StreamState
}.

Definition newStream : OutboundStream := {| queue := []; state := Readable |}.

(** The calls on the controller; the engine calls none after [close] or
    [error], where the stream stays as it is. *)
Definition control (s : OutboundStream) (e : Effect) : OutboundStream :=
  match state s, e with
  | Readable, Enqueue chunk => {| queue := queue s ++ [chunk]; state := Readable |}
  | Readable, Close => {| queue := queue s; state := Closed |}
  | Readable, ControllerError err => {| queue := []; state := Errored err |}
  | _, _ => s
  end.

Definition outbound (effs : list Effect) : OutboundStream :=
  fold_left control effs newStream.

Inductive ReadResult :=
| ReadChunk (value : list byte)
| ReadDone
| ReadRejected (e : jserror)
| ReadPending.

(** [reader.read()] on the outbound stream. *)
Definition read (s : OutboundStream) : ReadResult * OutboundStream :=
  match queue s with
  | value :: rest => (ReadChunk value, {| queue := rest; state := state s |})
  | [] =>
      match state s with
      | Readable => (ReadPending, s)
      | Closed => (ReadDone, s)
      | Errored e => (ReadRejected e, s)
      end
  end.

(** ** A plugin of the repository: [OllamaPlugin] *)

(** What [fetch] resolved to: [ok], [statusText], [body]. *)
Record Response := {
  ok : bool;
  statusText : jsstring;
  body : option Reader
}.

Definition optTruthy (v : option JSON.value) : bool :=
  match v with Some v' => JSON.truthy v' | None => false end.

(** [ollama-plugin.ts]; the [catch] clause of [parseServerSentEvent] turns a
    syntax error, and the type error of reading a property of [null], into
    [null]. *)
Definition OllamaPlugin (fetched : Completion Response) : ProviderPlugin :=
  {| delimiter := Some [LF];
     prepareRequest :=
       match fetched with
       | Throws e => Throws e
       | Normal response =>
           match ok response, body response with
           | true, Some reader => Normal reader
           | _, _ =>
               Throws (NewError (JSON.Str (lit "Ollama API error: "
                                             ++ statusText response)))
           end
       end;
     parseServerSentEvent := fun line =>
       match JSON.parse (trim line) with
       | None | Some JSON.Null => Normal None
       | Some data =>
           if optTruthy (JSON.get data (lit "done")) then Normal (Some DONE)
           else match JSON.get data (lit "response") with
                | Some (JSON.Str response) => Normal (Some response)
                | _ => Normal None
                end
       end |}.

(** ** Example streams *)

Module Examples.

(** A quoted JSON string with the given ASCII content. *)
Definition quoted (s : string) : jsstring := QUOTE :: lit s ++ [QUOTE].

(** The line [{"key":"text"}] followed by a line feed. *)
Definition member (key text : string) : jsstring :=
  lit "{" ++ quoted key ++ lit ":" ++ quoted text ++ lit "}" ++ [LF].

Definition doneLine : jsstring :=
  lit "{" ++ quoted "done" ++ lit ":true}" ++ [LF].

(** [{"error":{"message":"text"}}] followed by a line feed. *)
Definition errorLine (text : string) : jsstring :=
  lit "{" ++ quoted "error" ++ lit ":{" ++ quoted "message" ++ lit ":"
      ++ quoted text ++ lit "}}" ++ [LF].

Definition served (input : list (list byte)) : Completion Response :=
  Normal {| ok := true; statusText := lit "OK";
            body := Some {| chunks := input; ending := EndOfInput |} |}.

Definition ask (input : list (list byte)) : SSEEngineParams :=
  {| userMessage := lit "Test message"; systemMessage := None;
     plugin := OllamaPlugin (served input); debug := DebugAbsent |}.

(** A plugin for plain text: every line is content, handed on as it is. *)
Definition echoPlugin (r : Reader) : ProviderPlugin :=
  {| delimiter := None;
     prepareRequest := Normal r;
     parseServerSentEvent := fun line => Normal (Some line) |}.

(** A plugin for plain text that ends every line it hands on with a line
    feed. *)
Definition linesPlugin (r : Reader) : ProviderPlugin :=
  {| delimiter := None;
     prepareRequest := Normal r;
     parseServerSentEvent := fun line => Normal (Some (line ++ [LF])) |}.

Definition delivering (input : list (list byte)) : Reader :=
  {| chunks := input; ending := EndOfInput |}.

(** Two lines of text around a line that holds a single space. *)
Definition spacedText : jsstring := lit "a" ++ [LF] ++ lit " " ++ [LF] ++ lit "b".

(** A reply of Ollama followed by an error payload. *)
Definition replyThenError : list (list byte) :=
  [encode (member "response" "Hello" ++ errorLine "X")].

(** Two replies of Ollama and its completion line, in two chunks. *)
Definition helloWorld : list (list byte) :=
  [encode (member "response" "Hello ");
   encode (member "response" "world!" ++ doneLine)].

(** What [fetch] resolves to when the server fails. *)
Definition refused : Completion Response :=
  Normal {| ok := false; statusText := lit "Internal Server Error"; body := None |}.

End Examples.

(** ** What the properties speak of *)




(** The contents of the [onPartial] calls, in order. *)
Fixpoint partials (effs : list Effect) : list jsstring :=
  match effs with
  | [] => []
  | OnPartial m :: rest => content m :: partials rest
  | _ :: rest => partials rest
  end.

(** [full] followed by the text the [onPartial] calls of [effs] report. *)
Definition aggregate (full : jsstring) (effs : list Effect) : jsstring :=
  full ++ List.concat (partials effs).

(** Every [onDone] call of [effs] carries the text accumulated before it,
    starting from [full]. *)
Fixpoint Aggregated (full : jsstring) (effs : list Effect) : Prop :=
  match effs with
  | [] => True
  | OnPartial m :: rest => Aggregated (full ++ content m) rest
  | OnDone m :: rest => content m = full /\ Aggregated full rest
  | _ :: rest => Aggregated full rest
  end.

(** A block accounts for the text it reports: its [onDone] calls carry the
    aggregate, and so does the value it hands on, or the text the [catch]
    clause will find. *)
Definition Accounts {A} (proj : A -> jsstring) (full : jsstring) (b : Block A) : Prop :=
  Aggregated full (fst b)
  /\ match snd b with
     | Goes a => proj a = aggregate full (fst b)
     | Returns => True
     | Raises _ found => found = aggregate full (fst b)
     end.

(** The parser answers on [l]: it does not throw. *)
Definition Answers (p : ProviderPlugin) (l : jsstring) : Prop :=
  exists r, parseServerSentEvent p l = Normal r.

(** ** The shape of a run *)

(** What the engine does with a text it extracted: it writes the bytes of
    the text on the outbound stream and reports the text. *)
Definition emission (text : jsstring) : list Effect :=
  [Enqueue (encode text); OnPartial (assistant text)].

(** How an instance ends once the request is prepared: it completes, an
    exception reaches the [catch] clause, or the sniffer reports a payload. *)
Inductive Outcome :=
| Completed
| Failed (e : jserror)
| Payload (errorMsg : JSON.value).

Definition closing (texts : list jsstring) (o : Outcome) : list Effect :=
  match o with
  | Completed => [OnDone (assistant (List.concat texts)); Close]
  | Failed e => [ControllerError e; OnError e (assistant (List.concat texts))]
  | Payload errorMsg =>
      [OnError (NewError errorMsg) (assistant []);
       ControllerError (NewError errorMsg)]
  end.

(** The run that emits [texts] one after the other and ends as [o] says. *)
Definition rendered (texts : list jsstring) (o : Outcome) : list Effect :=
  flat_map emission texts ++ closing texts o.

(** The calls made before the stream is read, lines 59-64. *)
Definition announcements (params : SSEEngineParams) : list Effect :=
  (match systemMessage params with
   | Some text =>
       if truthy text
       then [OnSystemMessage {| role := System; content := text |}]
       else []
   | None => []
   end)
  ++ [OnUserMessage {| role := User; content := userMessage params |}].

(** A block emits texts and ends in one of the three ways. *)
Definition Emits {A} (rev : Revision) (proj : A -> jsstring) (full : jsstring)
  (b : Block A) : Prop :=
  exists texts,
    Forall (fun t => truthy t = true) texts
    /\ match snd b with
       | Goes a =>
           fst b = flat_map emission texts /\ proj a = full ++ List.concat texts
       | Raises _ found =>
           fst b = flat_map emission texts /\ found = full ++ List.concat texts
       | Returns =>
           fst b = flat_map emission texts
                   ++ [OnDone (assistant (full ++ List.concat texts)); Close]
           \/ (rev = Sniffing
               /\ exists errorMsg,
                    fst b = flat_map emission texts
                            ++ [OnError (NewError errorMsg) (assistant []);
                                ControllerError (NewError errorMsg)])
       end.

(** [pieces.join(sep)] *)
Fixpoint join (pieces : list jsstring) (sep : jsstring) : jsstring :=
  match pieces with
  | [] => []
  | [piece] => piece
  | piece :: rest => piece ++ sep ++ join rest sep
  end.

(** What a line contributes to the text of its frame: the answer of the
    parser, nothing for [null]. *)
Definition yield (p : ProviderPlugin) (line : jsstring) : jsstring :=
  match parseServerSentEvent p line with
  | Normal (Some parsed) => parsed
  | _ => []
  end.

(** The parser answers on [line], and not with the completion marker. *)
Definition AnswersText (p : ProviderPlugin) (line : jsstring) : Prop :=
  exists r, parseServerSentEvent p line = Normal r /\ r <> Some DONE.

(** A line that is empty or a comment. *)
Definition skipped (ln : jsstring) : bool :=
  negb (truthy ln) || startsWith ln (lit ":").

(** ** Texts in ASCII *)

(** A code unit of the ASCII range. *)
Definition isAscii (c : codeunit) : bool := (c <? 128)%N.

(** A printable ASCII character that a JSON string holds as it is: neither
    the quote nor the backslash. *)
Definition plainChar (c : codeunit) : bool :=
  ((32 <=? c) && (c <? 127) && negb (c =? 34) && negb (c =? 92))%N.

Definition plainText (t : jsstring) : bool := forallb plainChar t.

(** A text without a line feed. *)
Definition oneLine (s : jsstring) : bool := forallb (fun c => negb (c =? LF)%N) s.

(** ** The lines of Ollama *)

(** The JSON string of a plain text, and a member of an object. *)
Definition jsonString (t : jsstring) : jsstring := QUOTE :: t ++ [QUOTE].

Definition field (key : string) (v : jsstring) : jsstring :=
  jsonString (lit key) ++ lit ":" ++ v.

(** A line of the type [BaseResponse] of [ollama-plugin.ts], with the text
    [t] as its [response]. *)
Definition replyLine (model createdAt t : jsstring) : jsstring :=
  lit "{" ++ field "model" (jsonString model)
    ++ lit "," ++ field "createdAt" (jsonString createdAt)
    ++ lit "," ++ field "response" (jsonString t)
    ++ lit "," ++ field "done" (lit "false}").

(** The line by which Ollama ends its answer: [done] is [true]. *)
Definition lastLine (model createdAt : jsstring) : jsstring :=
  lit "{" ++ field "model" (jsonString model)
    ++ lit "," ++ field "createdAt" (jsonString createdAt)
    ++ lit "," ++ field "response" (jsonString [])
    ++ lit "," ++ field "done" (lit "true}").

(** A stream of Ollama: one line per text, then the last line, every line
    ended by a line feed. *)
Definition ollamaStream (model createdAt : jsstring) (texts : list jsstring)
  : jsstring :=
  List.concat (map (fun t => replyLine model createdAt t ++ [LF]) texts)
    ++ lastLine model createdAt ++ [LF].

(** A text that is plain and is not the completion marker. *)
Definition sayable (t : jsstring) : bool :=
  plainText t && negb (JS.eqb t DONE).

(** ** Blocks that no exception leaves *)

Definition Calm {A} (b : Block A) : Prop :=
  match snd b with Raises _ _ => False | _ => True end.

(** ** The parsers of the OpenRouter plugins *)

(** What a parser hands back at run time.  The declared type is
    [string | null]; the value of a member of a parsed text is whatever the
    text holds.  [Stringified v] is the string [JSON.stringify(v)]. *)
Inductive Parsed :=
| Nothing
| Value (v : JSON.value)
| Stringified (v : JSON.value).

(** [v?.key] and [v?.[0]]: [None] is [undefined]. *)
Definition optional (v : option JSON.value) (read : JSON.value -> option JSON.value)
  : option JSON.value :=
  match v with
  | None | Some JSON.Null => None
  | Some v' => read v'
  end.

(** [v[0]] for a value that is neither [null] nor [undefined]: the first
    item of an array, the first code unit of a string, the member [0] of an
    object. *)
Definition index0 (v : JSON.value) : option JSON.value :=
  match v with
  | JSON.Arr (item :: _) => Some item
  | JSON.Str (c :: _) => Some (JSON.Str [c])
  | JSON.Obj members => JSON.lookup (lit "0") members
  | _ => None
  end.

Definition member (key : string) (v : JSON.value) : option JSON.value :=
  JSON.get v (lit key).

Module OpenRouterPlugin.

(** [parseServerSentEvent] of [OpenRouterPlugin]: a syntax error, and the
    type error of reading [choices] of [null], end in the [catch] clause. *)
Definition parseServerSentEvent (line : jsstring) : Parsed :=
  if negb (startsWith line (lit "data:")) then Nothing
  else
    let jsonString := trim (stripDataPrefix line) in
    if JS.eqb jsonString DONE then Value (JSON.Str DONE)
    else
      match JSON.parse jsonString with
      | None | Some JSON.Null => Nothing
      | Some parsed =>
          let content :=
            optional (optional (optional (member "choices" parsed) index0)
                        (member "delta")) (member "content") in
          match content with
          | Some v => if JSON.truthy v then Value v else Nothing
          | None => Nothing
          end
      end.

End OpenRouterPlugin.

Module OpenRouterStructuredPlugin.

Definition truthyMember (v : option JSON.value) : option JSON.value :=
  match v with
  | Some v' => if JSON.truthy v' then Some v' else None
  | None => None
  end.

(** [parseServerSentEvent] of [OpenRouterStructuredPlugin]. *)
Definition parseServerSentEvent (line : jsstring) : Parsed :=
  if negb (startsWith line (lit "data:")) then Nothing
  else
    let jsonString := trim (stripDataPrefix line) in
    if JS.eqb jsonString DONE then Value (JSON.Str DONE)
    else
      match JSON.parse jsonString with
      | None => Nothing
      | Some parsed =>
          match truthyMember (optional (optional (Some parsed) (member "choices"))
                                index0) with
          | None => Nothing
          | Some choice =>
              let message := member "message" choice in
              match truthyMember (optional (member "delta" choice)
                                    (member "content")) with
              | Some content => Value content
              | None =>
              match truthyMember (optional message (member "refusal")) with
              | Some refusal => Value refusal
              | None =>
              match truthyMember (optional message (member "parsed")) with
              | Some parsed' => Stringified parsed'
              | None =>
              match truthyMember (optional message (member "content")) with
              | Some content => Value content
              | None => Nothing
              end end end end
          end
      end.

End OpenRouterStructuredPlugin.

(** A line of OpenRouter that carries the text [t], with [ws] between the
    field name and the payload. *)
Definition deltaLine (ws t : jsstring) : jsstring :=
  lit "data:" ++ ws
    ++ lit "{" ++ field "choices"
                    (lit "[{" ++ field "delta"
                                   (lit "{" ++ field "content" (jsonString t)
                                      ++ lit "}")
                       ++ lit "}]}").

(** A run of white space. *)
Definition blank (ws : jsstring) : bool := forallb isWhiteSpace ws.

(** ** Well-formed texts *)

(** A Unicode scalar value: a code point that is not a surrogate. *)
Definition isScalar (cp : N) : bool :=
  ((cp <? 1114112) && negb ((55296 <=? cp) && (cp <=? 57343)))%N.

(** A string whose surrogates come in pairs, the high one first. *)
Fixpoint wellFormed (s : jsstring) : bool :=
  match s with
  | [] => true
  | c :: s' =>
      if isHigh c then
        match s' with
        | d :: s'' => isLow d && wellFormed s''
        | [] => false
        end
      else negb (isLow c) && (c <? 65536)%N && wellFormed s'
  end.

(** The byte order mark. *)
Definition BOM : codeunit := 65279%N.

(** Decoding the chunks of a stream one after the other, as lines 84-92 do
    with the chunks of the reader: [decoder.decode(value, { stream: true })]. *)
Fixpoint decodeChunks (t : TextDecoder) (chunks : list (list byte)) : jsstring :=
  match chunks with
  | [] => []
  | value :: rest =>
      let '(t', out) := decode t value in out ++ decodeChunks t' rest
  end.

(** A plugin for lines that start with [data:], which it hands on without
    the prefix; it throws on any other line. *)
Definition strictPlugin (r : Reader) : ProviderPlugin :=
  {| delimiter := None;
     prepareRequest := Normal r;
     parseServerSentEvent := fun line =>
       if startsWith line (lit "data:")
       then Normal (Some (stripDataPrefix line))
       else Throws (NewError (JSON.Str (lit "unexpected line: " ++ line))) |}.

(** ** Frames and the first delimiter *)

(** A frame that ends at the first delimiter after its start: with the
    delimiter put after it, the delimiter occurs nowhere before the end. *)
Definition endsAtFirst (event delimiter : jsstring) : bool :=
  negb (includes (removelast (event ++ delimiter)) delimiter).

(** A plugin for plain text with the empty delimiter. *)
Definition unitsPlugin (r : Reader) : ProviderPlugin :=
  {| delimiter := Some [];
     prepareRequest := Normal r;
     parseServerSentEvent := fun line => Normal (Some line) |}.

(** * Properties *)

(** ** Strings *)

Section StringFacts.

Lemma eqb_eq (s t : jsstring) : JS.eqb s t = true <-> s = t.
Proof.
  revert t; induction s as [|c s IH]; intros [|d t]; simpl; split;
    try congruence; try reflexivity.
  - intros H. apply andb_true_iff in H as [H1 H2].
    apply N.eqb_eq in H1. apply IH in H2. now subst.
  - intros H. injection H as -> ->. rewrite N.eqb_refl. simpl. now apply IH.
Qed.

Lemma eqb_refl (s : jsstring) : JS.eqb s s = true.
Proof. now apply eqb_eq. Qed.

Lemma startsWith_spec (s r : jsstring) :
  startsWith s r = true <-> exists t, s = r ++ t.
Proof.
  revert s; induction r as [|d r IH]; intros s; simpl.
  - split; [intros _; now exists s | reflexivity].
  - destruct s as [|c s].
    + split; [discriminate | intros [t H]; discriminate].
    + split.
      * intros H. apply andb_true_iff in H as [H1 H2].
        apply N.eqb_eq in H1. apply IH in H2 as [t ->]. subst. now exists t.
      * intros [t H]. injection H as -> ->. rewrite N.eqb_refl. simpl.
        apply IH. now exists t.
Qed.

Lemma startsWith_app (r t : jsstring) : startsWith (r ++ t) r = true.
Proof. apply startsWith_spec. now exists t. Qed.

Lemma startsWith_longer (s t r : jsstring) :
  startsWith s r = true -> startsWith (s ++ t) r = true.
Proof.
  intros H. apply startsWith_spec in H as [u ->].
  rewrite <- app_assoc. apply startsWith_app.
Qed.

(** A match found only with the text that follows is longer than [s]. *)
Lemma startsWith_straddle (s t r : jsstring) :
  startsWith s r = false -> startsWith (s ++ t) r = true ->
  List.length s < List.length r.
Proof.
  revert s; induction r as [|d r IH]; intros s Hs Hst; simpl in *.
  - discriminate.
  - destruct s as [|c s]; simpl in *; [lia|].
    destruct (N.eqb c d); simpl in *; [|discriminate].
    specialize (IH s Hs Hst). lia.
Qed.

Lemma startsWith_short (s r : jsstring) :
  List.length s < List.length r -> startsWith s r = false.
Proof.
  revert s; induction r as [|d r IH]; intros s H; simpl in *; [lia|].
  destruct s as [|c s]; [reflexivity|]. simpl in H.
  rewrite IH by lia. apply andb_false_r.
Qed.

Lemma includes_spec (s r : jsstring) :
  includes s r = true <-> exists a b, s = a ++ r ++ b.
Proof.
  induction s as [|c s IH]; simpl.
  - rewrite orb_false_r. split.
    + intros H. apply startsWith_spec in H as [t H]. now exists [], t.
    + intros [a [b H]]. symmetry in H. apply app_eq_nil in H as [-> H].
      apply app_eq_nil in H as [-> _]. reflexivity.
  - split.
    + intros H. apply orb_true_iff in H as [H|H].
      * apply startsWith_spec in H as [t H]. now exists [], t.
      * apply IH in H as [a [b ->]]. now exists (c :: a), b.
    + intros [a [b H]]. apply orb_true_iff. destruct a as [|c' a].
      * left. apply startsWith_spec. now exists b.
      * right. injection H as _ ->. apply IH. now exists a, b.
Qed.

(** What [trimStart] leaves does not start with white space. *)
Lemma trimStart_head (s t : jsstring) (c : codeunit) :
  trimStart s = c :: t -> isWhiteSpace c = false.
Proof.
  induction s as [|d s IH]; simpl; [discriminate|].
  destruct (isWhiteSpace d) eqn:E; [exact IH|].
  intros H. injection H as <- _. exact E.
Qed.

Lemma trimStart_fixed (s : jsstring) (c : codeunit) :
  isWhiteSpace c = false -> trimStart (c :: s) = c :: s.
Proof. intros H. simpl. now rewrite H. Qed.

Lemma trimStart_idem (s : jsstring) : trimStart (trimStart s) = trimStart s.
Proof.
  destruct (trimStart s) as [|c t] eqn:E; [reflexivity|].
  apply trimStart_fixed. exact (trimStart_head _ _ _ E).
Qed.

Lemma trimStart_app (a b : jsstring) :
  trimStart (a ++ b)
  = match trimStart a with [] => trimStart b | _ :: _ => trimStart a ++ b end.
Proof.
  induction a as [|c a IH]; simpl; [reflexivity|].
  destruct (isWhiteSpace c); [exact IH | reflexivity].
Qed.

(** [trimEnd] keeps the first code unit of a text that does not start with
    white space. *)
Lemma trimEnd_head (s : jsstring) (c : codeunit) :
  isWhiteSpace c = false -> exists t, trimEnd (c :: s) = c :: t.
Proof.
  intros H. unfold trimEnd. simpl rev. rewrite trimStart_app.
  destruct (trimStart (rev s)) as [|d u].
  - simpl. rewrite H. now exists [].
  - rewrite rev_app_distr. simpl. now eexists.
Qed.

Lemma trimEnd_idem (s : jsstring) : trimEnd (trimEnd s) = trimEnd s.
Proof. unfold trimEnd. now rewrite rev_involutive, trimStart_idem. Qed.

(** Trimming twice is trimming once. *)
Lemma trim_idem (s : jsstring) : trim (trim s) = trim s.
Proof.
  unfold trim. destruct (trimStart s) as [|c t] eqn:E; [reflexivity|].
  destruct (trimEnd_head t c (trimStart_head _ _ _ E)) as [u Hu].
  rewrite Hu, trimStart_fixed by exact (trimStart_head _ _ _ E).
  rewrite <- Hu. apply trimEnd_idem.
Qed.

End StringFacts.

(** ** [JSON.parse] reads forward *)

Section JSONFacts.

Import JSON.

Lemma skipWs_length (s : jsstring) : List.length (skipWs s) <= List.length s.
Proof.
  induction s as [|c s IH]; simpl; [lia|].
  destruct (isWs c); simpl; lia.
Qed.

Lemma parseString_length (s str r : jsstring) :
  parseString s = Some (str, r) -> List.length r < List.length s.
Proof.
  remember (List.length s) as n eqn:Hn. revert s str r Hn.
  induction n as [n IH] using lt_wf_ind; intros s str r Hn H.
  destruct s as [|c s]; [discriminate|]. simpl in H, Hn.
  destruct (c =? 34)%N.
  { injection H as _ <-. lia. }
  destruct (c =? 92)%N.
  - destruct s as [|e s]; [discriminate|].
    destruct (e =? 117)%N.
    + destruct s as [|h1 [|h2 [|h3 [|h4 s]]]]; try discriminate.
      destruct (hexDigit h1), (hexDigit h2), (hexDigit h3), (hexDigit h4);
        try discriminate.
      destruct (parseString s) as [[str' r']|] eqn:E; [|discriminate].
      injection H as _ <-.
      apply (IH (List.length s)) in E; simpl in *; lia.
    + destruct (escape e); [|discriminate].
      destruct (parseString s) as [[str' r']|] eqn:E; [|discriminate].
      injection H as _ <-.
      apply (IH (List.length s)) in E; simpl in *; lia.
  - destruct (c <? 32)%N; [discriminate|].
    destruct (parseString s) as [[str' r']|] eqn:E; [|discriminate].
    injection H as _ <-.
    apply (IH (List.length s)) in E; simpl in *; lia.
Qed.

Lemma digits_length (acc n : N) (count k : nat) (s r : jsstring) :
  digits acc count s = (n, k, r) -> List.length r <= List.length s.
Proof.
  revert acc count; induction s as [|c s IH]; intros acc count; simpl.
  - intros H. injection H as _ _ <-. simpl. lia.
  - destruct (isDigit c); [|intros H; injection H as _ _ <-; simpl; lia].
    intros H. apply IH in H. lia.
Qed.

Lemma numberSign_length (s r : jsstring) (neg : bool) :
  numberSign s = (neg, r) -> List.length r <= List.length s.
Proof.
  destruct s as [|c s]; simpl; [intros H; injection H as _ <-; simpl; lia|].
  destruct (c =? 45)%N; intros H; injection H as _ <-; simpl; lia.
Qed.

Lemma numberInt_length (s r : jsstring) (i : N) :
  numberInt s = Some (i, r) -> List.length r < List.length s.
Proof.
  destruct s as [|c s]; [discriminate|]. unfold numberInt.
  destruct (c =? 48)%N; [intros H; injection H as _ <-; simpl; lia|].
  destruct (isDigit c) eqn:Ed; [|discriminate].
  destruct (digits 0 0 (c :: s)) as [[n k] r'] eqn:E. intros H.
  injection H as _ <-. simpl in E. rewrite Ed in E.
  apply digits_length in E. simpl. lia.
Qed.

Lemma numberFrac_length (s r : jsstring) (i m : N) (k : nat) :
  numberFrac i s = Some (m, k, r) -> List.length r <= List.length s.
Proof.
  destruct s as [|c s]; simpl; [intros H; injection H as _ _ <-; simpl; lia|].
  destruct (c =? 46)%N; [|intros H; injection H as _ _ <-; simpl; lia].
  destruct (digits i 0 s) as [[m0 [|k0]] r0] eqn:E; [discriminate|].
  intros H. injection H as _ _ <-. apply digits_length in E. lia.
Qed.

Lemma exponentSign_length (s r : jsstring) (sign : Z) :
  exponentSign s = (sign, r) -> List.length r <= List.length s.
Proof.
  destruct s as [|d s]; simpl; [intros H; injection H as _ <-; simpl; lia|].
  destruct (d =? 45)%N; [intros H; injection H as _ <-; simpl; lia|].
  destruct (d =? 43)%N; intros H; injection H as _ <-; simpl; lia.
Qed.

Lemma numberExp_length (s r : jsstring) (e : Z) :
  numberExp s = Some (e, r) -> List.length r <= List.length s.
Proof.
  destruct s as [|c s]; simpl; [intros H; injection H as _ <-; simpl; lia|].
  destruct ((c =? 101)%N || (c =? 69)%N);
    [|intros H; injection H as _ <-; simpl; lia].
  destruct (exponentSign s) as [sign r1] eqn:E1.
  destruct (digits 0 0 r1) as [[e0 [|k0]] r2] eqn:E2; [discriminate|].
  intros H. injection H as _ <-.
  apply exponentSign_length in E1. apply digits_length in E2. lia.
Qed.

Lemma parseNumber_length (s r : jsstring) (n : Number) :
  parseNumber s = Some (n, r) -> List.length r < List.length s.
Proof.
  unfold parseNumber.
  destruct (numberSign s) as [neg s1] eqn:E1.
  destruct (numberInt s1) as [[i s2]|] eqn:E2; [|discriminate].
  destruct (numberFrac i s2) as [[[m k] s3]|] eqn:E3; [|discriminate].
  destruct (numberExp s3) as [[e s4]|] eqn:E4; [|discriminate].
  intros H. injection H as _ <-.
  apply numberSign_length in E1. apply numberInt_length in E2.
  apply numberFrac_length in E3. apply numberExp_length in E4. lia.
Qed.

(** A value, a list of members, a list of elements: each takes at least one
    code unit. *)
Lemma parse_consumes (fuel : nat) :
  (forall s v r, parseValue fuel s = Some (v, r) -> List.length r < List.length s)
  /\ (forall s acc v r,
        parseMembers fuel s acc = Some (v, r) -> List.length r < List.length s)
  /\ (forall s acc v r,
        parseElements fuel s acc = Some (v, r) -> List.length r < List.length s).
Proof.
  induction fuel as [|fuel [IHv [IHm IHe]]];
    [repeat split; intros; discriminate|].
  repeat split.
  - intros s v r H. cbn [parseValue] in H.
    pose proof (skipWs_length s) as L.
    destruct (skipWs s) as [|c r0]; [discriminate|]. simpl in L.
    destruct (c =? 123)%N.
    { pose proof (skipWs_length r0) as L0.
      destruct (skipWs r0) as [|d r']; [discriminate|]. simpl in L0.
      destruct (d =? 125)%N; [injection H as _ <-; lia|].
      apply IHm in H. simpl in H. lia. }
    destruct (c =? 91)%N.
    { pose proof (skipWs_length r0) as L0.
      destruct (skipWs r0) as [|d r']; [discriminate|]. simpl in L0.
      destruct (d =? 93)%N; [injection H as _ <-; lia|].
      apply IHe in H. simpl in H. lia. }
    destruct (c =? 34)%N.
    { destruct (parseString r0) as [[str r']|] eqn:E; [|discriminate].
      injection H as _ <-. apply parseString_length in E. lia. }
    destruct (startsWith (c :: r0) (lit "true")).
    { injection H as _ <-.
      repeat match goal with
             | |- context [match ?l with _ => _ end] => destruct l
             end; simpl in *; lia. }
    destruct (startsWith (c :: r0) (lit "false")).
    { injection H as _ <-.
      repeat match goal with
             | |- context [match ?l with _ => _ end] => destruct l
             end; simpl in *; lia. }
    destruct (startsWith (c :: r0) (lit "null")).
    { injection H as _ <-.
      repeat match goal with
             | |- context [match ?l with _ => _ end] => destruct l
             end; simpl in *; lia. }
    destruct (parseNumber (c :: r0)) as [[n r']|] eqn:E; [|discriminate].
    injection H as _ <-. apply parseNumber_length in E. simpl in E. lia.
  - intros s acc v r H. cbn [parseMembers] in H.
    pose proof (skipWs_length s) as L.
    destruct (skipWs s) as [|q r0]; [discriminate|]. simpl in L.
    destruct (q =? 34)%N; [|discriminate].
    destruct (parseString r0) as [[key r1]|] eqn:E1; [|discriminate].
    apply parseString_length in E1.
    pose proof (skipWs_length r1) as L1.
    destruct (skipWs r1) as [|colon r2]; [discriminate|]. simpl in L1.
    destruct (colon =? 58)%N; [|discriminate].
    destruct (parseValue fuel r2) as [[v0 r3]|] eqn:E3; [|discriminate].
    apply IHv in E3.
    pose proof (skipWs_length r3) as L3.
    destruct (skipWs r3) as [|d r4]; [discriminate|]. simpl in L3.
    destruct (d =? 44)%N; [apply IHm in H; lia|].
    destruct (d =? 125)%N; [|discriminate].
    injection H as _ <-. lia.
  - intros s acc v r H. cbn [parseElements] in H.
    destruct (parseValue fuel s) as [[v0 r0]|] eqn:E; [|discriminate].
    apply IHv in E.
    pose proof (skipWs_length r0) as L0.
    destruct (skipWs r0) as [|d r']; [discriminate|]. simpl in L0.
    destruct (d =? 44)%N; [apply IHe in H; lia|].
    destruct (d =? 93)%N; [|discriminate].
    injection H as _ <-. lia.
Qed.

(** Fuel beyond twice the length of the text makes no difference. *)
Lemma fuel_irrelevant (fuel1 fuel2 : nat) :
  (forall s,
     2 * List.length s < fuel1 -> 2 * List.length s < fuel2 ->
     parseValue fuel1 s = parseValue fuel2 s)
  /\ (forall s acc,
        2 * List.length s + 1 < fuel1 -> 2 * List.length s + 1 < fuel2 ->
        parseMembers fuel1 s acc = parseMembers fuel2 s acc)
  /\ (forall s acc,
        2 * List.length s + 1 < fuel1 -> 2 * List.length s + 1 < fuel2 ->
        parseElements fuel1 s acc = parseElements fuel2 s acc).
Proof.
  revert fuel2; induction fuel1 as [|fuel1 IH]; intros fuel2;
    [repeat split; intros; lia|].
  destruct fuel2 as [|fuel2]; [repeat split; intros; lia|].
  destruct (IH fuel2) as [IHv [IHm IHe]]. clear IH.
  repeat split.
  - intros s B1 B2. cbn [parseValue].
    pose proof (skipWs_length s) as L.
    destruct (skipWs s) as [|c r0]; [reflexivity|]. simpl in L.
    destruct (c =? 123)%N.
    { pose proof (skipWs_length r0) as L0.
      destruct (skipWs r0) as [|d r']; [reflexivity|]. simpl in L0.
      destruct (d =? 125)%N; [reflexivity|].
      apply IHm; simpl; lia. }
    destruct (c =? 91)%N; [|reflexivity].
    pose proof (skipWs_length r0) as L0.
    destruct (skipWs r0) as [|d r']; [reflexivity|]. simpl in L0.
    destruct (d =? 93)%N; [reflexivity|].
    apply IHe; simpl; lia.
  - intros s acc B1 B2. cbn [parseMembers].
    pose proof (skipWs_length s) as L.
    destruct (skipWs s) as [|q r0]; [reflexivity|]. simpl in L.
    destruct (q =? 34)%N; [|reflexivity].
    destruct (parseString r0) as [[key r1]|] eqn:E1; [|reflexivity].
    apply parseString_length in E1.
    pose proof (skipWs_length r1) as L1.
    destruct (skipWs r1) as [|colon r2]; [reflexivity|]. simpl in L1.
    destruct (colon =? 58)%N; [|reflexivity].
    rewrite (IHv r2) by lia.
    destruct (parseValue fuel2 r2) as [[v0 r3]|] eqn:E3; [|reflexivity].
    apply (proj1 (parse_consumes fuel2)) in E3.
    pose proof (skipWs_length r3) as L3.
    destruct (skipWs r3) as [|d r4]; [reflexivity|]. simpl in L3.
    destruct (d =? 44)%N; [|reflexivity].
    apply IHm; lia.
  - intros s acc B1 B2. cbn [parseElements].
    rewrite (IHv s) by lia.
    destruct (parseValue fuel2 s) as [[v0 r0]|] eqn:E; [|reflexivity].
    apply (proj1 (parse_consumes fuel2)) in E.
    pose proof (skipWs_length r0) as L0.
    destruct (skipWs r0) as [|d r']; [reflexivity|]. simpl in L0.
    destruct (d =? 44)%N; [|reflexivity].
    apply IHe; lia.
Qed.

(** [JSON.parse] is given enough fuel: more would not change its answer. *)
Lemma parse_fuel (text : jsstring) (fuel : nat) :
  2 * List.length text < fuel ->
  parseValue fuel text = parseValue (2 * List.length text + 2) text.
Proof.
  intros B. apply (proj1 (fuel_irrelevant fuel (2 * List.length text + 2))); lia.
Qed.

End JSONFacts.

(** ** Splitting on a non-empty separator *)

Section Split.

Variables (d : codeunit) (sep' : jsstring).
Local Abbreviation sep := (d :: sep').

Lemma split_go_nonempty (k : nat) (s : jsstring) : split_go sep k s <> [].
Proof.
  revert k; induction s as [|c s IH]; intros k; simpl; [discriminate|].
  destruct k; [|apply IH].
  destruct (N.eqb c d && startsWith s sep'); [discriminate|].
  destruct (split_go sep 0 s); discriminate.
Qed.

Lemma split_go_skip (x s : jsstring) :
  split_go sep (List.length x) (x ++ s) = split_go sep 0 s.
Proof. induction x as [|c x IH]; simpl; [reflexivity | apply IH]. Qed.

(** At a match the current piece ends and the scan resumes after it. *)
Lemma split_go_match (s : jsstring) :
  split_go sep 0 (sep ++ s) = [] :: split_go sep 0 s.
Proof.
  assert (E : startsWith (d :: sep' ++ s) sep = true)
    by apply (startsWith_app sep s).
  change (sep ++ s) with (d :: (sep' ++ s)). cbn [split_go].
  rewrite E.
  replace (List.length sep - 1) with (List.length sep') by (simpl; lia).
  f_equal. apply split_go_skip.
Qed.

(** Where the separator does not match, the code unit joins the first piece
    of what follows. *)
Lemma split_go_miss (c : codeunit) (s : jsstring) :
  startsWith (c :: s) sep = false ->
  split_go sep 0 (c :: s) =
    match split_go sep 0 s with
    | piece :: pieces => (c :: piece) :: pieces
    | [] => [[c]]
    end.
Proof. intros H. cbn [split_go]. now rewrite H. Qed.

(** A text with a single piece is that piece. *)
Lemma split_go_single (s piece : jsstring) :
  split_go sep 0 s = [piece] -> piece = s.
Proof.
  revert piece; induction s as [|c s IH]; intros piece H.
  - simpl in H. congruence.
  - destruct (startsWith (c :: s) sep) eqn:E.
    + apply startsWith_spec in E as [t E]. rewrite E in H.
      rewrite split_go_match in H. injection H as _ H.
      now apply split_go_nonempty in H.
    + rewrite split_go_miss in H by exact E.
      destruct (split_go sep 0 s) as [|p0 [|p1 ps]] eqn:E'.
      * now apply split_go_nonempty in E'.
      * injection H as <-. f_equal. now apply IH.
      * discriminate.
Qed.

Lemma split_go_short (s : jsstring) :
  List.length s < List.length sep -> split_go sep 0 s = [s].
Proof.
  induction s as [|c s IH]; intros H; [reflexivity|].
  rewrite split_go_miss by now apply startsWith_short.
  rewrite IH; [reflexivity | simpl in *; lia].
Qed.

(** The scan is incremental: the pieces closed inside [s] are closed in
    [s ++ t] too, and the scan of [s ++ t] goes on from the open piece. *)
Lemma split_go_app (s t : jsstring) :
  split_go sep 0 (s ++ t) =
    removelast (split_go sep 0 s) ++ split_go sep 0 (last (split_go sep 0 s) [] ++ t).
Proof.
  remember (List.length s) as n eqn:Hn.
  revert s Hn; induction n as [n IH] using lt_wf_ind; intros s Hn.
  destruct (split_go sep 0 s) as [|p0 [|p1 ps]] eqn:Es.
  - now apply split_go_nonempty in Es.
  - apply split_go_single in Es. now subst.
  - destruct s as [|c s]; [discriminate|].
    destruct (startsWith (c :: s) sep) eqn:E.
    + apply startsWith_spec in E as [u E]. rewrite E in *.
      rewrite split_go_match in Es. injection Es as <- Es.
      rewrite <- app_assoc, split_go_match.
      rewrite (IH (List.length u)) with (s := u); [|rewrite Hn, length_app; simpl; lia|reflexivity].
      rewrite Es. reflexivity.
    + destruct (startsWith (c :: s ++ t) sep) eqn:E'.
      * apply (startsWith_straddle (c :: s) t) in E'; [|exact E].
        rewrite split_go_short in Es by exact E'. discriminate.
      * rewrite split_go_miss in Es by exact E.
        destruct (split_go sep 0 s) as [|q0 qs] eqn:Es'; [discriminate|].
        injection Es as <- ->.
        change ((c :: s) ++ t) with (c :: (s ++ t)).
        rewrite split_go_miss by exact E'.
        rewrite (IH (List.length s)) with (s := s); [|simpl in Hn; lia|reflexivity].
        rewrite Es'. reflexivity.
Qed.

(** The open piece holds no occurrence of the separator. *)
Lemma split_go_last_clean (s : jsstring) :
  includes (last (split_go sep 0 s) []) sep = false.
Proof.
  remember (List.length s) as n eqn:Hn.
  revert s Hn; induction n as [n IH] using lt_wf_ind; intros s Hn.
  destruct s as [|c s]; [reflexivity|].
  destruct (startsWith (c :: s) sep) eqn:E.
  - apply startsWith_spec in E as [u E]. rewrite E in *.
    rewrite split_go_match.
    specialize (IH (List.length u)).
    rewrite length_app in Hn. simpl in Hn.
    specialize (IH ltac:(lia) u eq_refl).
    destruct (split_go sep 0 u) eqn:Eu; [now apply split_go_nonempty in Eu|].
    exact IH.
  - rewrite split_go_miss by exact E.
    specialize (IH (List.length s) ltac:(simpl in Hn; lia) s eq_refl).
    destruct (split_go sep 0 s) as [|p0 [|p1 ps]] eqn:Es.
    + now apply split_go_nonempty in Es.
    + apply split_go_single in Es. subst p0. simpl in IH |- *.
      simpl in E. rewrite E. simpl. destruct s; exact IH.
    + exact IH.
Qed.

End Split.

(** ** Framing *)

Section Framing.

Lemma last_app_r {A} (l m : list A) (a : A) :
  m <> [] -> last (l ++ m) a = last m a.
Proof.
  intros H. induction l as [|x l IH]; [reflexivity|].
  simpl. rewrite IH. destruct (l ++ m) eqn:E; [|reflexivity].
  apply app_eq_nil in E as [_ E]. contradiction.
Qed.

(** With the empty separator the pieces are the code units. *)
Lemma split_units_app (s t : jsstring) :
  split (s ++ t) [] =
    removelast (split s []) ++ split (last (split s []) [] ++ t) [].
Proof.
  unfold split. induction s as [|c s IH]; [reflexivity|].
  destruct s as [|c' s]; [reflexivity|].
  change (map (fun c0 => [c0]) ((c :: c' :: s) ++ t))
    with ([c] :: map (fun c0 => [c0]) ((c' :: s) ++ t)).
  rewrite IH. reflexivity.
Qed.

(** [split] is incremental, whatever the separator. *)
Lemma split_app (s t sep : jsstring) :
  split (s ++ t) sep =
    removelast (split s sep) ++ split (last (split s sep) [] ++ t) sep.
Proof.
  destruct sep as [|d sep']; [apply split_units_app | apply split_go_app].
Qed.

Lemma frame_nil (sep : jsstring) : frame [] sep = ([], []).
Proof. destruct sep; reflexivity. Qed.

(** What the engine relies on when it keeps the last piece for the next
    chunk: framing a text in two steps gives the frames of the whole. *)
Lemma frame_app (s t sep : jsstring) :
  frame (s ++ t) sep =
    let '(events1, rest1) := frame s sep in
    let '(events2, rest2) := frame (rest1 ++ t) sep in
    (events1 ++ events2, rest2).
Proof.
  destruct s as [|c s].
  - rewrite frame_nil. change ([] ++ t) with t.
    destruct (frame t sep); reflexivity.
  - unfold frame. rewrite split_app.
    set (l := split (c :: s) sep).
    assert (Hm : split (last l [] ++ t) sep <> []).
    { destruct sep as [|d sep']; [|apply split_go_nonempty].
      assert (Hl : last l [] <> []).
      { subst l. unfold split. generalize c.
        induction s as [|c' s IH]; intros c0; [discriminate|]. apply (IH c'). }
      destruct (last l []) as [|c0 r]; [contradiction|]. discriminate. }
    rewrite removelast_app by exact Hm.
    rewrite last_app_r by exact Hm. reflexivity.
Qed.

(** The kept piece frames to itself: it holds no complete frame. *)
Lemma frame_rest (s sep : jsstring) :
  frame (snd (frame s sep)) sep = ([], snd (frame s sep)).
Proof.
  pose proof (frame_app s [] sep) as H. rewrite app_nil_r in H.
  destruct (frame s sep) as [events1 rest1]. rewrite app_nil_r in H. simpl.
  destruct (frame rest1 sep) as [events2 rest2].
  injection H as H1 H2. subst rest2. f_equal.
  destruct events2; [reflexivity|].
  apply (f_equal (@List.length _)) in H1. rewrite length_app in H1.
  simpl in H1. lia.
Qed.

(** For a non-empty separator the kept piece holds no occurrence of it. *)
Lemma frame_clean (s sep : jsstring) :
  sep <> [] -> includes (snd (frame s sep)) sep = false.
Proof.
  intros H. destruct sep as [|d sep']; [contradiction|].
  apply split_go_last_clean.
Qed.

End Framing.

(** ** Blocks *)

Section Blocks.

Context {A B C : Type}.

Lemma bind_ret_l (a : A) (k : A -> Block B) : bind (ret a) k = k a.
Proof. unfold bind, ret. now destruct (k a). Qed.

Lemma bind_ret_r (m : Block A) : bind m ret = m.
Proof.
  destruct m as [effs [a| |e full]]; simpl; try reflexivity.
  now rewrite app_nil_r.
Qed.

Lemma bind_assoc (m : Block A) (k : A -> Block B) (h : B -> Block C) :
  bind (bind m k) h = bind m (fun a => bind (k a) h).
Proof.
  destruct m as [effs [a| |e full]]; simpl; try reflexivity.
  destruct (k a) as [effs' [b| |e full]]; simpl; try reflexivity.
  destruct (h b) as [effs'' c]. now rewrite app_assoc.
Qed.

End Blocks.

(** ** The decoder does not see chunk boundaries *)

Lemma decode_app (t : TextDecoder) (a b : list byte) :
  decode t (a ++ b) =
    let '(t1, out1) := decode t a in
    let '(t2, out2) := decode t1 b in
    (t2, out1 ++ out2).
Proof.
  revert t; induction a as [|x a IH]; intros t; simpl.
  - now destruct (decode t b).
  - destruct (decodeByte t x) as [t' out]. rewrite IH.
    destruct (decode t' a) as [t1 out1]. destruct (decode t1 b) as [t2 out2].
    now rewrite app_assoc.
Qed.

(** ** The read loop does not see chunk boundaries *)

Section Chunks.

Variables (rev : Revision) (p : ProviderPlugin).

Lemma processEvents_app (full : jsstring) (events1 events2 : list jsstring) :
  processEvents rev p full (events1 ++ events2) =
    (full' <- processEvents rev p full events1 ;;
     processEvents rev p full' events2).
Proof.
  revert full; induction events1 as [|event events1 IH]; intros full;
    cbn [processEvents app].
  - now rewrite bind_ret_l.
  - rewrite bind_assoc.
    destruct (processEvent rev p full event) as [effs [full'| |e f]];
      simpl; try reflexivity.
    now rewrite IH.
Qed.

(** Two chunks read one after the other act as their concatenation. *)
Lemma onChunk_app (st : EngineState) (value1 value2 : list byte) :
  (st' <- onChunk rev p st value1 ;; onChunk rev p st' value2)
  = onChunk rev p st (value1 ++ value2).
Proof.
  unfold onChunk. rewrite decode_app.
  destruct (decode (textDecoder st) value1) as [dec1 chunk1].
  destruct (decode dec1 value2) as [dec2 chunk2] eqn:E2.
  rewrite app_assoc, (frame_app (buffer st ++ chunk1) chunk2).
  destruct (frame (buffer st ++ chunk1) (delimiterOf p)) as [events1 rest1].
  destruct (frame (rest1 ++ chunk2) (delimiterOf p)) as [events2 rest2] eqn:E.
  cbv beta iota. rewrite processEvents_app, !bind_assoc.
  destruct (processEvents rev p (fullResponse st) events1) as [effs [full| |e f]];
    try reflexivity.
  cbn [bind ret app textDecoder buffer fullResponse].
  rewrite E2, E.
  match goal with |- context [bind ?m ?k] => destruct (bind m k) end.
  reflexivity.
Qed.

Lemma readLoop_merge (st : EngineState) (value1 value2 : list byte)
  (rest : list (list byte)) (fin : Ending) :
  readLoop rev p st (value1 :: value2 :: rest) fin
  = readLoop rev p st ((value1 ++ value2) :: rest) fin.
Proof.
  simpl. rewrite <- onChunk_app, !bind_assoc. reflexivity.
Qed.

Lemma readLoop_concat (st : EngineState) (value : list byte)
  (rest : list (list byte)) (fin : Ending) :
  readLoop rev p st (value :: rest) fin
  = readLoop rev p st [value ++ List.concat rest] fin.
Proof.
  revert value; induction rest as [|value2 rest IH]; intros value.
  - simpl List.concat. now rewrite app_nil_r.
  - rewrite readLoop_merge, IH. simpl List.concat. now rewrite app_assoc.
Qed.

(** A chunk without bytes changes nothing once the buffer holds no complete
    frame. *)
Lemma onChunk_empty (st : EngineState) :
  frame (buffer st) (delimiterOf p) = ([], buffer st) ->
  onChunk rev p st [] = ret st.
Proof.
  intros H. unfold onChunk. cbn [decode]. rewrite app_nil_r, H.
  cbn [processEvents]. rewrite bind_ret_l. now destruct st.
Qed.

Lemma readLoop_single (input : list (list byte)) (fin : Ending) :
  readLoop rev p initialState input fin
  = readLoop rev p initialState [List.concat input] fin.
Proof.
  destruct input as [|value rest].
  - simpl List.concat. cbn [readLoop].
    rewrite onChunk_empty by apply frame_nil. now rewrite bind_ret_l.
  - apply readLoop_concat.
Qed.

(** Two deliveries of the same bytes run the same loop. *)
Lemma readLoop_same_bytes (input1 input2 : list (list byte)) (fin : Ending) :
  List.concat input1 = List.concat input2 ->
  readLoop rev p initialState input1 fin = readLoop rev p initialState input2 fin.
Proof.
  intros H. now rewrite (readLoop_single input1), (readLoop_single input2), H.
Qed.

End Chunks.

(** ** The sniffer *)

(** The sniffer either does nothing and answers no, or reports one error
    with an empty partial text, puts the stream in error, and answers yes. *)
Lemma handlePossibleErrorJSON_cases (rawText : jsstring) :
  handlePossibleErrorJSON rawText = ([], false)
  \/ exists errorMsg,
       handlePossibleErrorJSON rawText =
         ([OnError (NewError errorMsg) (assistant []);
           ControllerError (NewError errorMsg)], true).
Proof.
  unfold handlePossibleErrorJSON.
  destruct (negb _); [now left|].
  destruct (JSON.parse _) as [parsed|]; [|now left].
  destruct (JSON.get parsed _) as [err|]; [|now left].
  destruct (JSON.truthy err); [|now left].
  destruct (JSON.get err _) as [errorMsg|]; [|now left].
  destruct (JSON.truthy errorMsg); [|now left].
  destruct (JSON.stringThrows errorMsg); [now left|].
  right. now exists errorMsg.
Qed.

Lemma sniff_cases (rev : Revision) (trimmed : jsstring) :
  sniff rev trimmed = ([], false)
  \/ exists errorMsg,
       sniff rev trimmed =
         ([OnError (NewError errorMsg) (assistant []);
           ControllerError (NewError errorMsg)], true).
Proof.
  destruct rev; [now left | apply handlePossibleErrorJSON_cases].
Qed.

(** ** Terminal callbacks *)

Section Terminal.




Variables (rev : Revision) (p : ProviderPlugin).








End Terminal.


(** ** The aggregate *)

Section Aggregate.

Lemma partials_app (e1 e2 : list Effect) :
  partials (e1 ++ e2) = partials e1 ++ partials e2.
Proof.
  induction e1 as [|e e1 IH]; [reflexivity|].
  destruct e; simpl; now rewrite IH.
Qed.

Lemma aggregate_nil (full : jsstring) : aggregate full [] = full.
Proof. unfold aggregate. simpl. apply app_nil_r. Qed.

Lemma aggregate_app (full : jsstring) (e1 e2 : list Effect) :
  aggregate full (e1 ++ e2) = aggregate (aggregate full e1) e2.
Proof.
  unfold aggregate. now rewrite partials_app, concat_app, app_assoc.
Qed.

Lemma aggregate_cons_partial (full : jsstring) (m : SSEMessage) (effs : list Effect) :
  aggregate full (OnPartial m :: effs) = aggregate (full ++ content m) effs.
Proof. unfold aggregate. simpl. now rewrite app_assoc. Qed.

Lemma Aggregated_app (full : jsstring) (e1 e2 : list Effect) :
  Aggregated full (e1 ++ e2)
  <-> Aggregated full e1 /\ Aggregated (aggregate full e1) e2.
Proof.
  revert full; induction e1 as [|e e1 IH]; intros full.
  - rewrite aggregate_nil. simpl. tauto.
  - destruct e; simpl; rewrite ?aggregate_cons_partial;
      try (rewrite IH; unfold aggregate; simpl; tauto).
Qed.

(** What [Aggregated] says of one [onDone] call. *)
Lemma Aggregated_at (full : jsstring) (pre post : list Effect) (m : SSEMessage) :
  Aggregated full (pre ++ OnDone m :: post) -> content m = aggregate full pre.
Proof.
  intros H. apply Aggregated_app in H as [_ H]. simpl in H. tauto.
Qed.

Lemma Accounts_ret {A} (proj : A -> jsstring) (a : A) : Accounts proj (proj a) (ret a).
Proof. split; simpl; [exact I | now rewrite aggregate_nil]. Qed.

Lemma Accounts_bind {A B} (projA : A -> jsstring) (projB : B -> jsstring)
  (full : jsstring) (m : Block A) (k : A -> Block B) :
  Accounts projA full m ->
  (forall a, Accounts projB (projA a) (k a)) ->
  Accounts projB full (bind m k).
Proof.
  unfold Accounts. destruct m as [effs [a| |e found]]; simpl; intros [H1 H2] Hk;
    try (split; assumption).
  specialize (Hk a). destruct (k a) as [effs' c]. simpl in *.
  destruct Hk as [H3 H4]. rewrite H2 in H3, H4. split.
  - apply Aggregated_app. now split.
  - rewrite aggregate_app. exact H4.
Qed.

Variables (rev : Revision) (p : ProviderPlugin).

Lemma Accounts_conclude (full : jsstring) (r : Lines) :
  Accounts (fun x => x) full (conclude full r).
Proof.
  destruct r as [|eventText|e]; simpl.
  - split; simpl; tauto.
  - destruct (truthy eventText); [|apply (Accounts_ret (fun x => x))].
    split; simpl; [exact I|]. unfold aggregate. simpl. now rewrite app_nil_r.
  - split; simpl; [exact I | now rewrite aggregate_nil].
Qed.

Lemma Accounts_sniffed (full trimmed : jsstring) (effs : list Effect) :
  sniff rev trimmed = (effs, true) -> Accounts (fun x => x) full (effs, Returns).
Proof.
  intros E. destruct (sniff_cases rev trimmed) as [E'|[msg E']];
    rewrite E' in E; [discriminate|].
  injection E as <-. split; simpl; tauto.
Qed.

Lemma Accounts_processEvent (full event : jsstring) :
  Accounts (fun x => x) full (processEvent rev p full event).
Proof.
  unfold processEvent. destruct (negb _); [apply (Accounts_ret (fun x => x))|].
  destruct (sniff rev (trim event)) as [effs [|]] eqn:E.
  - now apply (Accounts_sniffed full (trim event) effs).
  - apply Accounts_conclude.
Qed.

Lemma Accounts_processEvents (full : jsstring) (events : list jsstring) :
  Accounts (fun x => x) full (processEvents rev p full events).
Proof.
  revert full; induction events as [|event events IH]; intros full.
  - apply (Accounts_ret (fun x => x)).
  - apply (Accounts_bind (fun x => x)); [apply Accounts_processEvent | apply IH].
Qed.

Lemma Accounts_onChunk (st : EngineState) (value : list byte) :
  Accounts fullResponse (fullResponse st) (onChunk rev p st value).
Proof.
  unfold onChunk. destruct (decode _ _) as [dec chunk].
  destruct (frame _ _) as [events rest].
  apply (Accounts_bind (fun x => x)); [apply Accounts_processEvents|].
  intros full.
  apply (Accounts_ret fullResponse
           {| fullResponse := full; buffer := rest; textDecoder := dec |}).
Qed.

Lemma Accounts_readLoop (st : EngineState) (input : list (list byte)) (fin : Ending) :
  Accounts fullResponse (fullResponse st) (readLoop rev p st input fin).
Proof.
  revert st; induction input as [|value input IH]; intros st.
  - destruct fin; [apply Accounts_ret|].
    split; simpl; [exact I | now rewrite aggregate_nil].
  - apply (Accounts_bind fullResponse); [apply Accounts_onChunk | apply IH].
Qed.

Lemma Accounts_handleLeftover (full buf : jsstring) :
  Accounts (fun x => x) full (handleLeftover rev p full buf).
Proof.
  unfold handleLeftover. destruct (truthy _); [|apply (Accounts_ret (fun x => x))].
  destruct (sniff rev (trim buf)) as [effs [|]] eqn:E.
  - now apply (Accounts_sniffed full (trim buf) effs).
  - apply Accounts_conclude.
Qed.

(** The [try] block: each [onDone] carries the text reported so far, and so
    does the text left for the [catch] clause. *)
Lemma tryBlock_accounts (r : Reader) :
  Aggregated [] (fst (tryBlock rev p r))
  /\ match snd (tryBlock rev p r) with
     | Raises _ found => found = aggregate [] (fst (tryBlock rev p r))
     | _ => True
     end.
Proof.
  unfold tryBlock. rewrite <- bind_assoc.
  set (m := bind (readLoop rev p initialState (chunks r) (ending r)) _).
  assert (Hm : Accounts (fun x => x) [] m).
  { apply (Accounts_bind fullResponse);
      [apply (Accounts_readLoop initialState)|].
    intros st. apply Accounts_handleLeftover. }
  destruct m as [effs [full| |e found]]; destruct Hm as [H1 H2]; simpl in *.
  - split; [|exact I]. apply Aggregated_app. split; [exact H1|]. simpl. auto.
  - split; [exact H1 | exact I].
  - split; [exact H1 | exact H2].
Qed.

Lemma Aggregated_start (r : Reader) : Aggregated [] (start rev p r).
Proof.
  unfold start. destruct (tryBlock_accounts r) as [H1 H2].
  destruct (tryBlock rev p r) as [effs [u| |e found]]; simpl in *; try exact H1.
  apply Aggregated_app. split; [exact H1 | exact I].
Qed.

End Aggregate.

(** C1.  Whenever [onDone] is called, and so in every stream that ends in a
    line the parser maps to the completion marker, its content is the
    concatenation, in the order of the calls, of the contents of the
    [onPartial] calls made before it. *)
Theorem onDone_content_is_concatenation (rev : Revision) (params : SSEEngineParams)
  (i : Instance) (pre post : list Effect) (m : SSEMessage) :
  createSSEStream rev params = Normal i ->
  trace i = pre ++ OnDone m :: post ->
  content m = List.concat (partials pre).
Proof.
  unfold createSSEStream. intros Hi Ht.
  assert (H : Aggregated [] (trace i)).
  { destruct (prepareRequest (plugin params)) as [reader|error];
      injection Hi as <-; unfold trace; cbn [beforeReturn afterReturn].
    - apply Aggregated_app. split.
      + destruct (systemMessage params) as [text|]; [destruct (truthy text)|];
          simpl; exact I.
      + replace (aggregate [] _) with (@nil codeunit);
          [apply Aggregated_start|].
        destruct (systemMessage params) as [text|]; [destruct (truthy text)|];
          reflexivity.
    - simpl. exact I. }
  rewrite Ht in H. apply Aggregated_at in H. exact H.
Qed.

(** C3.  The task of the outbound stream does the same whether the reader
    delivers the bytes of the input in any number of chunks, cut anywhere
    (inside a character of several bytes, inside the delimiter, inside a
    line), or in one chunk: the same calls of [onPartial], [onDone] and
    [onError] with the same contents, the same writes on the stream. *)
Theorem chunk_boundary_invariance (rev : Revision) (p : ProviderPlugin)
  (input : list (list byte)) (fin : Ending) :
  start rev p {| chunks := input; ending := fin |}
  = start rev p {| chunks := [List.concat input]; ending := fin |}.
Proof.
  unfold start, tryBlock. cbn [chunks ending].
  now rewrite readLoop_single.
Qed.

(** ** The buffer *)

Section Buffer.

Variables (rev : Revision) (p : ProviderPlugin).

(** The loop over a sequence of chunks is the loop over its first part,
    left at the point where it awaits the next read, followed by the loop
    over the rest. *)
Lemma readLoop_app (st : EngineState) (input1 input2 : list (list byte)) (fin : Ending) :
  readLoop rev p st (input1 ++ input2) fin
  = (st' <- readLoop rev p st input1 EndOfInput ;; readLoop rev p st' input2 fin).
Proof.
  revert st; induction input1 as [|value input1 IH]; intros st;
    cbn [readLoop app].
  - now rewrite bind_ret_l.
  - rewrite bind_assoc.
    destruct (onChunk rev p st value) as [effs [st'| |e f]]; try reflexivity.
    simpl. now rewrite IH.
Qed.

(** After a chunk the buffer is the last piece of a split. *)
Lemma onChunk_buffer (st st' : EngineState) (value : list byte) (effs : list Effect) :
  onChunk rev p st value = (effs, Goes st') ->
  exists s, buffer st' = snd (frame s (delimiterOf p)).
Proof.
  unfold onChunk. destruct (decode _ _) as [dec chunk].
  destruct (frame _ _) as [events rest] eqn:E.
  destruct (processEvents _ _ _ _) as [effs' [full| |e f]];
    cbn [bind ret]; intros H; try discriminate.
  injection H as _ <-. exists (buffer st ++ chunk). now rewrite E.
Qed.

Lemma readLoop_buffer (st st' : EngineState) (input : list (list byte))
  (fin : Ending) (effs : list Effect) :
  readLoop rev p st input fin = (effs, Goes st') ->
  buffer st' = buffer st \/ exists s, buffer st' = snd (frame s (delimiterOf p)).
Proof.
  revert st effs; induction input as [|value input IH]; intros st effs.
  - destruct fin; simpl; intros H; [|discriminate].
    injection H as _ <-. now left.
  - cbn [readLoop].
    destruct (onChunk rev p st value) as [effs1 [st1| |e f]] eqn:E; simpl;
      try discriminate.
    destruct (readLoop rev p st1 input fin) as [effs2 c] eqn:E'.
    intros H. injection H as _ ->.
    right. destruct (IH _ _ E') as [H|H]; [|exact H].
    rewrite H. exact (onChunk_buffer _ _ _ _ E).
Qed.

End Buffer.

(** X17.  A chunk whose processing returns ends the instance: the chunks
    after it are not read, and neither the end of the input nor a failure of
    the reader is seen. *)
Lemma return_ends_the_instance (rev : Revision) (p : ProviderPlugin)
  (before after : list (list byte)) (value : list byte) (fin : Ending)
  (st : EngineState) (effs0 effs1 : list Effect) :
  readLoop rev p initialState before EndOfInput = (effs0, Goes st) ->
  onChunk rev p st value = (effs1, Returns) ->
  start rev p {| chunks := before ++ value :: after; ending := fin |}
  = effs0 ++ effs1.
Proof.
  intros H0 H1. unfold start, tryBlock. cbn [chunks ending].
  rewrite readLoop_app, H0. cbn [bind readLoop]. rewrite H1. reflexivity.
Qed.

(** ** The completion marker *)

Section Marker.

Variable p : ProviderPlugin.

Lemma eventLoop_done (pre post : list jsstring) (line eventText : jsstring) :
  Forall (Answers p) pre ->
  parseServerSentEvent p line = Normal (Some DONE) ->
  eventLoop p (pre ++ line :: post) eventText = SawDone.
Proof.
  intros Hpre Hline. revert eventText.
  induction Hpre as [|l pre [r Hl] _ IH]; intros eventText; simpl.
  - rewrite Hline. now rewrite eqb_refl.
  - rewrite Hl. destruct r as [parsed|]; [|apply IH].
    destruct (JS.eqb parsed DONE); [reflexivity|].
    destruct (truthy parsed); apply IH.
Qed.

(** The loop of the leftover is the loop of a frame over the lines that do
    not start with a colon. *)
Lemma leftoverLoop_eventLoop (lines : list jsstring) (text : jsstring) :
  leftoverLoop p lines text
  = eventLoop p (filter (fun ln => negb (startsWith ln (lit ":"))) lines) text.
Proof.
  revert text; induction lines as [|line lines IH]; intros text;
    [reflexivity|].
  cbn [leftoverLoop filter].
  destruct (startsWith line (lit ":")); cbn [negb]; [apply IH|].
  cbn [eventLoop].
  destruct (parseServerSentEvent p line) as [[parsed|]|e]; try reflexivity;
    try apply IH.
  destruct (JS.eqb parsed DONE); [reflexivity|].
  destruct (truthy parsed); apply IH.
Qed.

Lemma eventLoop_sees_done (lines : list jsstring) (line eventText : jsstring) :
  (forall l, In l lines -> Answers p l) ->
  In line lines ->
  parseServerSentEvent p line = Normal (Some DONE) ->
  eventLoop p lines eventText = SawDone.
Proof.
  intros Hall Hin Hline. apply in_split in Hin as [pre [post ->]].
  apply eventLoop_done; [|exact Hline].
  apply Forall_forall. intros l Hl. apply Hall.
  apply in_or_app. now left.
Qed.

End Marker.

Lemma sseLinesOf_empty : sseLinesOf (linesOf []) = [].
Proof. reflexivity. Qed.

Lemma sniff_quiet (rev : Revision) (trimmed : jsstring) :
  snd (sniff rev trimmed) = false -> sniff rev trimmed = ([], false).
Proof.
  intros H. destruct (sniff_cases rev trimmed) as [E|[msg E]]; [exact E|].
  rewrite E in H. discriminate.
Qed.

(** C5.  When a line of a frame parses to the completion marker, the engine
    calls [onDone] with the aggregate as it stood before the frame, closes
    the outbound stream and returns: the frames that follow are not
    processed, and whatever the earlier lines of the frame yielded reaches
    neither [onDone], nor an [onPartial] call, nor the outbound stream.  The
    frame is one the sniffer lets through, and the parser answers on the
    earlier lines. *)
Theorem done_discards_frame_text (rev : Revision) (p : ProviderPlugin)
  (full event : jsstring) (rest pre post : list jsstring) (line : jsstring) :
  snd (sniff rev (trim event)) = false ->
  sseLinesOf (linesOf (trim event)) = pre ++ line :: post ->
  Forall (Answers p) pre ->
  parseServerSentEvent p line = Normal (Some DONE) ->
  processEvents rev p full (event :: rest)
  = ([OnDone (assistant full); Close], Returns).
Proof.
  intros Hs Hl Hpre Hline. cbn [processEvents]. unfold processEvent.
  destruct (trim event) as [|c t] eqn:Et.
  - rewrite sseLinesOf_empty in Hl. now destruct pre.
  - cbn [truthy negb]. rewrite (sniff_quiet _ _ Hs), Hl.
    now rewrite eventLoop_done.
Qed.

(** C10.  The completion marker is the string [[DONE]] itself: when the
    parser answers that string on a line, whatever the plugin meant by it,
    the engine does not emit it as text but calls [onDone] and closes the
    stream, in a frame and in the leftover alike.  The text is one the
    sniffer lets through, and the parser answers on every line. *)
Theorem done_string_is_the_marker (rev : Revision) (p : ProviderPlugin)
  (full text line : jsstring) :
  snd (sniff rev (trim text)) = false ->
  Forall (Answers p) (linesOf (trim text)) ->
  In line (sseLinesOf (linesOf (trim text))) ->
  parseServerSentEvent p line = Normal (Some (lit "[DONE]")) ->
  processEvent rev p full text = ([OnDone (assistant full); Close], Returns)
  /\ handleLeftover rev p full text = ([OnDone (assistant full); Close], Returns).
Proof.
  intros Hs Hall Hin Hline. unfold processEvent, handleLeftover.
  rewrite Forall_forall in Hall.
  destruct (trim text) as [|c t] eqn:Et.
  - rewrite sseLinesOf_empty in Hin. contradiction.
  - cbn [truthy negb]. rewrite (sniff_quiet _ _ Hs).
    unfold sseLinesOf in *. split.
    + rewrite (eventLoop_sees_done p _ line []); [reflexivity| |exact Hin|exact Hline].
      intros l Hl. apply filter_In in Hl as [Hl _]. now apply Hall.
    + rewrite leftoverLoop_eventLoop.
      rewrite (eventLoop_sees_done p _ line []); [reflexivity| | |exact Hline].
      * intros l Hl. apply filter_In in Hl as [Hl _]. now apply Hall.
      * apply filter_In in Hin as [Hin Hc]. apply filter_In.
        split; [exact Hin|]. now apply andb_true_iff in Hc.
Qed.

(** ** Preparation failure *)

(** C6.  When [prepareRequest] throws, the promise of [createSSEStream]
    still resolves: before it does, [onError] has been called with the
    error and an empty assistant text and the outbound stream has been
    closed, without an error and with nothing queued, so that its first read
    reports the end of the input; nothing happens afterwards, and neither
    [onDone] nor [onPartial] is ever called. *)
Theorem prepare_failure_closes_empty_stream (rev : Revision)
  (params : SSEEngineParams) (error : jserror) :
  prepareRequest (plugin params) = Throws error ->
  exists i,
    createSSEStream rev params = Normal i
    /\ beforeReturn i = [OnError error (assistant []); Close]
    /\ afterReturn i = []
    /\ outbound (beforeReturn i) = {| queue := []; state := Closed |}
    /\ fst (read (outbound (beforeReturn i))) = ReadDone
    /\ (forall m, ~ In (OnDone m) (trace i))
    /\ (forall m, ~ In (OnPartial m) (trace i)).
Proof.
  intros H. unfold createSSEStream. rewrite H. eexists. split; [reflexivity|].
  cbn [beforeReturn afterReturn]. repeat split.
  - intros m [F|[F|[]]]; discriminate.
  - intros m [F|[F|[]]]; discriminate.
Qed.

(** ** The debug gate *)

(** X19.  The two ways of writing the last line of [isDebugEnabled], that
    of [streaming-engine.ts] and that of the revision with the sniffer, agree
    on every configuration and category. *)
Lemma isDebugEnabled_revisions (debug : DebugConfig) (category : DebugCategory) :
  isDebugEnabled' debug category = isDebugEnabled debug category.
Proof.
  destruct debug as [|b|o]; try reflexivity. unfold isDebugEnabled', isDebugEnabled.
  cbn [debugTruthy negb]. destruct (DebugOptions.all o) as [[|]|]; reflexivity.
Qed.

(** C9.  The gate answers false when the configuration is absent or is the
    boolean false; the boolean itself, for every category, when the
    configuration is a boolean; and [all] or the flag of the category when
    it is structured, a missing flag counting as false: with [all] true the
    answer is true whatever the other flags are. *)
Theorem isDebugEnabled_spec (category : DebugCategory) :
  isDebugEnabled DebugAbsent category = false
  /\ isDebugEnabled (DebugBool false) category = false
  /\ (forall b, isDebugEnabled (DebugBool b) category = b)
  /\ (forall o, isDebugEnabled (DebugStructured o) category
                = toBoolean (DebugOptions.all o) || toBoolean (flag o category))
  /\ (forall pluginFlag sseFlag,
        isDebugEnabled
          (DebugStructured {| DebugOptions.all := Some true;
                              DebugOptions.plugin := pluginFlag;
                              DebugOptions.sse := sseFlag |}) category = true).
Proof.
  repeat split; try reflexivity. intros []; reflexivity.
Qed.

(** ** In-band error payloads *)

(** A frame the sniffer reports ends the instance: nothing of it is parsed
    and the frames after it are not processed. *)
Lemma sniffed_frame_returns (rev : Revision) (p : ProviderPlugin)
  (full event : jsstring) (rest : list jsstring) (effs : list Effect) :
  truthy (trim event) = true ->
  sniff rev (trim event) = (effs, true) ->
  processEvents rev p full (event :: rest) = (effs, Returns).
Proof.
  intros Ht Hs. cbn [processEvents]. unfold processEvent.
  now rewrite Ht, Hs.
Qed.

(** X23.  What the sniffer does with a frame that carries an error payload:
    the text after the prefix is a JSON object whose [error] member is truthy
    and has a truthy [message] member, one that [new Error] can convert to a
    string.  [onError] is called once with that message, the stream is put
    in error, and the instance ends with the frame; the text handed to
    [onError] is empty whatever [full], the aggregate at that point, is. *)
Lemma payload_error_stops (p : ProviderPlugin) (full event : jsstring)
  (rest : list jsstring) (parsed err errorMsg : JSON.value) :
  startsWith (stripDataPrefix (trim event)) (lit "{") = true ->
  JSON.parse (stripDataPrefix (trim event)) = Some parsed ->
  JSON.get parsed (lit "error") = Some err ->
  JSON.truthy err = true ->
  JSON.get err (lit "message") = Some errorMsg ->
  JSON.truthy errorMsg = true ->
  JSON.stringThrows errorMsg = false ->
  processEvents Sniffing p full (event :: rest)
  = ([OnError (NewError errorMsg) (assistant []);
      ControllerError (NewError errorMsg)], Returns).
Proof.
  intros Hs Hp He Het Hm Hmt Hc. apply sniffed_frame_returns.
  - destruct (trim event); [discriminate | reflexivity].
  - cbn [sniff]. unfold handlePossibleErrorJSON.
    now rewrite trim_idem, Hs, Hp, He, Het, Hm, Hmt, Hc.
Qed.

(** A message that has no string is not reported: building the error object
    throws inside the [try] of the sniffer, which then answers no, and the
    frame goes to the parser as any other. *)
Lemma unprintable_message_passes (rawText : jsstring)
  (parsed err errorMsg : JSON.value) :
  JSON.parse (stripDataPrefix (trim rawText)) = Some parsed ->
  JSON.get parsed (lit "error") = Some err ->
  JSON.get err (lit "message") = Some errorMsg ->
  JSON.stringThrows errorMsg = true ->
  handlePossibleErrorJSON rawText = ([], false).
Proof.
  intros Hp He Hm Hc. unfold handlePossibleErrorJSON.
  rewrite Hp, He, Hm, Hc.
  destruct (negb _); [reflexivity|].
  destruct (JSON.truthy err); [|reflexivity].
  destruct (JSON.truthy errorMsg); reflexivity.
Qed.

(** The payload [{"error":{"message":{"toString":0}}}] on a line of Ollama:
    nothing is reported, and the run ends as if the line held no text. *)
Example message_without_a_string :
  let line := lit "{" ++ Examples.quoted "error" ++ lit ":{"
                ++ Examples.quoted "message" ++ lit ":{"
                ++ Examples.quoted "toString" ++ lit ":0}}}" ++ [LF] in
  handlePossibleErrorJSON line = ([], false)
  /\ start Sniffing (OllamaPlugin (Examples.served []))
       (Examples.delivering [encode line])
     = [OnDone (assistant []); Close].
Proof. split; vm_compute; reflexivity. Qed.

(** C2, on the code.  The reader delivers a reply of Ollama, which the
    engine reports with [onPartial], and then an error payload: the engine
    calls [onError] once, puts the stream in error and stops, but the text
    it passes to [onError] is empty, not the aggregate, which is the reply. *)
Theorem payload_error_reports_empty_text :
  createSSEStream Sniffing (Examples.ask Examples.replyThenError)
  = Normal
      {| beforeReturn :=
           [OnUserMessage {| role := User; content := lit "Test message" |}];
         afterReturn :=
           [Enqueue (encode (lit "Hello")); OnPartial (assistant (lit "Hello"));
            OnError (NewError (JSON.Str (lit "X"))) (assistant []);
            ControllerError (NewError (JSON.Str (lit "X")))] |}.
Proof. vm_compute. reflexivity. Qed.

(** Where the engine itself catches an exception, the text it passes to
    [onError] is the aggregate: here the reader fails after the reply. *)
Lemma read_failure_reports_aggregate :
  start Sniffing (OllamaPlugin (Examples.served []))
    {| chunks := [encode (Examples.member "response" "Hello")];
       ending := ReadFailure (Thrown (lit "connection reset")) |}
  = [Enqueue (encode (lit "Hello")); OnPartial (assistant (lit "Hello"));
     ControllerError (Thrown (lit "connection reset"));
     OnError (Thrown (lit "connection reset")) (assistant (lit "Hello"))].
Proof. vm_compute. reflexivity. Qed.

(** ** The leftover *)

(** Empty lines make no difference to a parser that finds nothing in them. *)
Lemma eventLoop_empty_lines (p : ProviderPlugin) (lines : list jsstring) (text : jsstring) :
  parseServerSentEvent p [] = Normal None ->
  eventLoop p (filter (fun ln => negb (startsWith ln (lit ":"))) lines) text
  = eventLoop p (sseLinesOf lines) text.
Proof.
  intros He. unfold sseLinesOf. revert text.
  induction lines as [|line lines IH]; intros text; [reflexivity|].
  cbn [filter]. destruct line as [|c line].
  - change (negb (startsWith [] (lit ":"))) with true.
    cbn [truthy andb eventLoop]. rewrite He. apply IH.
  - cbn [truthy andb].
    destruct (negb (startsWith (c :: line) (lit ":"))); [|apply IH].
    cbn [eventLoop].
    destruct (parseServerSentEvent p (c :: line)) as [[parsed|]|e];
      try reflexivity; try apply IH.
    destruct (JS.eqb parsed DONE); [reflexivity|].
    destruct (truthy parsed); apply IH.
Qed.

(** X18.  The leftover is handled as a frame by every plugin whose parser
    finds nothing in the empty line. *)
Lemma leftover_as_frame (rev : Revision) (p : ProviderPlugin) (full text : jsstring) :
  parseServerSentEvent p [] = Normal None ->
  handleLeftover rev p full text = processEvent rev p full text.
Proof.
  intros He. unfold handleLeftover, processEvent.
  destruct (truthy (trim text)); cbn [negb]; [|reflexivity].
  destruct (sniff rev (trim text)) as [effs [|]]; [reflexivity|].
  now rewrite leftoverLoop_eventLoop, eventLoop_empty_lines.
Qed.

(** C7, on the code.  The same text is handled differently as a frame and
    as the leftover when one of its lines is empty after trimming: the
    frame path drops the line, the leftover path hands it to the parser.
    With a parser that ends every line with a line feed, the text reported
    differs. *)
Theorem leftover_parses_empty_lines :
  let p := Examples.linesPlugin (Examples.delivering []) in
  processEvent Plain p [] Examples.spacedText
  = ([Enqueue (encode (lit "a" ++ [LF] ++ lit "b" ++ [LF]));
      OnPartial (assistant (lit "a" ++ [LF] ++ lit "b" ++ [LF]))],
     Goes (lit "a" ++ [LF] ++ lit "b" ++ [LF]))
  /\ handleLeftover Plain p [] Examples.spacedText
     = ([Enqueue (encode (lit "a" ++ [LF; LF] ++ lit "b" ++ [LF]));
         OnPartial (assistant (lit "a" ++ [LF; LF] ++ lit "b" ++ [LF]))],
        Goes (lit "a" ++ [LF; LF] ++ lit "b" ++ [LF])).
Proof. split; vm_compute; reflexivity. Qed.

(** The same divergence seen from outside: the text as the last frame of
    the input, closed by the delimiter, and as what is left when the input
    ends. *)
Lemma empty_line_reaches_the_parser_at_the_end :
  let framed := Examples.delivering [encode (Examples.spacedText ++ [LF; LF])] in
  let left := Examples.delivering [encode Examples.spacedText] in
  partials (start Plain (Examples.linesPlugin framed) framed)
    = [lit "a" ++ [LF] ++ lit "b" ++ [LF]]
  /\ partials (start Plain (Examples.linesPlugin left) left)
    = [lit "a" ++ [LF; LF] ++ lit "b" ++ [LF]].
Proof. split; vm_compute; reflexivity. Qed.

(** ** The theorems at work *)

(** A reply of Ollama whose text is one character of two bytes, cut between
    the two bytes, and then inside the completion line. *)
Example cut_inside_a_character :
  let p := OllamaPlugin (Examples.served []) in
  let reply := lit "{" ++ Examples.quoted "response" ++ lit ":" ++ [QUOTE; 233%N; QUOTE]
                 ++ lit "}" ++ [LF] in
  let bytes := encode (reply ++ Examples.doneLine) in
  start Plain p (Examples.delivering [firstn 14 bytes; firstn 10 (skipn 14 bytes);
                                      skipn 24 bytes])
  = [Enqueue [xc3; xa9]; OnPartial (assistant [233%N]);
     OnDone (assistant [233%N]); Close]
  /\ start Plain p (Examples.delivering [bytes])
     = [Enqueue [xc3; xa9]; OnPartial (assistant [233%N]);
        OnDone (assistant [233%N]); Close].
Proof. split; vm_compute; reflexivity. Qed.

(** The two replies of [Examples.helloWorld] and the completion line. *)
Lemma onDone_content_is_concatenation_witness :
  let i :=
    {| beforeReturn :=
         [OnUserMessage {| role := User; content := lit "Test message" |}];
       afterReturn :=
         [Enqueue (encode (lit "Hello ")); OnPartial (assistant (lit "Hello "));
          Enqueue (encode (lit "world!")); OnPartial (assistant (lit "world!"));
          OnDone (assistant (lit "Hello world!")); Close] |} in
  let pre :=
    [OnUserMessage {| role := User; content := lit "Test message" |};
     Enqueue (encode (lit "Hello ")); OnPartial (assistant (lit "Hello "));
     Enqueue (encode (lit "world!")); OnPartial (assistant (lit "world!"))] in
  createSSEStream Plain (Examples.ask Examples.helloWorld) = Normal i
  /\ trace i = pre ++ OnDone (assistant (lit "Hello world!")) :: [Close]
  /\ content (assistant (lit "Hello world!")) = List.concat (partials pre).
Proof.
  intros i pre.
  assert (H1 : createSSEStream Plain (Examples.ask Examples.helloWorld) = Normal i)
    by (vm_compute; reflexivity).
  assert (H2 : trace i = pre ++ OnDone (assistant (lit "Hello world!")) :: [Close])
    by reflexivity.
  split; [exact H1|]. split; [exact H2|].
  exact (onDone_content_is_concatenation Plain (Examples.ask Examples.helloWorld)
           i pre [Close] (assistant (lit "Hello world!")) H1 H2).
Defined.

(** A frame of two lines: a reply, then the completion line; one more frame
    follows. *)
Lemma done_discards_frame_text_witness :
  let p := OllamaPlugin (Examples.served []) in
  let event := Examples.member "response" "world!" ++ Examples.doneLine in
  let pre := [lit "{" ++ Examples.quoted "response" ++ lit ":"
                ++ Examples.quoted "world!" ++ lit "}"] in
  let line := lit "{" ++ Examples.quoted "done" ++ lit ":true}" in
  snd (sniff Sniffing (trim event)) = false
  /\ sseLinesOf (linesOf (trim event)) = pre ++ line :: []
  /\ Forall (Answers p) pre
  /\ parseServerSentEvent p line = Normal (Some DONE)
  /\ processEvents Sniffing p (lit "Hello ") (event :: [lit "not read"])
     = ([OnDone (assistant (lit "Hello ")); Close], Returns).
Proof.
  intros p event pre line.
  assert (H1 : snd (sniff Sniffing (trim event)) = false) by (vm_compute; reflexivity).
  assert (H2 : sseLinesOf (linesOf (trim event)) = pre ++ line :: [])
    by (vm_compute; reflexivity).
  assert (H3 : Forall (Answers p) pre).
  { constructor; [|constructor]. exists (Some (lit "world!")). vm_compute. reflexivity. }
  assert (H4 : parseServerSentEvent p line = Normal (Some DONE))
    by (vm_compute; reflexivity).
  split; [exact H1|]. split; [exact H2|]. split; [exact H3|]. split; [exact H4|].
  exact (done_discards_frame_text Sniffing p (lit "Hello ") event
           [lit "not read"] pre [] line H1 H2 H3 H4).
Defined.

(** The server answers 500 to [OllamaPlugin]. *)
Lemma prepare_failure_closes_empty_stream_witness :
  let params :=
    {| userMessage := lit "Test user message"; systemMessage := None;
       plugin := OllamaPlugin Examples.refused; debug := DebugBool true |} in
  let error :=
    NewError (JSON.Str (lit "Ollama API error: Internal Server Error")) in
  prepareRequest (plugin params) = Throws error
  /\ exists i,
       createSSEStream Plain params = Normal i
       /\ beforeReturn i = [OnError error (assistant []); Close]
       /\ afterReturn i = []
       /\ outbound (beforeReturn i) = {| queue := []; state := Closed |}
       /\ fst (read (outbound (beforeReturn i))) = ReadDone
       /\ (forall m, ~ In (OnDone m) (trace i))
       /\ (forall m, ~ In (OnPartial m) (trace i)).
Proof.
  intros params error.
  assert (H : prepareRequest (plugin params) = Throws error) by reflexivity.
  split; [exact H|].
  exact (prepare_failure_closes_empty_stream Plain params error H).
Defined.

(** A plain-text plugin meets the line [[DONE]] in the text it passes on. *)
Lemma done_string_is_the_marker_witness :
  let p := Examples.echoPlugin (Examples.delivering []) in
  let text := lit "Hello" ++ [LF] ++ lit "[DONE]" in
  snd (sniff Sniffing (trim text)) = false
  /\ Forall (Answers p) (linesOf (trim text))
  /\ In (lit "[DONE]") (sseLinesOf (linesOf (trim text)))
  /\ parseServerSentEvent p (lit "[DONE]") = Normal (Some (lit "[DONE]"))
  /\ processEvent Sniffing p (lit "so far") text
     = ([OnDone (assistant (lit "so far")); Close], Returns)
  /\ handleLeftover Sniffing p (lit "so far") text
     = ([OnDone (assistant (lit "so far")); Close], Returns).
Proof.
  intros p text.
  assert (H1 : snd (sniff Sniffing (trim text)) = false) by (vm_compute; reflexivity).
  assert (H2 : Forall (Answers p) (linesOf (trim text))).
  { apply Forall_forall. intros l _. exists (Some l). reflexivity. }
  assert (H3 : In (lit "[DONE]") (sseLinesOf (linesOf (trim text)))).
  { vm_compute. right. left. reflexivity. }
  assert (H4 : parseServerSentEvent p (lit "[DONE]") = Normal (Some (lit "[DONE]")))
    by reflexivity.
  split; [exact H1|]. split; [exact H2|]. split; [exact H3|]. split; [exact H4|].
  exact (done_string_is_the_marker Sniffing p (lit "so far") text (lit "[DONE]")
           H1 H2 H3 H4).
Defined.

(** * Further properties *)

(** ** Framing loses nothing *)

Section Lossless.

Variables (d : codeunit) (sep' : jsstring).
Local Abbreviation sep := (d :: sep').

Lemma join_cons (piece : jsstring) (pieces : list jsstring) (r : jsstring) :
  pieces <> [] -> join (piece :: pieces) r = piece ++ r ++ join pieces r.
Proof. destruct pieces; [contradiction | reflexivity]. Qed.

(** What the pieces of a split spell when the separator is put back. *)
Lemma split_go_join (s : jsstring) : join (split_go sep 0 s) sep = s.
Proof.
  remember (List.length s) as n eqn:Hn.
  revert s Hn; induction n as [n IH] using lt_wf_ind; intros s Hn.
  destruct s as [|c s]; [reflexivity|].
  destruct (startsWith (c :: s) sep) eqn:E.
  - apply startsWith_spec in E as [u E]. rewrite E in *.
    rewrite split_go_match.
    rewrite length_app in Hn. simpl in Hn.
    specialize (IH (List.length u) ltac:(lia) u eq_refl).
    rewrite join_cons by apply split_go_nonempty. now rewrite IH.
  - rewrite split_go_miss by exact E.
    specialize (IH (List.length s) ltac:(simpl in Hn; lia) s eq_refl).
    destruct (split_go sep 0 s) as [|p0 [|p1 ps]] eqn:Es.
    + now apply split_go_nonempty in Es.
    + simpl in *. now rewrite IH.
    + rewrite join_cons by discriminate. rewrite join_cons in IH by discriminate.
      rewrite <- IH. reflexivity.
Qed.

(** The first piece is a prefix of the text, and the separator does not
    start inside it. *)
Lemma split_go_first (s piece : jsstring) (pieces : list jsstring) :
  split_go sep 0 s = piece :: pieces -> exists t, s = piece ++ t.
Proof.
  intros H. pose proof (split_go_join s) as J. rewrite H in J.
  destruct pieces as [|p1 ps].
  - exists []. simpl in J. now rewrite app_nil_r.
  - rewrite join_cons in J by discriminate. eexists. symmetry. exact J.
Qed.

(** No piece holds an occurrence of the separator. *)
Lemma split_go_clean (s : jsstring) :
  Forall (fun piece => includes piece sep = false) (split_go sep 0 s).
Proof.
  remember (List.length s) as n eqn:Hn.
  revert s Hn; induction n as [n IH] using lt_wf_ind; intros s Hn.
  destruct s as [|c s]; [repeat constructor|].
  destruct (startsWith (c :: s) sep) eqn:E.
  - apply startsWith_spec in E as [u E]. rewrite E in *.
    rewrite split_go_match. rewrite length_app in Hn. simpl in Hn.
    constructor; [reflexivity|]. apply (IH (List.length u)); [lia | reflexivity].
  - rewrite split_go_miss by exact E.
    specialize (IH (List.length s) ltac:(simpl in Hn; lia) s eq_refl).
    destruct (split_go sep 0 s) as [|p0 ps] eqn:Es;
      [now apply split_go_nonempty in Es|].
    inversion IH as [|? ? H0 Hps]; subst. constructor; [|exact Hps].
    cbn [includes]. rewrite H0, orb_false_r.
    destruct (startsWith (c :: p0) sep) eqn:E0; [|reflexivity].
    destruct (split_go_first _ _ _ Es) as [t ->].
    change (c :: p0 ++ t) with ((c :: p0) ++ t) in E.
    now rewrite (startsWith_longer _ t _ E0) in E.
Qed.

End Lossless.

Lemma join_units (s : jsstring) : join (map (fun c => [c]) s) [] = s.
Proof.
  induction s as [|c s IH]; [reflexivity|].
  destruct s as [|c' s]; [reflexivity|].
  change (map (fun c0 => [c0]) (c :: c' :: s))
    with ([c] :: map (fun c0 => [c0]) (c' :: s)).
  rewrite join_cons by discriminate. now rewrite IH.
Qed.

Lemma split_join (s sep : jsstring) : join (split s sep) sep = s.
Proof.
  destruct sep as [|d sep']; [apply join_units | apply split_go_join].
Qed.

Lemma Forall_removelast {A} (P : A -> Prop) (l : list A) :
  Forall P l -> Forall P (removelast l).
Proof.
  induction 1 as [|x l Hx Hl IH]; [constructor|].
  destruct l; [constructor|]. simpl. constructor; assumption.
Qed.

(** X1.  Lines 94-95 lose nothing: the frames handed to the loop and the
    piece kept in the buffer, with the delimiter put back between them,
    spell the text that was split. *)
Theorem frame_lossless (s sep : jsstring) :
  join (fst (frame s sep) ++ [snd (frame s sep)]) sep = s.
Proof.
  unfold frame. cbn [fst snd].
  destruct (split s sep) as [|piece pieces] eqn:E.
  - destruct sep as [|d sep']; [|now apply split_go_nonempty in E].
    destruct s; [reflexivity | discriminate].
  - rewrite <- app_removelast_last by discriminate.
    rewrite <- E. apply split_join.
Qed.

(** X2.  For a delimiter that is not empty, no frame handed to the loop
    holds an occurrence of the delimiter: a frame ends at the first
    delimiter after its start. *)
Theorem frames_hold_no_delimiter (s sep : jsstring) :
  sep <> [] ->
  Forall (fun event => includes event sep = false) (fst (frame s sep)).
Proof.
  intros H. destruct sep as [|d sep']; [contradiction|].
  unfold frame. cbn [fst split]. apply Forall_removelast, split_go_clean.
Qed.

(** ** The shape of a run *)

Section Shape.

Lemma Emits_ret {A} (rev : Revision) (proj : A -> jsstring) (a : A) :
  Emits rev proj (proj a) (ret a).
Proof.
  exists []. split; [constructor|]. simpl. now rewrite app_nil_r.
Qed.

Lemma Emits_bind {A B} (rev : Revision) (projA : A -> jsstring)
  (projB : B -> jsstring) (full : jsstring) (m : Block A) (k : A -> Block B) :
  Emits rev projA full m ->
  (forall a, Emits rev projB (projA a) (k a)) ->
  Emits rev projB full (bind m k).
Proof.
  intros [texts1 [F1 H1]] Hk. destruct m as [effs [a| |e found]]; simpl in H1.
  - destruct H1 as [-> Ha]. specialize (Hk a). rewrite Ha in Hk.
    destruct Hk as [texts2 [F2 H2]]. simpl.
    destruct (k a) as [effs2 c]. simpl in H2.
    exists (texts1 ++ texts2). split; [now apply Forall_app|].
    rewrite flat_map_app, concat_app. simpl.
    destruct c as [b| |e found]; simpl.
    + destruct H2 as [-> Hb]. split; [reflexivity|]. now rewrite app_assoc.
    + destruct H2 as [->|[Hr [msg ->]]].
      * left. now rewrite <- !app_assoc.
      * right. split; [exact Hr|]. exists msg. now rewrite <- !app_assoc.
    + destruct H2 as [-> Hb]. split; [reflexivity|]. now rewrite app_assoc.
  - exists texts1. split; assumption.
  - exists texts1. split; assumption.
Qed.

Variables (rev : Revision) (p : ProviderPlugin).

Lemma Emits_conclude (full : jsstring) (r : Lines) :
  Emits rev (fun x => x) full (conclude full r).
Proof.
  destruct r as [|eventText|e]; simpl.
  - exists []. split; [constructor|]. simpl. left. now rewrite app_nil_r.
  - destruct (truthy eventText) eqn:E; [|apply (Emits_ret rev (fun x => x))].
    exists [eventText]. split; [now repeat constructor|].
    simpl. now rewrite !app_nil_r.
  - exists []. split; [constructor|]. simpl. now rewrite app_nil_r.
Qed.

Lemma Emits_sniffed (full trimmed : jsstring) (effs : list Effect) :
  sniff rev trimmed = (effs, true) ->
  Emits rev (fun x : jsstring => x) full (effs, Returns).
Proof.
  intros E. destruct rev; [discriminate|].
  destruct (sniff_cases Sniffing trimmed) as [E'|[msg E']];
    rewrite E' in E; [discriminate|].
  injection E as <-. exists []. split; [constructor|]. simpl.
  right. split; [reflexivity|]. now exists msg.
Qed.

Lemma Emits_processEvent (full event : jsstring) :
  Emits rev (fun x => x) full (processEvent rev p full event).
Proof.
  unfold processEvent. destruct (negb _); [apply (Emits_ret rev (fun x => x))|].
  destruct (sniff rev (trim event)) as [effs [|]] eqn:E.
  - now apply (Emits_sniffed full (trim event)).
  - apply Emits_conclude.
Qed.

Lemma Emits_processEvents (full : jsstring) (events : list jsstring) :
  Emits rev (fun x => x) full (processEvents rev p full events).
Proof.
  revert full; induction events as [|event events IH]; intros full.
  - apply (Emits_ret rev (fun x => x)).
  - apply (Emits_bind rev (fun x => x)); [apply Emits_processEvent | apply IH].
Qed.

Lemma Emits_onChunk (st : EngineState) (value : list byte) :
  Emits rev fullResponse (fullResponse st) (onChunk rev p st value).
Proof.
  unfold onChunk. destruct (decode _ _) as [dec chunk].
  destruct (frame _ _) as [events rest].
  apply (Emits_bind rev (fun x => x)); [apply Emits_processEvents|].
  intros full.
  apply (Emits_ret rev fullResponse
           {| fullResponse := full; buffer := rest; textDecoder := dec |}).
Qed.

Lemma Emits_readLoop (st : EngineState) (input : list (list byte)) (fin : Ending) :
  Emits rev fullResponse (fullResponse st) (readLoop rev p st input fin).
Proof.
  revert st; induction input as [|value input IH]; intros st.
  - destruct fin; [apply Emits_ret|].
    exists []. split; [constructor|]. simpl. now rewrite app_nil_r.
  - apply (Emits_bind rev fullResponse); [apply Emits_onChunk | apply IH].
Qed.

Lemma Emits_handleLeftover (full buf : jsstring) :
  Emits rev (fun x => x) full (handleLeftover rev p full buf).
Proof.
  unfold handleLeftover. destruct (truthy _); [|apply (Emits_ret rev (fun x => x))].
  destruct (sniff rev (trim buf)) as [effs [|]] eqn:E.
  - now apply (Emits_sniffed full (trim buf)).
  - apply Emits_conclude.
Qed.

(** The body of the [try] block before the last [onDone]. *)
Lemma Emits_body (r : Reader) :
  Emits rev (fun x => x) []
    (st <- readLoop rev p initialState (chunks r) (ending r) ;;
     handleLeftover rev p (fullResponse st) (buffer st)).
Proof.
  apply (Emits_bind rev fullResponse); [apply (Emits_readLoop initialState)|].
  intros st. apply Emits_handleLeftover.
Qed.

(** Every run of [start] emits texts, none of them empty, and then ends in
    one of the three ways; the plain revision knows no payload. *)
Lemma start_rendered (r : Reader) :
  exists texts o,
    start rev p r = rendered texts o
    /\ Forall (fun t => truthy t = true) texts
    /\ (rev = Plain -> forall errorMsg, o <> Payload errorMsg).
Proof.
  unfold start, tryBlock. rewrite <- bind_assoc.
  destruct (Emits_body r) as [texts [F H]].
  set (m := bind (readLoop rev p initialState (chunks r) (ending r)) _) in *.
  destruct m as [effs [full| |e found]]; simpl in H |- *.
  - destruct H as [-> ->]. exists texts, Completed.
    split; [reflexivity|]. split; [exact F | discriminate].
  - destruct H as [->|[Hr [msg ->]]].
    + exists texts, Completed.
      split; [reflexivity|]. split; [exact F | discriminate].
    + exists texts, (Payload msg).
      split; [reflexivity|]. split; [exact F|].
      intros Hp. rewrite Hp in Hr. discriminate.
  - destruct H as [-> ->]. exists texts, (Failed e).
    split; [reflexivity|]. split; [exact F | discriminate].
Qed.

End Shape.

Lemma partials_emissions (texts : list jsstring) :
  partials (flat_map emission texts) = texts.
Proof. induction texts as [|t texts IH]; simpl; [reflexivity | now rewrite IH]. Qed.

Lemma announcements_quiet (params : SSEEngineParams) :
  partials (announcements params) = [].
Proof.
  unfold announcements.
  destruct (systemMessage params) as [text|]; [destruct (truthy text)|]; reflexivity.
Qed.


(** ** The outbound stream at the end of a run *)

Lemma outbound_emissions (texts : list jsstring) (q : list (list byte)) :
  fold_left control (flat_map emission texts) {| queue := q; state := Readable |}
  = {| queue := q ++ map encode texts; state := Readable |}.
Proof.
  revert q; induction texts as [|t texts IH]; intros q; simpl.
  - now rewrite app_nil_r.
  - unfold control at 2 3. simpl. rewrite IH. now rewrite <- app_assoc.
Qed.

Lemma outbound_rendered (texts : list jsstring) (o : Outcome) :
  outbound (rendered texts o)
  = match o with
    | Completed => {| queue := map encode texts; state := Closed |}
    | Failed e => {| queue := []; state := Errored e |}
    | Payload errorMsg => {| queue := []; state := Errored (NewError errorMsg) |}
    end.
Proof.
  unfold outbound, rendered, newStream.
  rewrite fold_left_app, outbound_emissions. destruct o; reflexivity.
Qed.

Lemma partials_rendered (texts : list jsstring) (o : Outcome) :
  partials (rendered texts o) = texts.
Proof.
  unfold rendered. rewrite partials_app, partials_emissions.
  destruct o; simpl; apply app_nil_r.
Qed.

(** X4.  A run never leaves the outbound stream open.  Either [onDone] was
    called, and the stream is closed and still holds, for its consumer, the
    bytes of every text reported by [onPartial], in order; or [onError] was
    called with an error, and the stream is in error with that error and
    holds nothing: what was written and not yet read is gone. *)
Theorem outbound_stream_is_settled (rev : Revision) (p : ProviderPlugin) (r : Reader) :
  (exists m,
     In (OnDone m) (start rev p r)
     /\ outbound (start rev p r)
        = {| queue := map encode (partials (start rev p r)); state := Closed |})
  \/ (exists e m,
        In (OnError e m) (start rev p r)
        /\ outbound (start rev p r) = {| queue := []; state := Errored e |}).
Proof.
  destruct (start_rendered rev p r) as [texts [o [E _]]]. rewrite E.
  rewrite outbound_rendered, partials_rendered.
  destruct o as [|e|msg]; [left|right|right].
  - eexists. split; [|reflexivity]. unfold rendered. apply in_or_app. right.
    left. reflexivity.
  - exists e. eexists. split; [|reflexivity]. unfold rendered.
    apply in_or_app. right. right. left. reflexivity.
  - exists (NewError msg). eexists. split; [|reflexivity]. unfold rendered.
    apply in_or_app. right. left. reflexivity.
Qed.

(** ** Runs without failure *)

Section Calm.

Variables (rev : Revision) (p : ProviderPlugin).
Hypothesis answers : forall l, Answers p l.

Lemma Calm_bind {A B} (m : Block A) (k : A -> Block B) :
  Calm m -> (forall a, Calm (k a)) -> Calm (bind m k).
Proof.
  unfold Calm. destruct m as [effs [a| |e f]]; simpl; intros Hm Hk; auto.
  specialize (Hk a). now destruct (k a).
Qed.

Lemma eventLoop_answers (lines : list jsstring) (text : jsstring) (e : jserror) :
  eventLoop p lines text <> ParserThrew e.
Proof.
  revert text; induction lines as [|line lines IH]; intros text; simpl;
    [discriminate|].
  destruct (answers line) as [r ->]. destruct r as [parsed|]; [|apply IH].
  destruct (JS.eqb parsed DONE); [discriminate|].
  destruct (truthy parsed); apply IH.
Qed.

Lemma Calm_conclude (full : jsstring) (lines : list jsstring) :
  Calm (conclude full (eventLoop p lines [])).
Proof.
  pose proof (eventLoop_answers lines []) as H.
  destruct (eventLoop p lines []) as [|t|e]; simpl.
  - exact I.
  - now destruct (truthy t).
  - now apply (H e).
Qed.

Lemma Calm_processEvent (full event : jsstring) :
  Calm (processEvent rev p full event).
Proof.
  unfold processEvent. destruct (negb _); [exact I|].
  destruct (sniff rev (trim event)) as [effs [|]]; [exact I|].
  apply Calm_conclude.
Qed.

Lemma Calm_processEvents (full : jsstring) (events : list jsstring) :
  Calm (processEvents rev p full events).
Proof.
  revert full; induction events as [|event events IH]; intros full; [exact I|].
  apply Calm_bind; [apply Calm_processEvent | apply IH].
Qed.

Lemma Calm_readLoop (st : EngineState) (input : list (list byte)) :
  Calm (readLoop rev p st input EndOfInput).
Proof.
  revert st; induction input as [|value input IH]; intros st; [exact I|].
  apply Calm_bind; [|apply IH].
  unfold onChunk. destruct (decode _ _) as [dec chunk].
  destruct (frame _ _) as [events rest].
  apply Calm_bind; [apply Calm_processEvents | intros; exact I].
Qed.

Lemma Calm_body (input : list (list byte)) :
  Calm (st <- readLoop rev p initialState input EndOfInput ;;
        handleLeftover rev p (fullResponse st) (buffer st)).
Proof.
  apply Calm_bind; [apply Calm_readLoop|]. intros st.
  unfold handleLeftover. destruct (truthy _); [|exact I].
  destruct (sniff rev (trim (buffer st))) as [effs [|]]; [exact I|].
  rewrite leftoverLoop_eventLoop. apply Calm_conclude.
Qed.

Lemma calm_start (input : list (list byte)) :
  exists texts,
    Forall (fun t => truthy t = true) texts
    /\ (start rev p {| chunks := input; ending := EndOfInput |}
        = rendered texts Completed
        \/ (rev = Sniffing
            /\ exists errorMsg,
                 start rev p {| chunks := input; ending := EndOfInput |}
                 = rendered texts (Payload errorMsg))).
Proof.
  unfold start, tryBlock. rewrite <- bind_assoc. cbn [chunks ending].
  pose proof (Calm_body input) as C.
  destruct (Emits_body rev p {| chunks := input; ending := EndOfInput |})
    as [texts [F H]]. cbn [chunks ending] in H.
  set (m := bind (readLoop rev p initialState input EndOfInput) _) in *.
  exists texts. split; [exact F|].
  destruct m as [effs [full| |e found]]; simpl in H, C |- *.
  - destruct H as [-> ->]. now left.
  - destruct H as [->|[Hr [msg ->]]]; [now left|].
    right. split; [exact Hr|]. now exists msg.
  - contradiction.
Qed.

End Calm.

(** X5.  With a parser that never throws and a reader that delivers its
    chunks and ends, the plain revision never calls [onError] and never puts
    the stream in error: the run is the texts, one after the other, then
    [onDone] with their concatenation and the closing of the stream. *)
Theorem no_failure_no_error (p : ProviderPlugin) (input : list (list byte)) :
  (forall l, Answers p l) ->
  exists texts,
    start Plain p {| chunks := input; ending := EndOfInput |}
    = rendered texts Completed
    /\ Forall (fun t => truthy t = true) texts
    /\ (forall e m, ~ In (OnError e m)
                      (start Plain p {| chunks := input; ending := EndOfInput |}))
    /\ (forall e, ~ In (ControllerError e)
                    (start Plain p {| chunks := input; ending := EndOfInput |})).
Proof.
  intros A. destruct (calm_start Plain p A input) as [texts [F [E|[E _]]]];
    [|discriminate].
  exists texts. rewrite E. split; [reflexivity|]. split; [exact F|].
  assert (H : forall x, In x (rendered texts Completed) ->
                        match x with
                        | OnError _ _ | ControllerError _ => False
                        | _ => True
                        end).
  { intros x Hx. unfold rendered in Hx. apply in_app_or in Hx as [Hx|Hx].
    - apply in_flat_map in Hx as [t [_ [<-|[<-|[]]]]]; exact I.
    - destruct Hx as [<-|[<-|[]]]; exact I. }
  split; intros; intros Hin; exact (H _ Hin).
Qed.

(** ** The aggregate only grows *)

(** X6.  [fullResponse] is only ever extended: after any number of turns of
    the read loop it is what it was, followed by the texts reported by
    [onPartial] during those turns; and when an exception ends the loop, that
    is the text the [catch] clause finds. *)
Theorem fullResponse_only_grows (rev : Revision) (p : ProviderPlugin)
  (st : EngineState) (input : list (list byte)) (fin : Ending) :
  match snd (readLoop rev p st input fin) with
  | Goes st' =>
      fullResponse st'
      = fullResponse st ++ List.concat (partials (fst (readLoop rev p st input fin)))
  | Raises _ found =>
      found
      = fullResponse st ++ List.concat (partials (fst (readLoop rev p st input fin)))
  | Returns => True
  end.
Proof.
  pose proof (Accounts_readLoop rev p st input fin) as [_ H].
  destruct (readLoop rev p st input fin) as [effs [st'| |e found]]; exact H.
Qed.

(** ** What a frame yields *)

Section Frames.

Variables (rev : Revision) (p : ProviderPlugin).

Lemma sseLinesOf_skipped (lines : list jsstring) :
  forallb skipped lines = true -> sseLinesOf lines = [].
Proof.
  unfold sseLinesOf, skipped. induction lines as [|ln lines IH]; [reflexivity|].
  simpl. intros H. apply andb_true_iff in H as [H1 H2].
  destruct (truthy ln); simpl in *; [rewrite H1; simpl|]; now apply IH.
Qed.

Lemma leftoverLoop_comments (lines : list jsstring) (text : jsstring) :
  forallb (fun ln => startsWith ln (lit ":")) lines = true ->
  leftoverLoop p lines text = Text text.
Proof.
  induction lines as [|ln lines IH]; [reflexivity|].
  cbn [forallb leftoverLoop]. intros H. apply andb_true_iff in H as [H1 H2].
  rewrite H1. now apply IH.
Qed.

(** The text of a frame whose lines the parser answers, none with the
    completion marker. *)
Lemma eventLoop_text (lines : list jsstring) (text : jsstring) :
  Forall (AnswersText p) lines ->
  eventLoop p lines text = Text (text ++ List.concat (map (yield p) lines)).
Proof.
  intros H. revert text.
  induction H as [|line lines [r [Hr Hd]] _ IH]; intros text; simpl.
  - now rewrite app_nil_r.
  - unfold yield at 1. rewrite Hr. destruct r as [parsed|].
    + destruct (JS.eqb parsed DONE) eqn:E.
      { apply eqb_eq in E. subst. contradiction. }
      destruct (truthy parsed) eqn:T.
      * rewrite IH. now rewrite app_assoc.
      * destruct parsed; [|discriminate]. apply IH.
    + apply IH.
Qed.

End Frames.

(** X7.  A frame whose lines are all empty or comments (they start with a
    colon) has no effect and its lines are not shown to the parser: whatever
    the plugin, nothing is called and [fullResponse] stays as it is.  So has
    a leftover whose lines are all comments. *)
Theorem skipped_lines_reach_nobody (rev : Revision) (p : ProviderPlugin)
  (full text : jsstring) :
  snd (sniff rev (trim text)) = false ->
  forallb skipped (linesOf (trim text)) = true ->
  processEvent rev p full text = ret full
  /\ (forallb (fun ln => startsWith ln (lit ":")) (linesOf (trim text)) = true ->
      handleLeftover rev p full text = ret full).
Proof.
  intros Hs Hk. unfold processEvent, handleLeftover.
  rewrite (sniff_quiet _ _ Hs), (sseLinesOf_skipped _ Hk).
  split.
  - destruct (negb (truthy (trim text))); reflexivity.
  - intros Hc. rewrite (leftoverLoop_comments p _ [] Hc).
    destruct (truthy (trim text)); reflexivity.
Qed.

(** X8.  A frame that the sniffer lets through, and on whose lines the
    parser answers without the completion marker, yields one text: what the
    parser returned for its lines that are neither empty nor comments, in
    order, [null] counting for nothing.  If that text is empty nothing
    happens; otherwise it is written, reported once, and appended to
    [fullResponse]. *)
Theorem frame_text_is_concatenation (rev : Revision) (p : ProviderPlugin)
  (full event : jsstring) :
  snd (sniff rev (trim event)) = false ->
  Forall (AnswersText p) (sseLinesOf (linesOf (trim event))) ->
  processEvent rev p full event
  = let text := List.concat (map (yield p) (sseLinesOf (linesOf (trim event)))) in
    if truthy text then (emission text, Goes (full ++ text)) else ret full.
Proof.
  intros Hs Ha. unfold processEvent. rewrite (sniff_quiet _ _ Hs).
  destruct (trim event) as [|c t] eqn:Et.
  - reflexivity.
  - cbn [truthy negb]. rewrite (eventLoop_text p _ [] Ha). reflexivity.
Qed.

(** ** The two revisions *)

Lemma processEvents_quiet (p : ProviderPlugin) (full : jsstring) (events : list jsstring) :
  Forall (fun event => snd (handlePossibleErrorJSON (trim event)) = false) events ->
  processEvents Sniffing p full events = processEvents Plain p full events.
Proof.
  intros H. revert full.
  induction H as [|event events Hq _ IH]; intros full; [reflexivity|].
  cbn [processEvents].
  assert (E : processEvent Sniffing p full event = processEvent Plain p full event).
  { unfold processEvent. now rewrite (sniff_quiet Sniffing _ Hq). }
  rewrite E.
  destruct (processEvent Plain p full event) as [effs [full'| |e f]];
    try reflexivity.
  simpl. now rewrite IH.
Qed.

(** X9.  The revision with the sniffer does what [streaming-engine.ts] does
    on every stream in which the sniffer flags nothing: neither a frame of
    the text the bytes decode to, nor what is left of it. *)
Theorem revisions_agree_on_quiet_streams (p : ProviderPlugin)
  (input : list (list byte)) (fin : Ending) :
  let text := snd (decode newTextDecoder (List.concat input)) in
  Forall (fun event => snd (handlePossibleErrorJSON (trim event)) = false)
         (fst (frame text (delimiterOf p))) ->
  snd (handlePossibleErrorJSON (trim (snd (frame text (delimiterOf p))))) = false ->
  start Sniffing p {| chunks := input; ending := fin |}
  = start Plain p {| chunks := input; ending := fin |}.
Proof.
  intros text Hf Hr. unfold start, tryBlock. cbn [chunks ending].
  rewrite !(readLoop_single _ _ input).
  cbn [readLoop]. unfold onChunk. cbn [textDecoder buffer fullResponse initialState app].
  fold text. destruct (decode newTextDecoder (List.concat input)) as [dec chunk].
  subst text. cbn [snd] in *.
  destruct (frame chunk (delimiterOf p)) as [events rest]. cbn [fst snd] in *.
  rewrite (processEvents_quiet p [] events Hf).
  destruct (processEvents Plain p [] events) as [effs [full| |e f]];
    try reflexivity.
  cbn [bind ret app fullResponse buffer].
  destruct fin; cbn [bind ret app fullResponse buffer]; [|reflexivity].
  assert (E : handleLeftover Sniffing p full rest = handleLeftover Plain p full rest).
  { unfold handleLeftover. now rewrite (sniff_quiet Sniffing _ Hr). }
  now rewrite E.
Qed.

(** ** ASCII through the encoder and the decoder *)

Section Ascii.

Lemma byteOf_to_N (c : N) : (c < 256)%N -> Byte.to_N (byteOf c) = c.
Proof.
  intros H. unfold byteOf. destruct (Byte.of_N c) as [b|] eqn:E.
  - now apply Byte.to_of_N.
  - apply Byte.of_N_None_iff in E. lia.
Qed.

Lemma scalars_ascii (s : jsstring) :
  forallb isAscii s = true -> scalars s = s.
Proof.
  induction s as [|c s IH]; [reflexivity|].
  cbn [forallb]. intros H. apply andb_true_iff in H as [Hc Hs].
  unfold isAscii in Hc. apply N.ltb_lt in Hc.
  cbn [scalars]. unfold isHigh, isLow.
  destruct (N.leb_spec 55296 c); [lia|]. cbn [andb].
  destruct (N.leb_spec 56320 c); [lia|]. cbn [andb].
  now rewrite IH.
Qed.

Lemma encode_ascii (s : jsstring) :
  forallb isAscii s = true -> encode s = map byteOf s.
Proof.
  intros H. unfold encode. rewrite (scalars_ascii s H).
  induction s as [|c s IH]; [reflexivity|].
  cbn [forallb] in H. apply andb_true_iff in H as [Hc Hs].
  unfold isAscii in Hc. cbn [flat_map map]. rewrite (IH Hs).
  unfold utf8Bytes. now rewrite Hc.
Qed.

Lemma decodeByte_ascii (t : TextDecoder) (c : codeunit) :
  isAscii c = true -> decoder t = utf8Initial ->
  decodeByte t (byteOf c) = ({| decoder := utf8Initial; bomSeen := true |}, [c]).
Proof.
  unfold isAscii. intros Hc Ht. apply N.ltb_lt in Hc.
  unfold decodeByte. rewrite Ht, byteOf_to_N by lia.
  unfold utf8Handler. cbn [bytesNeeded utf8Initial N.eqb].
  unfold leadByte. destruct (N.leb_spec c 127); [|lia].
  cbn [serialize]. unfold utf16.
  destruct (N.eqb_spec c 65279); [lia|]. rewrite andb_false_r.
  destruct (N.ltb_spec c 65536); [|lia]. reflexivity.
Qed.

Lemma decode_ascii (t : TextDecoder) (s : jsstring) :
  forallb isAscii s = true -> decoder t = utf8Initial ->
  decode t (map byteOf s)
  = ({| decoder := utf8Initial; bomSeen := bomSeen t || truthy s |}, s).
Proof.
  revert t; induction s as [|c s IH]; intros t H Ht.
  - simpl. rewrite orb_false_r. destruct t. simpl in Ht. now subst.
  - cbn [forallb] in H. apply andb_true_iff in H as [Hc Hs].
    cbn [map decode]. rewrite (decodeByte_ascii t c Hc Ht).
    rewrite (IH {| decoder := utf8Initial; bomSeen := true |} Hs eq_refl).
    cbn [bomSeen truthy]. now rewrite orb_true_r.
Qed.

(** The decoder of a new instance reads back what the encoder wrote. *)
Lemma decode_encode_ascii (s : jsstring) :
  forallb isAscii s = true ->
  snd (decode newTextDecoder (encode s)) = s.
Proof.
  intros H. rewrite (encode_ascii s H), (decode_ascii newTextDecoder s H eq_refl).
  reflexivity.
Qed.

End Ascii.

(** ** The lines of Ollama *)

Section OllamaLines.

Lemma plainChar_facts (c : codeunit) :
  plainChar c = true ->
  (32 <= c)%N /\ (c < 127)%N /\ c <> 34%N /\ c <> 92%N.
Proof.
  unfold plainChar. intros H.
  apply andb_true_iff in H as [H H4]. apply andb_true_iff in H as [H H3].
  apply andb_true_iff in H as [H1 H2].
  apply N.leb_le in H1. apply N.ltb_lt in H2.
  apply negb_true_iff, N.eqb_neq in H3. apply negb_true_iff, N.eqb_neq in H4.
  auto.
Qed.

(** A plain text is a JSON string as it stands. *)
Lemma parseString_plain (t r : jsstring) :
  plainText t = true -> JSON.parseString (t ++ QUOTE :: r) = Some (t, r).
Proof.
  unfold plainText. induction t as [|c t IH]; intros H; [reflexivity|].
  cbn [forallb] in H. apply andb_true_iff in H as [Hc Ht].
  apply plainChar_facts in Hc as [H1 [H2 [H3 H4]]].
  cbn [app JSON.parseString].
  destruct (N.eqb_spec c 34); [contradiction|].
  destruct (N.eqb_spec c 92); [contradiction|].
  destruct (N.ltb_spec c 32); [lia|].
  now rewrite (IH Ht).
Qed.

Lemma plainText_ascii (t : jsstring) :
  plainText t = true -> forallb isAscii t = true.
Proof.
  unfold plainText. induction t as [|c t IH]; [reflexivity|].
  cbn [forallb]. intros H. apply andb_true_iff in H as [Hc Ht].
  rewrite (IH Ht), andb_true_r. apply plainChar_facts in Hc.
  unfold isAscii. apply N.ltb_lt. lia.
Qed.

(** No line feed in the text. *)
Lemma plainText_oneLine (t : jsstring) :
  plainText t = true -> oneLine t = true.
Proof.
  unfold plainText, oneLine. induction t as [|c t IH]; [reflexivity|].
  cbn [forallb]. intros H. apply andb_true_iff in H as [Hc Ht].
  rewrite (IH Ht), andb_true_r. apply plainChar_facts in Hc.
  apply negb_true_iff, N.eqb_neq. unfold LF. lia.
Qed.

Lemma split_go_line (line rest : jsstring) :
  oneLine line = true ->
  split_go [LF] 0 (line ++ LF :: rest) = line :: split_go [LF] 0 rest.
Proof.
  unfold oneLine. induction line as [|c line IH]; intros H.
  - exact (split_go_match LF [] rest).
  - cbn [forallb] in H. apply andb_true_iff in H as [Hc Hl].
    apply negb_true_iff in Hc.
    change ((c :: line) ++ LF :: rest) with (c :: (line ++ LF :: rest)).
    rewrite split_go_miss by (simpl; now rewrite Hc).
    now rewrite (IH Hl).
Qed.

Lemma split_go_oneLine (line : jsstring) :
  oneLine line = true -> split_go [LF] 0 line = [line].
Proof.
  unfold oneLine. induction line as [|c line IH]; intros H; [reflexivity|].
  cbn [forallb] in H. apply andb_true_iff in H as [Hc Hl].
  apply negb_true_iff in Hc.
  rewrite split_go_miss by (simpl; now rewrite Hc).
  now rewrite (IH Hl).
Qed.

(** A text between two code units that are not white space is trimmed. *)
Lemma trim_bracketed (c e : codeunit) (s : jsstring) :
  isWhiteSpace c = false -> isWhiteSpace e = false ->
  trim (c :: s ++ [e]) = c :: s ++ [e].
Proof.
  intros Hc He. unfold trim. rewrite trimStart_fixed by exact Hc.
  unfold trimEnd. change (c :: s ++ [e]) with ((c :: s) ++ [e]).
  rewrite rev_app_distr. cbn [rev app].
  rewrite trimStart_fixed by exact He.
  change (e :: rev s ++ [c]) with ([e] ++ (rev s ++ [c])).
  rewrite rev_app_distr, rev_app_distr, rev_involutive. reflexivity.
Qed.

Lemma oneLine_app (a b : jsstring) :
  oneLine (a ++ b) = oneLine a && oneLine b.
Proof. apply forallb_app. Qed.


Variables model createdAt : jsstring.
Hypothesis plain_model : plainText model = true.
Hypothesis plain_createdAt : plainText createdAt = true.

Local Ltac flatten :=
  repeat (rewrite <- ?app_assoc, <- ?app_comm_cons; cbn [app]).

Lemma replyLine_shape (t : jsstring) :
  replyLine model createdAt t
  = 123%N :: (field "model" (jsonString model)
                ++ lit "," ++ field "createdAt" (jsonString createdAt)
                ++ lit "," ++ field "response" (jsonString t)
                ++ lit "," ++ field "done" (lit "false")) ++ [125%N].
Proof.
  unfold replyLine, field, jsonString. cbn [lit list_ascii_of_string map].
  flatten. reflexivity.
Qed.

Lemma lastLine_shape :
  lastLine model createdAt
  = 123%N :: (field "model" (jsonString model)
                ++ lit "," ++ field "createdAt" (jsonString createdAt)
                ++ lit "," ++ field "response" (jsonString [])
                ++ lit "," ++ field "done" (lit "true")) ++ [125%N].
Proof.
  unfold lastLine, field, jsonString. cbn [lit list_ascii_of_string map].
  flatten. reflexivity.
Qed.

Lemma trim_replyLine (t : jsstring) :
  trim (replyLine model createdAt t) = replyLine model createdAt t.
Proof. rewrite replyLine_shape. now apply trim_bracketed. Qed.

Lemma trim_lastLine :
  trim (lastLine model createdAt) = lastLine model createdAt.
Proof. rewrite lastLine_shape. now apply trim_bracketed. Qed.

Lemma oneLine_jsonString (t : jsstring) :
  plainText t = true -> oneLine (jsonString t) = true.
Proof.
  intros H. unfold jsonString.
  change (QUOTE :: t ++ [QUOTE]) with ([QUOTE] ++ t ++ [QUOTE]).
  rewrite !oneLine_app, (plainText_oneLine t H). reflexivity.
Qed.

Lemma oneLine_replyLine (t : jsstring) :
  plainText t = true -> oneLine (replyLine model createdAt t) = true.
Proof.
  intros H. unfold replyLine, field.
  rewrite !oneLine_app, !oneLine_jsonString by (assumption || reflexivity).
  reflexivity.
Qed.

Lemma oneLine_lastLine : oneLine (lastLine model createdAt) = true.
Proof.
  unfold lastLine, field.
  rewrite !oneLine_app, !oneLine_jsonString by (assumption || reflexivity).
  reflexivity.
Qed.

Lemma isAscii_jsonString (t : jsstring) :
  plainText t = true -> forallb isAscii (jsonString t) = true.
Proof.
  intros H. unfold jsonString.
  change (QUOTE :: t ++ [QUOTE]) with ([QUOTE] ++ t ++ [QUOTE]).
  rewrite !forallb_app, (plainText_ascii t H). reflexivity.
Qed.

Lemma isAscii_replyLine (t : jsstring) :
  plainText t = true ->
  forallb isAscii (replyLine model createdAt t ++ [LF]) = true.
Proof.
  intros H. unfold replyLine, field.
  rewrite !forallb_app, !isAscii_jsonString by (assumption || reflexivity).
  reflexivity.
Qed.

Lemma isAscii_lastLine :
  forallb isAscii (lastLine model createdAt ++ [LF]) = true.
Proof.
  unfold lastLine, field.
  rewrite !forallb_app, !isAscii_jsonString by (assumption || reflexivity).
  reflexivity.
Qed.

(** [JSON.parse] reads a line as the object it denotes. *)
Lemma parse_replyLine (t : jsstring) :
  plainText t = true ->
  JSON.parse (replyLine model createdAt t)
  = Some (JSON.Obj [(lit "model", JSON.Str model);
                    (lit "createdAt", JSON.Str createdAt);
                    (lit "response", JSON.Str t);
                    (lit "done", JSON.Bool false)]).
Proof.
  intros H. unfold JSON.parse.
  remember (2 * List.length (replyLine model createdAt t) + 2) as fuel eqn:Hf.
  assert (E : exists f, fuel = 8 + f).
  { exists (fuel - 8). rewrite Hf, replyLine_shape. simpl List.length. lia. }
  destruct E as [f ->]. clear Hf.
  unfold replyLine, field, jsonString. cbn [lit list_ascii_of_string map].
  flatten. simpl.
  rewrite (parseString_plain model _ plain_model). simpl.
  rewrite (parseString_plain createdAt _ plain_createdAt). simpl.
  rewrite (parseString_plain t _ H). reflexivity.
Qed.

Lemma parse_lastLine :
  JSON.parse (lastLine model createdAt)
  = Some (JSON.Obj [(lit "model", JSON.Str model);
                    (lit "createdAt", JSON.Str createdAt);
                    (lit "response", JSON.Str []);
                    (lit "done", JSON.Bool true)]).
Proof.
  unfold JSON.parse.
  remember (2 * List.length (lastLine model createdAt) + 2) as fuel eqn:Hf.
  assert (E : exists f, fuel = 8 + f).
  { exists (fuel - 8). rewrite Hf, lastLine_shape. simpl List.length. lia. }
  destruct E as [f ->]. clear Hf.
  unfold lastLine, field, jsonString. cbn [lit list_ascii_of_string map].
  flatten. simpl.
  rewrite (parseString_plain model _ plain_model). simpl.
  rewrite (parseString_plain createdAt _ plain_createdAt). reflexivity.
Qed.

End OllamaLines.

(** ** A stream of Ollama, end to end *)

Section OllamaStream.

Variable fetched : Completion Response.
Variables model createdAt : jsstring.
Hypothesis plain_model : plainText model = true.
Hypothesis plain_createdAt : plainText createdAt = true.

Local Abbreviation ollama := (OllamaPlugin fetched).
Local Abbreviation reply := (replyLine model createdAt).
Local Abbreviation final := (lastLine model createdAt).

Lemma Ollama_replyLine (t : jsstring) :
  plainText t = true -> parseServerSentEvent ollama (reply t) = Normal (Some t).
Proof.
  intros H. cbn [parseServerSentEvent OllamaPlugin].
  rewrite trim_replyLine.
  rewrite (parse_replyLine model createdAt plain_model plain_createdAt t H).
  reflexivity.
Qed.

Lemma Ollama_lastLine : parseServerSentEvent ollama final = Normal (Some DONE).
Proof.
  cbn [parseServerSentEvent OllamaPlugin].
  rewrite trim_lastLine.
  rewrite (parse_lastLine model createdAt plain_model plain_createdAt).
  reflexivity.
Qed.

Lemma sniff_replyLine (rev : Revision) (t : jsstring) :
  plainText t = true -> sniff rev (reply t) = ([], false).
Proof.
  intros H. destruct rev; [reflexivity|].
  cbn [sniff]. unfold handlePossibleErrorJSON. rewrite trim_replyLine.
  assert (Es : stripDataPrefix (reply t) = reply t)
    by (rewrite replyLine_shape; reflexivity).
  rewrite Es, (parse_replyLine model createdAt plain_model plain_createdAt t H).
  rewrite replyLine_shape. reflexivity.
Qed.

Lemma sniff_lastLine (rev : Revision) : sniff rev final = ([], false).
Proof.
  destruct rev; [reflexivity|].
  cbn [sniff]. unfold handlePossibleErrorJSON. rewrite trim_lastLine.
  assert (Es : stripDataPrefix final = final)
    by (rewrite lastLine_shape; reflexivity).
  rewrite Es, (parse_lastLine model createdAt plain_model plain_createdAt).
  rewrite lastLine_shape. reflexivity.
Qed.

(** The frame of a text: one emission, none for the empty text. *)
Lemma processEvent_replyLine (rev : Revision) (full t : jsstring) :
  sayable t = true ->
  processEvent rev ollama full (reply t)
  = (if truthy t then emission t else [], Goes (full ++ t)).
Proof.
  intros Hs. unfold sayable in Hs.
  apply andb_true_iff in Hs as [Hp Hd]. apply negb_true_iff in Hd.
  unfold processEvent.
  rewrite trim_replyLine, (sniff_replyLine rev t Hp).
  assert (Hl : sseLinesOf (linesOf (reply t)) = [reply t]).
  { unfold linesOf, split. cbn [LF].
    rewrite (split_go_oneLine _ (oneLine_replyLine model createdAt
                                   plain_model plain_createdAt t Hp)).
    cbn [map]. rewrite trim_replyLine. unfold sseLinesOf. cbn [filter].
    rewrite replyLine_shape. reflexivity. }
  rewrite Hl. rewrite replyLine_shape at 1. cbn [truthy negb].
  cbn [eventLoop]. rewrite (Ollama_replyLine t Hp), Hd.
  destruct t as [|c t]; cbn [truthy app conclude]; [|reflexivity].
  now rewrite app_nil_r.
Qed.

Lemma processEvent_lastLine (rev : Revision) (full : jsstring) :
  processEvent rev ollama full final
  = ([OnDone (assistant full); Close], Returns).
Proof.
  unfold processEvent.
  rewrite trim_lastLine, (sniff_lastLine rev).
  assert (Hl : sseLinesOf (linesOf final) = [final]).
  { unfold linesOf, split. cbn [LF].
    rewrite (split_go_oneLine _ (oneLine_lastLine model createdAt
                                   plain_model plain_createdAt)).
    cbn [map]. rewrite trim_lastLine. unfold sseLinesOf. cbn [filter].
    rewrite lastLine_shape. reflexivity. }
  rewrite Hl. rewrite lastLine_shape at 1. cbn [truthy negb].
  cbn [eventLoop]. rewrite Ollama_lastLine. reflexivity.
Qed.

Lemma processEvents_replies (rev : Revision) (full : jsstring)
  (texts : list jsstring) (more : list jsstring) :
  forallb sayable texts = true ->
  processEvents rev ollama full (map reply texts ++ final :: more)
  = (flat_map emission (filter truthy texts)
       ++ [OnDone (assistant (full ++ List.concat texts)); Close], Returns).
Proof.
  revert full; induction texts as [|t texts IH]; intros full H.
  - cbn [map app processEvents]. rewrite processEvent_lastLine.
    simpl. now rewrite app_nil_r.
  - cbn [forallb] in H. apply andb_true_iff in H as [Ht H].
    cbn [map app processEvents].
    rewrite (processEvent_replyLine rev full t Ht).
    cbn [bind]. rewrite (IH (full ++ t) H).
    cbn [filter List.concat]. rewrite <- !app_assoc.
    destruct (truthy t); reflexivity.
Qed.

Lemma concat_truthy (texts : list jsstring) :
  List.concat (filter truthy texts) = List.concat texts.
Proof.
  induction texts as [|[|c t] texts IH]; [reflexivity|exact IH|].
  cbn [filter truthy List.concat]. now rewrite IH.
Qed.

Lemma sayable_plain (t : jsstring) : sayable t = true -> plainText t = true.
Proof.
  unfold sayable. intros H. now apply andb_true_iff in H as [H _].
Qed.

Lemma frame_ollamaStream (texts : list jsstring) :
  forallb sayable texts = true ->
  frame (ollamaStream model createdAt texts) [LF]
  = (map reply texts ++ [final], []).
Proof.
  intros H. unfold frame, split, ollamaStream.
  assert (E : split_go [LF] 0
                (List.concat (map (fun t => reply t ++ [LF]) texts)
                   ++ final ++ [LF])
              = map reply texts ++ [final; []]).
  { induction texts as [|t texts IH].
    - cbn [map List.concat app].
      now rewrite (split_go_line _ [] (oneLine_lastLine model createdAt
                                         plain_model plain_createdAt)).
    - cbn [forallb] in H. apply andb_true_iff in H as [Ht H].
      apply sayable_plain in Ht.
      cbn [map List.concat]. rewrite <- !app_assoc. cbn [app].
      rewrite (split_go_line _ _ (oneLine_replyLine model createdAt
                                    plain_model plain_createdAt t Ht)).
      now rewrite (IH H). }
  rewrite E.
  change (map reply texts ++ [final; []]) with (map reply texts ++ [final] ++ [[]]).
  rewrite app_assoc, removelast_last, last_last. reflexivity.
Qed.

Lemma isAscii_ollamaStream (texts : list jsstring) :
  forallb sayable texts = true ->
  forallb isAscii (ollamaStream model createdAt texts) = true.
Proof.
  intros H. unfold ollamaStream. rewrite forallb_app.
  rewrite (isAscii_lastLine model createdAt plain_model plain_createdAt).
  rewrite andb_true_r.
  induction texts as [|t texts IH]; [reflexivity|].
  cbn [forallb] in H. apply andb_true_iff in H as [Ht H].
  apply sayable_plain in Ht.
  cbn [map List.concat].
  rewrite forallb_app, (isAscii_replyLine model createdAt plain_model
                          plain_createdAt t Ht).
  now apply IH.
Qed.

End OllamaStream.

(** X10.  The engine and [OllamaPlugin], end to end.  Ollama sends a list of
    texts, each as the [response] of a line of JSON with [done] false, and
    then a line with [done] true; the model name, the date and the texts are
    made of printable ASCII characters other than the quote and the
    backslash, and no text is [[DONE]].  However the bytes of that stream
    are cut into chunks, and whatever the reader does after them, either
    revision writes and reports each text that is not empty, in order, then
    calls [onDone] with the concatenation of the texts and closes the
    stream. *)
Theorem ollama_stream_is_relayed (rev : Revision) (fetched : Completion Response)
  (model createdAt : jsstring) (texts : list jsstring)
  (input : list (list byte)) (fin : Ending) :
  plainText model = true ->
  plainText createdAt = true ->
  forallb sayable texts = true ->
  List.concat input = encode (ollamaStream model createdAt texts) ->
  start rev (OllamaPlugin fetched) {| chunks := input; ending := fin |}
  = rendered (filter truthy texts) Completed.
Proof.
  intros Hm Hc H Hi. unfold start, tryBlock. cbn [chunks ending].
  pose proof (isAscii_ollamaStream model createdAt Hm Hc texts H) as Ha.
  rewrite (readLoop_single _ _ input), Hi.
  cbn [readLoop]. unfold onChunk.
  cbn [textDecoder buffer fullResponse initialState app].
  rewrite (encode_ascii _ Ha).
  rewrite (decode_ascii newTextDecoder _ Ha eq_refl).
  change (delimiterOf (OllamaPlugin fetched)) with [LF].
  rewrite (frame_ollamaStream model createdAt Hm Hc texts H).
  rewrite (processEvents_replies fetched model createdAt Hm Hc rev [] texts [] H).
  unfold rendered, closing. now rewrite concat_truthy.
Qed.

(** ** The parsers of the OpenRouter plugins *)

Section OpenRouter.

Local Ltac flatten :=
  repeat (rewrite <- ?app_assoc, <- ?app_comm_cons; cbn [app]).

Lemma trimStart_blank (ws s : jsstring) :
  blank ws = true -> trimStart (ws ++ s) = trimStart s.
Proof.
  unfold blank. induction ws as [|c ws IH]; [reflexivity|].
  cbn [forallb app trimStart]. intros H. apply andb_true_iff in H as [Hc H].
  rewrite Hc. now apply IH.
Qed.

Lemma blank_rev (ws : jsstring) : blank (rev ws) = blank ws.
Proof.
  unfold blank. induction ws as [|c ws IH]; [reflexivity|].
  cbn [rev forallb]. rewrite forallb_app, IH. cbn [forallb].
  rewrite andb_true_r. apply andb_comm.
Qed.

Lemma trimEnd_blank (s ws : jsstring) :
  blank ws = true -> trimEnd (s ++ ws) = trimEnd s.
Proof.
  intros H. unfold trimEnd. rewrite rev_app_distr, trimStart_blank; [reflexivity|].
  now rewrite blank_rev.
Qed.

Lemma stripDataPrefix_data (s : jsstring) :
  stripDataPrefix (lit "data:" ++ s) = trimStart s.
Proof. reflexivity. Qed.

Lemma deltaLine_shape (ws t : jsstring) :
  deltaLine ws t
  = lit "data:" ++ ws
      ++ 123%N :: (field "choices"
                     (lit "[{" ++ field "delta"
                                    (lit "{" ++ field "content" (jsonString t)
                                       ++ lit "}")
                        ++ lit "}]")) ++ [125%N].
Proof.
  unfold deltaLine, field, jsonString. cbn [lit list_ascii_of_string map].
  flatten. reflexivity.
Qed.

(** The payload of a line that carries a plain text. *)
Lemma parse_delta (t : jsstring) :
  plainText t = true ->
  JSON.parse (123%N :: (field "choices"
                     (lit "[{" ++ field "delta"
                                    (lit "{" ++ field "content" (jsonString t)
                                       ++ lit "}")
                        ++ lit "}]")) ++ [125%N])
  = Some (JSON.Obj [(lit "choices",
            JSON.Arr [JSON.Obj [(lit "delta",
                        JSON.Obj [(lit "content", JSON.Str t)])]])]).
Proof.
  intros H. unfold JSON.parse.
  match goal with |- context [JSON.parseValue ?n _] =>
    remember n as fuel eqn:Hf end.
  assert (E : exists f, fuel = 10 + f).
  { exists (fuel - 10). rewrite Hf. unfold field, jsonString.
    cbn [lit list_ascii_of_string map]. simpl List.length. lia. }
  destruct E as [f ->]. clear Hf.
  unfold field, jsonString. cbn [lit list_ascii_of_string map].
  flatten. simpl.
  rewrite (parseString_plain t _ H). reflexivity.
Qed.

Lemma payload_of_deltaLine (ws t : jsstring) :
  blank ws = true ->
  startsWith (deltaLine ws t) (lit "data:") = true
  /\ trim (stripDataPrefix (deltaLine ws t))
     = 123%N :: (field "choices"
                     (lit "[{" ++ field "delta"
                                    (lit "{" ++ field "content" (jsonString t)
                                       ++ lit "}")
                        ++ lit "}]")) ++ [125%N].
Proof.
  intros Hw. rewrite deltaLine_shape. split; [reflexivity|].
  rewrite stripDataPrefix_data, trimStart_blank by exact Hw.
  rewrite (trimStart_fixed _ 123%N eq_refl). now apply trim_bracketed.
Qed.

End OpenRouter.

(** X11.  A line of OpenRouter that carries a text: [data:], any white
    space, and the JSON text whose first choice has the delta with that
    content.  For a non-empty text of printable ASCII characters other than
    the quote and the backslash, the parser of [OpenRouterPlugin] hands back
    that text. *)
Theorem OpenRouter_reads_delta (ws t : jsstring) :
  blank ws = true -> plainText t = true -> truthy t = true ->
  OpenRouterPlugin.parseServerSentEvent (deltaLine ws t) = Value (JSON.Str t).
Proof.
  intros Hw Hp Ht. unfold OpenRouterPlugin.parseServerSentEvent.
  destruct (payload_of_deltaLine ws t Hw) as [Hs Hj].
  rewrite Hs, Hj. cbn [negb].
  rewrite (parse_delta t Hp).
  change (JS.eqb _ DONE) with false. cbv iota.
  cbn. now rewrite Ht.
Qed.

(** X12.  The completion line of OpenRouter, [data:] and [[DONE]] with any
    white space between them and after them, is read as the completion
    marker by the parser of [OpenRouterPlugin]: no JSON is parsed. *)
Theorem OpenRouter_reads_done (ws ws' : jsstring) :
  blank ws = true -> blank ws' = true ->
  OpenRouterPlugin.parseServerSentEvent (lit "data:" ++ ws ++ DONE ++ ws')
  = Value (JSON.Str DONE).
Proof.
  intros Hw Hw'. unfold OpenRouterPlugin.parseServerSentEvent.
  rewrite stripDataPrefix_data, trimStart_blank by exact Hw.
  assert (E : trim (trimStart (DONE ++ ws')) = DONE).
  { unfold trim. rewrite trimStart_idem.
    change (trimStart (DONE ++ ws')) with (DONE ++ ws').
    now rewrite trimEnd_blank. }
  rewrite E. reflexivity.
Qed.

(** X13.  The structured plugin extends the plain one: on every line from
    which the parser of [OpenRouterPlugin] hands back a value, the parser of
    [OpenRouterStructuredPlugin] hands back the same value. *)
Theorem structured_parser_extends_plain (line : jsstring) (v : JSON.value) :
  OpenRouterPlugin.parseServerSentEvent line = Value v ->
  OpenRouterStructuredPlugin.parseServerSentEvent line = Value v.
Proof.
  unfold OpenRouterPlugin.parseServerSentEvent,
    OpenRouterStructuredPlugin.parseServerSentEvent, member.
  destruct (negb (startsWith line (lit "data:"))); [discriminate|].
  cbv zeta.
  destruct (JS.eqb (trim (stripDataPrefix line)) DONE); [trivial|].
  destruct (JSON.parse (trim (stripDataPrefix line))) as [parsed|]; [|discriminate].
  assert (step : forall choice : JSON.value,
    match optional (optional (Some choice) (fun v => JSON.get v (lit "delta")))
            (fun v => JSON.get v (lit "content")) with
    | Some v0 => if JSON.truthy v0 then Value v0 else Nothing
    | None => Nothing
    end = Value v ->
    JSON.truthy choice = true
    /\ OpenRouterStructuredPlugin.truthyMember
         (optional (JSON.get choice (lit "delta"))
            (fun v => JSON.get v (lit "content"))) = Some v).
  { intros choice.
    destruct choice as [|b|n|s|its|ms]; cbn [optional JSON.get];
      try discriminate.
    destruct (optional (JSON.lookup (lit "delta") ms)
                (fun v => JSON.get v (lit "content"))) as [content|];
      [|discriminate].
    cbn [OpenRouterStructuredPlugin.truthyMember JSON.truthy].
    destruct (JSON.truthy content); [|discriminate].
    intros E. injection E as ->. now split. }
  destruct parsed as [|b|n|s|items|members]; cbn [optional JSON.get];
    try discriminate.
  destruct (JSON.lookup (lit "choices") members) as [choices|]; [|discriminate].
  destruct (optional (Some choices) index0) as [choice|]; [|discriminate].
  intros H. apply step in H as [Hc Hd].
  cbn [OpenRouterStructuredPlugin.truthyMember]. rewrite Hc, Hd. reflexivity.
Qed.

(** ** Well-formed texts through the encoder and the decoder *)

Section Utf8.

Local Ltac euclid x k :=
  let q := fresh "q" in
  let r := fresh "r" in
  let Hq := fresh in
  let Hr := fresh in
  assert (Hq : (x = k * (x / k) + x mod k)%N) by (apply N.div_mod; discriminate);
  assert (Hr : (x mod k < k)%N) by (apply N.mod_lt; discriminate);
  set (q := (x / k)%N) in *; set (r := (x mod k)%N) in *; clearbody q r.

Local Ltac lead L :=
  cbn [decoder]; unfold utf8Handler; cbn [bytesNeeded utf8Initial N.eqb];
  apply L; lia.

Local Ltac fields :=
  cbn [bytesSeen bytesNeeded codePoint lowerBoundary upperBoundary].

Lemma lor_low (a b : N) : (b < 64)%N -> N.lor (N.shiftl a 6) b = (a * 64 + b)%N.
Proof.
  intros H.
  rewrite <- N.lxor_lor, <- N.add_nocarry_lxor, N.shiftl_mul_pow2; try reflexivity.
  all: apply N.bits_inj; intros n; rewrite N.land_spec, N.bits_0.
  all: destruct (N.ltb_spec n 6).
  all: try (rewrite N.shiftl_spec_low by assumption; reflexivity).
  all: rewrite andb_comm.
  all: replace (N.testbit b n) with false; [reflexivity|].
  all: symmetry; destruct (N.eq_dec b 0) as [->|Hb]; [apply N.bits_0|].
  all: apply N.bits_above_log2; apply N.log2_lt_pow2; try lia.
  all: apply N.lt_le_trans with (2^6)%N; [exact H|apply N.pow_le_mono_r; lia].
Qed.

Lemma land_63 (b : N) : N.land b 63 = (b mod 64)%N.
Proof. exact (N.land_ones b 6). Qed.

Lemma land_31 (b : N) : N.land b 31 = (b mod 32)%N.
Proof. exact (N.land_ones b 5). Qed.

Lemma land_15 (b : N) : N.land b 15 = (b mod 16)%N.
Proof. exact (N.land_ones b 4). Qed.

Lemma land_7 (b : N) : N.land b 7 = (b mod 8)%N.
Proof. exact (N.land_ones b 3). Qed.

Lemma land_1023 (b : N) : N.land b 1023 = (b mod 1024)%N.
Proof. exact (N.land_ones b 10). Qed.

(** The lead byte of a sequence of two, three and four bytes. *)
Lemma leadByte2 (b : N) :
  (194 <= b <= 223)%N ->
  leadByte b = ({| codePoint := b mod 32; bytesSeen := 0; bytesNeeded := 1;
                   lowerBoundary := 128; upperBoundary := 191 |}, []).
Proof.
  intros H. unfold leadByte. rewrite land_31.
  destruct (N.leb_spec b 127); [lia|].
  destruct (N.leb_spec 194 b); [|lia]. destruct (N.leb_spec b 223); [|lia].
  reflexivity.
Qed.

Lemma leadByte3 (b : N) :
  (224 <= b <= 239)%N ->
  leadByte b = ({| codePoint := b mod 16; bytesSeen := 0; bytesNeeded := 2;
                   lowerBoundary := if (b =? 224)%N then 160 else 128;
                   upperBoundary := if (b =? 237)%N then 159 else 191 |}, []).
Proof.
  intros H. unfold leadByte. rewrite land_15.
  destruct (N.leb_spec b 127); [lia|].
  destruct (N.leb_spec 194 b); [|lia]. destruct (N.leb_spec b 223); [lia|].
  destruct (N.leb_spec 224 b); [|lia]. destruct (N.leb_spec b 239); [|lia].
  reflexivity.
Qed.

Lemma leadByte4 (b : N) :
  (240 <= b <= 244)%N ->
  leadByte b = ({| codePoint := b mod 8; bytesSeen := 0; bytesNeeded := 3;
                   lowerBoundary := if (b =? 240)%N then 144 else 128;
                   upperBoundary := if (b =? 244)%N then 143 else 191 |}, []).
Proof.
  intros H. unfold leadByte. rewrite land_7.
  destruct (N.leb_spec b 127); [lia|].
  destruct (N.leb_spec 194 b); [|lia]. destruct (N.leb_spec b 223); [lia|].
  destruct (N.leb_spec 224 b); [|lia]. destruct (N.leb_spec b 239); [lia|].
  destruct (N.leb_spec 240 b); [|lia]. destruct (N.leb_spec b 244); [|lia].
  reflexivity.
Qed.

(** A byte that continues the pending sequence. *)
Lemma continuation (d : Utf8Decoder) (b : N) :
  bytesNeeded d <> 0%N ->
  (lowerBoundary d <= b <= upperBoundary d)%N ->
  utf8Handler d b
  = if (bytesSeen d + 1 =? bytesNeeded d)%N
    then (utf8Initial, [codePoint d * 64 + b mod 64])%N
    else ({| codePoint := codePoint d * 64 + b mod 64;
             bytesSeen := bytesSeen d + 1; bytesNeeded := bytesNeeded d;
             lowerBoundary := 128; upperBoundary := 191 |}, []).
Proof.
  intros Hn Hb. unfold utf8Handler.
  destruct (N.eqb_spec (bytesNeeded d) 0); [contradiction|].
  destruct (N.ltb_spec b (lowerBoundary d)); [lia|].
  destruct (N.ltb_spec (upperBoundary d) b); [lia|].
  cbn [orb]. rewrite land_63, lor_low; [reflexivity|].
  apply N.mod_lt. discriminate.
Qed.

Lemma decode_silent (t : TextDecoder) (n : N) (d : Utf8Decoder) (rest : list byte) :
  (n < 256)%N ->
  utf8Handler (decoder t) n = (d, []) ->
  decode t (byteOf n :: rest) = decode {| decoder := d; bomSeen := bomSeen t |} rest.
Proof.
  intros Hn H. cbn [decode]. unfold decodeByte.
  rewrite (byteOf_to_N n Hn), H. cbn [serialize].
  now destruct (decode _ rest).
Qed.

Lemma decode_emit (t : TextDecoder) (n cp : N) (rest : list byte) :
  (n < 256)%N ->
  utf8Handler (decoder t) n = (utf8Initial, [cp]) ->
  decode t (byteOf n :: rest)
  = let '(t', out) := decode {| decoder := utf8Initial; bomSeen := true |} rest in
    (t', (if negb (bomSeen t) && (cp =? BOM)%N then [] else utf16 cp) ++ out).
Proof.
  intros Hn H. cbn [decode]. unfold decodeByte.
  rewrite (byteOf_to_N n Hn), H. cbn [serialize].
  rewrite app_nil_r. reflexivity.
Qed.

Lemma isScalar_facts (cp : N) :
  isScalar cp = true -> (cp < 1114112 /\ (cp < 55296 \/ 57343 < cp))%N.
Proof.
  unfold isScalar. intros H. apply andb_true_iff in H as [H1 H2].
  apply N.ltb_lt in H1. apply negb_true_iff, andb_false_iff in H2.
  split; [exact H1|].
  destruct H2 as [H2|H2]; [left; apply N.leb_gt in H2|right; apply N.leb_gt in H2];
    lia.
Qed.

(** The bytes of one scalar value, read from the initial state, give that
    scalar value and leave the decoder in its initial state. *)
Lemma decode_scalar (seen : bool) (cp : N) (rest : list byte) :
  isScalar cp = true ->
  decode {| decoder := utf8Initial; bomSeen := seen |} (utf8Bytes cp ++ rest)
  = let '(t', out) := decode {| decoder := utf8Initial; bomSeen := true |} rest in
    (t', (if negb seen && (cp =? BOM)%N then [] else utf16 cp) ++ out).
Proof.
  intros H. apply isScalar_facts in H as [Hmax Hs]. unfold utf8Bytes.
  destruct (N.ltb_spec cp 128) as [H1|H1].
  { cbn [app]. apply decode_emit; [lia|]. cbn [decoder].
    unfold utf8Handler. cbn [bytesNeeded utf8Initial N.eqb].
    unfold leadByte. destruct (N.leb_spec cp 127); [reflexivity|lia]. }
  destruct (N.ltb_spec cp 2048) as [H2|H2].
  { rewrite land_63, N.shiftr_div_pow2. change (2 ^ 6)%N with 64%N.
    euclid cp 64%N. cbn [app].
    erewrite decode_silent; [|lia|lead leadByte2].
    cbn [bomSeen].
    rewrite (decode_emit _ (128 + r) cp); [reflexivity|lia|].
    cbn [decoder]. rewrite continuation by (fields; lia).
    cbn [bytesSeen bytesNeeded codePoint].
    change (0 + 1 =? 1)%N with true. cbv iota.
    do 2 f_equal. f_equal.
    replace ((192 + q) mod 32)%N with q
      by (apply (N.mod_unique _ _ 6); lia).
    replace ((128 + r) mod 64)%N with r
      by (apply (N.mod_unique _ _ 2); lia).
    lia. }
  destruct (N.ltb_spec cp 65536) as [H3|H3].
  { rewrite !land_63, !N.shiftr_div_pow2.
    change (2 ^ 6)%N with 64%N. change (2 ^ 12)%N with 4096%N.
    assert (E : (cp / 4096 = cp / 64 / 64)%N)
      by (rewrite N.Div0.div_div; reflexivity).
    rewrite E. clear E.
    euclid cp 64%N. euclid q 64%N. cbn [app].
    erewrite decode_silent; [|lia|lead leadByte3].
    cbn [bomSeen].
    replace ((224 + q0) mod 16)%N with q0
      by (apply (N.mod_unique _ _ 14); lia).
    assert (Hb : ((if (224 + q0 =? 224)%N then 160 else 128) <= 128 + r0
                  <= (if (224 + q0 =? 237)%N then 159 else 191))%N).
    { destruct (N.eqb_spec (224 + q0) 224); destruct (N.eqb_spec (224 + q0) 237);
        lia. }
    erewrite (decode_silent _ (128 + r0)); [|lia|].
    2:{ cbn [decoder]. rewrite continuation; [|fields; discriminate|exact Hb].
        cbn [bytesSeen bytesNeeded codePoint].
        change (0 + 1 =? 2)%N with false. cbv iota. reflexivity. }
    cbn [bomSeen].
    rewrite (decode_emit _ (128 + r) cp); [reflexivity|lia|].
    cbn [decoder]. rewrite continuation by (fields; lia).
    cbn [bytesSeen bytesNeeded codePoint].
    change (0 + 1 + 1 =? 2)%N with true. cbv iota.
    do 2 f_equal. f_equal.
    replace ((128 + r0) mod 64)%N with r0
      by (apply (N.mod_unique _ _ 2); lia).
    replace ((128 + r) mod 64)%N with r
      by (apply (N.mod_unique _ _ 2); lia).
    lia. }
  rewrite !land_63, !N.shiftr_div_pow2.
  change (2 ^ 6)%N with 64%N. change (2 ^ 12)%N with 4096%N.
  change (2 ^ 18)%N with 262144%N.
  assert (E : (cp / 4096 = cp / 64 / 64)%N)
    by (rewrite N.Div0.div_div; reflexivity).
  assert (E' : (cp / 262144 = cp / 64 / 64 / 64)%N)
    by (rewrite !N.Div0.div_div; reflexivity).
  rewrite E, E'. clear E E'.
  euclid cp 64%N. euclid q 64%N. euclid q0 64%N. cbn [app].
  erewrite decode_silent; [|lia|lead leadByte4].
  cbn [bomSeen].
  replace ((240 + q1) mod 8)%N with q1
    by (apply (N.mod_unique _ _ 30); lia).
  assert (Hb : ((if (240 + q1 =? 240)%N then 144 else 128) <= 128 + r1
                <= (if (240 + q1 =? 244)%N then 143 else 191))%N).
  { destruct (N.eqb_spec (240 + q1) 240); destruct (N.eqb_spec (240 + q1) 244);
      lia. }
  erewrite (decode_silent _ (128 + r1)); [|lia|].
  2:{ cbn [decoder]. rewrite continuation; [|fields; discriminate|exact Hb].
      cbn [bytesSeen bytesNeeded codePoint].
      change (0 + 1 =? 3)%N with false. cbv iota. reflexivity. }
  cbn [bomSeen].
  erewrite (decode_silent _ (128 + r0)); [|lia|].
  2:{ cbn [decoder]. rewrite continuation; [|fields; discriminate|fields; lia].
      cbn [bytesSeen bytesNeeded codePoint].
      change (0 + 1 + 1 =? 3)%N with false. cbv iota. reflexivity. }
  cbn [bomSeen].
  rewrite (decode_emit _ (128 + r) cp); [reflexivity|lia|].
  cbn [decoder]. rewrite continuation by (fields; lia).
  cbn [bytesSeen bytesNeeded codePoint].
  change (0 + 1 + 1 + 1 =? 3)%N with true. cbv iota.
  do 2 f_equal. f_equal.
  replace ((128 + r1) mod 64)%N with r1
    by (apply (N.mod_unique _ _ 2); lia).
  replace ((128 + r0) mod 64)%N with r0
    by (apply (N.mod_unique _ _ 2); lia).
  replace ((128 + r) mod 64)%N with r
    by (apply (N.mod_unique _ _ 2); lia).
  lia.
Qed.

Lemma decode_scalars (cps : list N) :
  Forall (fun cp => isScalar cp = true) cps ->
  decode {| decoder := utf8Initial; bomSeen := true |} (flat_map utf8Bytes cps)
  = ({| decoder := utf8Initial; bomSeen := true |}, flat_map utf16 cps).
Proof.
  induction 1 as [|cp cps Hcp _ IH]; [reflexivity|].
  cbn [flat_map]. rewrite (decode_scalar true cp _ Hcp), IH. reflexivity.
Qed.

(** The scalar values of a well-formed text are scalar values, and their
    code units are the text. *)
Lemma scalars_wellFormed (s : jsstring) :
  (wellFormed s = true ->
   Forall (fun cp => isScalar cp = true) (scalars s)
   /\ flat_map utf16 (scalars s) = s)
  /\ forall c, wellFormed (c :: s) = true ->
       Forall (fun cp => isScalar cp = true) (scalars (c :: s))
       /\ flat_map utf16 (scalars (c :: s)) = c :: s.
Proof.
  induction s as [|d s [IH1 IH2]].
  - split; [now split|]. intros c. cbn [wellFormed scalars].
    destruct (isHigh c) eqn:Eh; [discriminate|].
    intros H. apply andb_true_iff in H as [H _].
    apply andb_true_iff in H as [Hl Hc]. apply negb_true_iff in Hl.
    rewrite Hl. apply N.ltb_lt in Hc. unfold isHigh, isLow in *.
    split.
    + constructor; [|constructor]. unfold isScalar.
      apply andb_true_iff. split; [apply N.ltb_lt; lia|].
      apply negb_true_iff, andb_false_iff.
      apply andb_false_iff in Eh as [E|E]; apply N.leb_gt in E;
        apply andb_false_iff in Hl as [L|L]; apply N.leb_gt in L;
        [left|left|left|right]; apply N.leb_gt; lia.
    + cbn [flat_map]. unfold utf16. destruct (N.ltb_spec c 65536); [reflexivity|lia].
  - split; [apply IH2|]. intros c.
    change (wellFormed (c :: d :: s))
      with (if isHigh c then isLow d && wellFormed s
            else negb (isLow c) && (c <? 65536)%N && wellFormed (d :: s)).
    change (scalars (c :: d :: s))
      with (if isHigh c then
              if isLow d
              then (65536 + N.shiftl (c - 55296) 10 + (d - 56320))%N :: scalars s
              else REPLACEMENT :: scalars (d :: s)
            else if isLow c then REPLACEMENT :: scalars (d :: s)
            else c :: scalars (d :: s)).
    destruct (isHigh c) eqn:Eh.
    + intros H. apply andb_true_iff in H as [Hd Hs]. rewrite Hd.
      destruct (IH1 Hs) as [F E].
      unfold isHigh in Eh. unfold isLow in Hd.
      apply andb_true_iff in Eh as [E1 E2]. apply andb_true_iff in Hd as [D1 D2].
      apply N.leb_le in E1, E2, D1, D2.
      rewrite N.shiftl_mul_pow2. change (2 ^ 10)%N with 1024%N.
      split.
      * constructor; [|exact F]. unfold isScalar.
        apply andb_true_iff. split; [apply N.ltb_lt; lia|].
        apply negb_true_iff, andb_false_iff. right. apply N.leb_gt. lia.
      * cbn [flat_map]. rewrite E. unfold utf16.
        destruct (N.ltb_spec (65536 + (c - 55296) * 1024 + (d - 56320)) 65536);
          [lia|].
        rewrite land_1023, N.shiftr_div_pow2. change (2 ^ 10)%N with 1024%N.
        replace (65536 + (c - 55296) * 1024 + (d - 56320) - 65536)%N
          with ((d - 56320) + (c - 55296) * 1024)%N by lia.
        rewrite N.div_add, N.Div0.mod_add by discriminate.
        rewrite N.div_small, N.mod_small by lia.
        cbn [app]. do 2 f_equal; [lia|f_equal; lia].
    + intros H. apply andb_true_iff in H as [H Hs].
      apply andb_true_iff in H as [Hl Hc]. apply negb_true_iff in Hl.
      rewrite Hl. apply N.ltb_lt in Hc.
      destruct (IH2 d Hs) as [F E]. unfold isHigh, isLow in *.
      split.
      * constructor; [|exact F]. unfold isScalar.
        apply andb_true_iff. split; [apply N.ltb_lt; lia|].
        apply negb_true_iff, andb_false_iff.
        apply andb_false_iff in Eh as [E'|E']; apply N.leb_gt in E';
          apply andb_false_iff in Hl as [L|L]; apply N.leb_gt in L;
          [left|left|left|right]; apply N.leb_gt; lia.
      * cbn [flat_map]. rewrite E. unfold utf16.
        destruct (N.ltb_spec c 65536); [reflexivity|lia].
Qed.

(** The first scalar value of a well-formed text that does not start with
    the byte order mark is not the mark. *)
Lemma first_scalar (s : jsstring) :
  wellFormed s = true -> startsWith s [BOM] = false ->
  match scalars s with cp :: _ => cp <> BOM | [] => s = [] end.
Proof.
  destruct s as [|c s]; [reflexivity|].
  cbn [wellFormed scalars startsWith]. rewrite andb_true_r.
  intros H Hb. apply N.eqb_neq in Hb.
  destruct (isHigh c) eqn:Eh.
  - destruct s as [|d s]; [discriminate|].
    apply andb_true_iff in H as [Hd _]. rewrite Hd.
    unfold BOM. lia.
  - apply andb_true_iff in H as [H _]. apply andb_true_iff in H as [Hl _].
    apply negb_true_iff in Hl. rewrite Hl. exact Hb.
Qed.

Lemma scalars_truthy (s : jsstring) :
  match scalars s with _ :: _ => truthy s = true | [] => s = [] end.
Proof.
  destruct s as [|c s]; [reflexivity|]. cbn [scalars].
  destruct (isHigh c); [destruct s as [|d s]; [|destruct (isLow d)]|
                        destruct (isLow c)]; reflexivity.
Qed.

(** The decoder reads back what the encoder wrote: a well-formed text, but
    for the byte order mark at the start of the stream. *)
Lemma decode_encode (seen : bool) (s : jsstring) :
  wellFormed s = true ->
  seen = true \/ startsWith s [BOM] = false ->
  decode {| decoder := utf8Initial; bomSeen := seen |} (encode s)
  = ({| decoder := utf8Initial; bomSeen := seen || truthy s |}, s).
Proof.
  intros Hw Hb. unfold encode.
  destruct (proj1 (scalars_wellFormed s) Hw) as [F E].
  pose proof (scalars_truthy s) as Ht.
  destruct (scalars s) as [|cp cps] eqn:Es.
  - subst s. cbn [flat_map decode truthy]. now rewrite orb_false_r.
  - rewrite Ht, orb_true_r. apply Forall_cons_iff in F as [Hcp Hcps].
    cbn [flat_map]. rewrite (decode_scalar seen cp _ Hcp), (decode_scalars cps Hcps).
    cbn [flat_map] in E. rewrite <- E. f_equal. f_equal.
    destruct Hb as [->|Hb]; [reflexivity|].
    pose proof (first_scalar s Hw Hb) as Hf. rewrite Es in Hf.
    apply N.eqb_neq in Hf. rewrite Hf. now rewrite andb_false_r.
Qed.

Lemma decodeChunks_encoded (seen : bool) (texts : list jsstring) :
  Forall (fun t => wellFormed t = true) texts ->
  seen = true \/ startsWith (List.concat texts) [BOM] = false ->
  decodeChunks {| decoder := utf8Initial; bomSeen := seen |} (map encode texts)
  = List.concat texts.
Proof.
  intros F. revert seen. induction F as [|t texts Ht _ IH]; intros seen Hb;
    [reflexivity|].
  cbn [map decodeChunks List.concat].
  assert (Hb' : seen = true \/ startsWith t [BOM] = false).
  { destruct Hb as [Hb|Hb]; [now left|right].
    cbn [List.concat] in Hb. destruct t as [|c t]; [reflexivity|exact Hb]. }
  rewrite (decode_encode seen t Ht Hb'). f_equal. apply IH.
  destruct Hb as [->|Hb]; [now left|].
  destruct t as [|c t]; [right; exact Hb|left; apply orb_true_r].
Qed.

Lemma done_in_rendered (texts : list jsstring) (o : Outcome) (m : SSEMessage) :
  In (OnDone m) (rendered texts o) ->
  o = Completed /\ content m = List.concat texts.
Proof.
  unfold rendered. intros H. apply in_app_or in H as [H|H].
  - exfalso. induction texts as [|t texts IH]; [exact H|].
    cbn [flat_map emission app] in H.
    destruct H as [H|[H|H]]; [discriminate|discriminate|auto].
  - destruct o; cbn [closing] in H.
    + destruct H as [H|[H|[]]]; [|discriminate]. injection H as <-. now split.
    + destruct H as [H|[H|[]]]; discriminate.
    + destruct H as [H|[H|[]]]; discriminate.
Qed.

End Utf8.

(** X14.  The engine frames the text that was sent.  When the bytes the
    reader delivers, however they are cut into chunks, are the UTF-8
    encoding of a well-formed text that does not start with the byte order
    mark, the read loop processes the frames of that text, in order, and
    is left with the text after the last delimiter as its buffer. *)
Theorem text_sent_is_text_framed (rev : Revision) (p : ProviderPlugin)
  (s : jsstring) (input : list (list byte)) (fin : Ending) :
  wellFormed s = true ->
  startsWith s [BOM] = false ->
  List.concat input = encode s ->
  readLoop rev p initialState input fin
  = (full <- processEvents rev p [] (fst (frame s (delimiterOf p))) ;;
     readLoop rev p
       {| fullResponse := full;
          buffer := snd (frame s (delimiterOf p));
          textDecoder := {| decoder := utf8Initial; bomSeen := truthy s |} |}
       [] fin).
Proof.
  intros Hw Hb Hi. rewrite (readLoop_single rev p input), Hi.
  cbn [readLoop]. unfold onChunk.
  cbn [textDecoder buffer fullResponse initialState app].
  unfold newTextDecoder. rewrite (decode_encode false s Hw (or_intror Hb)).
  cbn [orb]. destruct (frame s (delimiterOf p)) as [events rest]. cbn [fst snd].
  destruct (processEvents rev p [] events) as [effs [full| |e found]];
    cbn [bind ret]; rewrite ?app_nil_r; reflexivity.
Qed.

(** X15.  What the engine writes can be read back.  In a run that calls
    [onDone], when every text reported by [onPartial] is well formed and
    the answer does not start with the byte order mark, decoding the chunks
    of the outbound stream one after the other gives the content passed to
    [onDone]. *)
Theorem outbound_bytes_decode_to_the_answer (rev : Revision) (p : ProviderPlugin)
  (r : Reader) (m : SSEMessage) :
  In (OnDone m) (start rev p r) ->
  Forall (fun t => wellFormed t = true) (partials (start rev p r)) ->
  startsWith (content m) [BOM] = false ->
  decodeChunks newTextDecoder (queue (outbound (start rev p r))) = content m.
Proof.
  destruct (start_rendered rev p r) as [texts [o [E _]]]. rewrite E.
  rewrite partials_rendered, outbound_rendered.
  intros Hd F Hb. apply done_in_rendered in Hd as [-> Hm].
  cbn [queue]. rewrite Hm in *. unfold newTextDecoder.
  apply decodeChunks_encoded; [exact F|now right].
Qed.

(** ** The request of Ollama *)

Lemma Ollama_answers (fetched : Completion Response) (l : jsstring) :
  Answers (OllamaPlugin fetched) l.
Proof.
  unfold Answers. cbn [parseServerSentEvent OllamaPlugin].
  destruct (JSON.parse (trim l)) as [data|]; [|now eexists].
  destruct data; try (now eexists);
    destruct (optTruthy _); try (now eexists);
    destruct (JSON.get _ _) as [[]|]; now eexists.
Qed.

(** X16.  When the server of Ollama answers the request with a status that
    is not ok, or without a body, [createSSEStream] still resolves: it has
    called [onError] with the error [Ollama API error: ] followed by the
    status text and with an empty assistant text, it has closed the stream
    it returns, and it calls nothing else, [onUserMessage] included. *)
Theorem ollama_refusal_is_reported (rev : Revision) (params : SSEEngineParams)
  (response : Response) :
  plugin params = OllamaPlugin (Normal response) ->
  ok response = false \/ body response = None ->
  createSSEStream rev params
  = Normal
      {| beforeReturn :=
           [OnError (NewError (JSON.Str (lit "Ollama API error: "
                                           ++ statusText response)))
                    (assistant []);
            Close];
         afterReturn := [] |}.
Proof.
  intros Hp Hr. unfold createSSEStream. rewrite Hp.
  cbn [prepareRequest OllamaPlugin].
  destruct Hr as [Hr|Hr]; rewrite Hr.
  - reflexivity.
  - destruct (ok response); reflexivity.
Qed.

(** ** Exceptions *)

Lemma eventLoop_throws (p : ProviderPlugin) (pre post : list jsstring)
  (line eventText : jsstring) (e : jserror) :
  Forall (AnswersText p) pre ->
  parseServerSentEvent p line = Throws e ->
  eventLoop p (pre ++ line :: post) eventText = ParserThrew e.
Proof.
  intros Hpre Hline. revert eventText.
  induction Hpre as [|l pre [r [Hl Hd]] _ IH]; intros eventText; cbn [app eventLoop].
  - now rewrite Hline.
  - rewrite Hl. destruct r as [parsed|]; [|apply IH].
    destruct (JS.eqb parsed DONE) eqn:E.
    { apply eqb_eq in E. subst. contradiction. }
    destruct (truthy parsed); apply IH.
Qed.

Lemma readLoop_failing (rev : Revision) (p : ProviderPlugin) (input : list (list byte))
  (st st' : EngineState) (effs : list Effect) (e : jserror) :
  readLoop rev p st input EndOfInput = (effs, Goes st') ->
  readLoop rev p st input (ReadFailure e) = (effs, Raises e (fullResponse st')).
Proof.
  intros H.
  rewrite <- (app_nil_r input), readLoop_app, H.
  cbn [bind readLoop]. now rewrite app_nil_r.
Qed.

(** X20.  When the parser throws on a line of a frame, the frame ends the
    loop with that exception and without a call: what the earlier lines of
    the frame yielded is neither written, nor reported, nor counted in the
    text the [catch] clause finds, and the frames that follow are not
    processed.  The frame is one the sniffer lets through, and the parser
    answers on the earlier lines without the completion marker. *)
Theorem parser_exception_discards_frame_text (rev : Revision) (p : ProviderPlugin)
  (full event : jsstring) (rest pre post : list jsstring) (line : jsstring)
  (e : jserror) :
  snd (sniff rev (trim event)) = false ->
  sseLinesOf (linesOf (trim event)) = pre ++ line :: post ->
  Forall (AnswersText p) pre ->
  parseServerSentEvent p line = Throws e ->
  processEvents rev p full (event :: rest) = ([], Raises e full).
Proof.
  intros Hs Hl Hpre Hline. cbn [processEvents]. unfold processEvent.
  destruct (trim event) as [|c t] eqn:Et.
  - rewrite sseLinesOf_empty in Hl. now destruct pre.
  - cbn [truthy negb]. rewrite (sniff_quiet _ _ Hs), Hl.
    now rewrite (eventLoop_throws p pre post line [] e Hpre Hline).
Qed.

(** X21.  Every exception that leaves the read loop, of the reader or of
    the parser, is reported in the same way: the outbound stream is put in
    error with it, and [onError] is called with it and with the
    concatenation of the texts reported by [onPartial] so far.  Nothing
    follows. *)
Theorem exception_is_reported_with_the_aggregate (rev : Revision)
  (p : ProviderPlugin) (input : list (list byte)) (fin : Ending)
  (effs : list Effect) (e : jserror) (found : jsstring) :
  readLoop rev p initialState input fin = (effs, Raises e found) ->
  start rev p {| chunks := input; ending := fin |}
  = effs ++ [ControllerError e;
             OnError e (assistant (List.concat (partials effs)))].
Proof.
  intros H. pose proof (Accounts_readLoop rev p initialState input fin) as [_ A].
  rewrite H in A. cbn [snd fst] in A. unfold aggregate in A.
  cbn [fullResponse initialState app] in A.
  unfold start, tryBlock. cbn [chunks ending]. rewrite H. cbn [bind].
  now rewrite A.
Qed.

(** X22.  When the reader fails where it would otherwise have announced the
    end of the input, what the buffer holds is lost: the leftover is not
    parsed, and the run ends with the calls made so far, the stream put in
    error, and [onError] with the failure and the aggregate. *)
Theorem read_failure_skips_the_leftover (rev : Revision) (p : ProviderPlugin)
  (input : list (list byte)) (effs : list Effect) (st : EngineState)
  (e : jserror) :
  readLoop rev p initialState input EndOfInput = (effs, Goes st) ->
  start rev p {| chunks := input; ending := ReadFailure e |}
  = effs ++ [ControllerError e; OnError e (assistant (fullResponse st))].
Proof.
  intros H. unfold start, tryBlock. cbn [chunks ending].
  rewrite (readLoop_failing rev p input initialState st effs e H).
  reflexivity.
Qed.

(** ** The sniffer and the lines of OpenRouter *)

(** X24.  The sniffer lets the lines of OpenRouter through: a line that
    carries a plain text, and the completion line, with any white space
    after the colon.  It calls nothing and answers no. *)
Theorem sniffer_passes_content_lines (ws t : jsstring) :
  blank ws = true -> plainText t = true ->
  handlePossibleErrorJSON (deltaLine ws t) = ([], false)
  /\ handlePossibleErrorJSON (lit "data:" ++ ws ++ DONE) = ([], false).
Proof.
  intros Hw Hp. unfold handlePossibleErrorJSON. split.
  -     assert (E : trim (deltaLine ws t) = deltaLine ws t).
    { rewrite deltaLine_shape.
      change (lit "data:" ++ ws ++ 123%N :: ?x) with (100%N :: lit "ata:" ++ ws ++ 123%N :: x).
      rewrite app_comm_cons, app_assoc, app_comm_cons.
      rewrite app_assoc. apply trim_bracketed; reflexivity. }
    assert (S : stripDataPrefix (deltaLine ws t)
                = 123%N :: (field "choices"
                     (lit "[{" ++ field "delta"
                                    (lit "{" ++ field "content" (jsonString t)
                                       ++ lit "}")
                        ++ lit "}]")) ++ [125%N]).
    { rewrite deltaLine_shape, stripDataPrefix_data, trimStart_blank by exact Hw.
      apply (trimStart_fixed _ 123%N eq_refl). }
    rewrite E, S, (parse_delta t Hp). reflexivity.
  - assert (E : trim (lit "data:" ++ ws ++ DONE) = lit "data:" ++ ws ++ DONE).
    { change (lit "data:" ++ ws ++ DONE)
        with (100%N :: lit "ata:" ++ ws ++ lit "[DONE" ++ [93%N]).
      rewrite !app_assoc. apply trim_bracketed; reflexivity. }
    rewrite E, stripDataPrefix_data, trimStart_blank by exact Hw.
    reflexivity.
Qed.

(** ** The theorems at work *)

(** Two frames and the start of a third. *)
Lemma frames_hold_no_delimiter_witness :
  [LF; LF] <> []
  /\ Forall (fun event => includes event [LF; LF] = false)
       (fst (frame (lit "a" ++ [LF; LF] ++ lit "b" ++ [LF; LF; LF] ++ lit "c")
               [LF; LF])).
Proof.
  split; [discriminate|]. apply frames_hold_no_delimiter. discriminate.
Defined.

(** The parser of Ollama never throws; here it reads two replies. *)
Lemma no_failure_no_error_witness :
  let p := OllamaPlugin (Examples.served []) in
  let r := {| chunks := Examples.helloWorld; ending := EndOfInput |} in
  (forall l, Answers p l)
  /\ exists texts,
       start Plain p r = rendered texts Completed
       /\ Forall (fun t => truthy t = true) texts
       /\ (forall e m, ~ In (OnError e m) (start Plain p r))
       /\ (forall e, ~ In (ControllerError e) (start Plain p r)).
Proof.
  split; [apply Ollama_answers|].
  apply (no_failure_no_error (OllamaPlugin (Examples.served []))
           Examples.helloWorld).
  apply Ollama_answers.
Defined.

(** Two comment lines, as a frame and as the leftover. *)
Lemma skipped_lines_reach_nobody_witness :
  let p := Examples.echoPlugin (Examples.delivering []) in
  let text := lit ": keep-alive" ++ [LF] ++ lit ": OPENROUTER PROCESSING" in
  snd (sniff Sniffing (trim text)) = false
  /\ forallb skipped (linesOf (trim text)) = true
  /\ processEvent Sniffing p (lit "so far") text = ret (lit "so far")
  /\ (forallb (fun ln => startsWith ln (lit ":")) (linesOf (trim text)) = true ->
      handleLeftover Sniffing p (lit "so far") text = ret (lit "so far")).
Proof.
  split; [reflexivity|]. split; [reflexivity|].
  apply skipped_lines_reach_nobody; reflexivity.
Defined.

(** A reply of Ollama as a frame. *)
Lemma frame_text_is_concatenation_witness :
  let p := OllamaPlugin (Examples.served []) in
  let event := Examples.member "response" "Hello" in
  snd (sniff Sniffing (trim event)) = false
  /\ Forall (AnswersText p) (sseLinesOf (linesOf (trim event)))
  /\ processEvent Sniffing p (lit "so far: ") event
     = (emission (lit "Hello"), Goes (lit "so far: Hello")).
Proof.
  assert (A : Forall (AnswersText (OllamaPlugin (Examples.served [])))
                (sseLinesOf (linesOf (trim (Examples.member "response" "Hello"))))).
  { constructor; [|constructor]. exists (Some (lit "Hello")).
    split; [reflexivity|discriminate]. }
  split; [reflexivity|]. split; [exact A|].
  exact (frame_text_is_concatenation Sniffing (OllamaPlugin (Examples.served []))
           (lit "so far: ") (Examples.member "response" "Hello") eq_refl A).
Defined.

(** The two replies of [Examples.helloWorld]: no frame is an error payload. *)
Lemma revisions_agree_on_quiet_streams_witness :
  let p := OllamaPlugin (Examples.served []) in
  let text := snd (decode newTextDecoder (List.concat Examples.helloWorld)) in
  Forall (fun event => snd (handlePossibleErrorJSON (trim event)) = false)
         (fst (frame text (delimiterOf p)))
  /\ snd (handlePossibleErrorJSON (trim (snd (frame text (delimiterOf p))))) = false
  /\ start Sniffing p {| chunks := Examples.helloWorld; ending := EndOfInput |}
     = start Plain p {| chunks := Examples.helloWorld; ending := EndOfInput |}.
Proof.
  assert (F : Forall (fun event => snd (handlePossibleErrorJSON (trim event)) = false)
                (fst (frame (snd (decode newTextDecoder
                                    (List.concat Examples.helloWorld)))
                        (delimiterOf (OllamaPlugin (Examples.served []))))))
    by (vm_compute; repeat constructor).
  split; [exact F|]. split; [reflexivity|].
  exact (revisions_agree_on_quiet_streams (OllamaPlugin (Examples.served []))
           Examples.helloWorld EndOfInput F eq_refl).
Defined.

(** Three texts of a model, the second one empty, cut in the middle of the
    first line, with a reader that would fail after the last line. *)
Lemma ollama_stream_is_relayed_witness :
  let model := lit "llama3:latest" in
  let createdAt := lit "2025-01-01T00:00:00Z" in
  let texts := [lit "Hello "; []; lit "world!"] in
  let bytes := encode (ollamaStream model createdAt texts) in
  let input := [firstn 30 bytes; skipn 30 bytes] in
  plainText model = true
  /\ plainText createdAt = true
  /\ forallb sayable texts = true
  /\ List.concat input = bytes
  /\ start Sniffing (OllamaPlugin (Examples.served []))
       {| chunks := input; ending := ReadFailure (Thrown (lit "reset")) |}
     = [Enqueue (encode (lit "Hello ")); OnPartial (assistant (lit "Hello "));
        Enqueue (encode (lit "world!")); OnPartial (assistant (lit "world!"));
        OnDone (assistant (lit "Hello world!")); Close].
Proof.
  split; [reflexivity|]. split; [reflexivity|]. split; [reflexivity|].
  split; [vm_compute; reflexivity|].
  apply (ollama_stream_is_relayed Sniffing (Examples.served [])
           (lit "llama3:latest") (lit "2025-01-01T00:00:00Z")
           [lit "Hello "; []; lit "world!"]);
    vm_compute; reflexivity.
Defined.

Lemma OpenRouter_reads_delta_witness :
  blank (lit " ") = true /\ plainText (lit "Hello") = true
  /\ truthy (lit "Hello") = true
  /\ OpenRouterPlugin.parseServerSentEvent (deltaLine (lit " ") (lit "Hello"))
     = Value (JSON.Str (lit "Hello")).
Proof.
  repeat (split; [reflexivity|]).
  apply OpenRouter_reads_delta; reflexivity.
Defined.

(** The completion line with no space after the colon and a carriage
    return at its end. *)
Lemma OpenRouter_reads_done_witness :
  blank [] = true /\ blank [13%N] = true
  /\ OpenRouterPlugin.parseServerSentEvent (lit "data:" ++ [] ++ DONE ++ [13%N])
     = Value (JSON.Str DONE).
Proof.
  repeat (split; [reflexivity|]).
  apply OpenRouter_reads_done; reflexivity.
Defined.

Lemma structured_parser_extends_plain_witness :
  let line := deltaLine (lit " ") (lit "Hello") in
  OpenRouterPlugin.parseServerSentEvent line = Value (JSON.Str (lit "Hello"))
  /\ OpenRouterStructuredPlugin.parseServerSentEvent line
     = Value (JSON.Str (lit "Hello")).
Proof.
  split; [vm_compute; reflexivity|].
  apply structured_parser_extends_plain. vm_compute. reflexivity.
Defined.

(** A text with a letter of two bytes and a character of four, which is a
    surrogate pair in the string; the bytes are cut inside the letter. *)
Lemma text_sent_is_text_framed_witness :
  let p := Examples.echoPlugin (Examples.delivering []) in
  let s := lit "caf" ++ [233%N; LF; LF; 55357%N; 56832%N] in
  let input := [firstn 4 (encode s); skipn 4 (encode s)] in
  wellFormed s = true
  /\ startsWith s [BOM] = false
  /\ List.concat input = encode s
  /\ readLoop Plain p initialState input EndOfInput
     = (full <- processEvents Plain p [] (fst (frame s (delimiterOf p))) ;;
        readLoop Plain p
          {| fullResponse := full;
             buffer := snd (frame s (delimiterOf p));
             textDecoder := {| decoder := utf8Initial; bomSeen := truthy s |} |}
          [] EndOfInput).
Proof.
  split; [reflexivity|]. split; [reflexivity|]. split; [vm_compute; reflexivity|].
  apply text_sent_is_text_framed; vm_compute; reflexivity.
Defined.

(** The two replies of [Examples.helloWorld]. *)
Lemma outbound_bytes_decode_to_the_answer_witness :
  let p := OllamaPlugin (Examples.served []) in
  let r := Examples.delivering Examples.helloWorld in
  let m := assistant (lit "Hello world!") in
  In (OnDone m) (start Plain p r)
  /\ Forall (fun t => wellFormed t = true) (partials (start Plain p r))
  /\ startsWith (content m) [BOM] = false
  /\ decodeChunks newTextDecoder (queue (outbound (start Plain p r)))
     = lit "Hello world!".
Proof.
  assert (D : In (OnDone (assistant (lit "Hello world!")))
                (start Plain (OllamaPlugin (Examples.served []))
                   (Examples.delivering Examples.helloWorld))).
  { vm_compute. do 4 right. left. reflexivity. }
  assert (F : Forall (fun t => wellFormed t = true)
                (partials (start Plain (OllamaPlugin (Examples.served []))
                             (Examples.delivering Examples.helloWorld))))
    by (vm_compute; repeat constructor).
  split; [exact D|]. split; [exact F|]. split; [reflexivity|].
  exact (outbound_bytes_decode_to_the_answer Plain _ _ _ D F eq_refl).
Defined.

(** The fetch of Ollama answers with a status 500 and no body. *)
Lemma ollama_refusal_is_reported_witness :
  let params :=
    {| userMessage := lit "Test message"; systemMessage := Some (lit "Be brief");
       plugin := OllamaPlugin Examples.refused; debug := DebugAbsent |} in
  plugin params = OllamaPlugin Examples.refused
  /\ (false = false \/ @None Reader = None)
  /\ createSSEStream Sniffing params
  = Normal
      {| beforeReturn :=
           [OnError (NewError (JSON.Str (lit "Ollama API error: Internal Server Error")))
                    (assistant []);
            Close];
         afterReturn := [] |}.
Proof.
  split; [reflexivity|]. split; [left; reflexivity|].
  apply (ollama_refusal_is_reported Sniffing
           {| userMessage := lit "Test message";
              systemMessage := Some (lit "Be brief");
              plugin := OllamaPlugin Examples.refused; debug := DebugAbsent |}
           {| ok := false; statusText := lit "Internal Server Error";
              body := None |});
    [reflexivity | left; reflexivity].
Defined.

(** A reply, the completion line, and a chunk that is never read. *)
Lemma return_ends_the_instance_witness :
  let p := OllamaPlugin (Examples.served []) in
  let before := [encode (Examples.member "response" "Hello ")] in
  let value := encode Examples.doneLine in
  let after := [encode (Examples.member "response" "never read")] in
  let st := {| fullResponse := lit "Hello "; buffer := [];
               textDecoder := {| decoder := utf8Initial; bomSeen := true |} |} in
  readLoop Plain p initialState before EndOfInput
    = (emission (lit "Hello "), Goes st)
  /\ onChunk Plain p st value = ([OnDone (assistant (lit "Hello ")); Close], Returns)
  /\ start Plain p {| chunks := before ++ value :: after;
                      ending := ReadFailure (Thrown (lit "reset")) |}
     = emission (lit "Hello ") ++ [OnDone (assistant (lit "Hello ")); Close].
Proof.
  split; [vm_compute; reflexivity|]. split; [vm_compute; reflexivity|].
  apply (return_ends_the_instance Plain (OllamaPlugin (Examples.served []))
           [encode (Examples.member "response" "Hello ")]
           [encode (Examples.member "response" "never read")]
           (encode Examples.doneLine) (ReadFailure (Thrown (lit "reset")))
           {| fullResponse := lit "Hello "; buffer := [];
              textDecoder := {| decoder := utf8Initial; bomSeen := true |} |});
    vm_compute; reflexivity.
Defined.

(** The parser of Ollama finds nothing in the empty line. *)
Lemma leftover_as_frame_witness :
  let p := OllamaPlugin (Examples.served []) in
  let text := Examples.member "response" "Hello" in
  parseServerSentEvent p [] = Normal None
  /\ handleLeftover Sniffing p [] text = processEvent Sniffing p [] text.
Proof.
  split; [reflexivity|]. apply leftover_as_frame. reflexivity.
Defined.

(** A frame of two lines; the parser throws on the second. *)
Lemma parser_exception_discards_frame_text_witness :
  let p := strictPlugin (Examples.delivering []) in
  let event := lit "data: Hello" ++ [LF] ++ lit "oops" in
  let e := NewError (JSON.Str (lit "unexpected line: oops")) in
  snd (sniff Sniffing (trim event)) = false
  /\ sseLinesOf (linesOf (trim event)) = [lit "data: Hello"] ++ lit "oops" :: []
  /\ Forall (AnswersText p) [lit "data: Hello"]
  /\ parseServerSentEvent p (lit "oops") = Throws e
  /\ processEvents Sniffing p (lit "so far") [event; lit "data: more"]
     = ([], Raises e (lit "so far")).
Proof.
  assert (A : Forall (AnswersText (strictPlugin (Examples.delivering [])))
                [lit "data: Hello"]).
  { constructor; [|constructor]. exists (Some (lit "Hello")).
    split; [reflexivity|discriminate]. }
  split; [reflexivity|]. split; [reflexivity|]. split; [exact A|].
  split; [reflexivity|].
  exact (parser_exception_discards_frame_text Sniffing
           (strictPlugin (Examples.delivering []))
           (lit "so far") (lit "data: Hello" ++ [LF] ++ lit "oops")
           [lit "data: more"] [lit "data: Hello"] [] (lit "oops")
           (NewError (JSON.Str (lit "unexpected line: oops")))
           eq_refl eq_refl A eq_refl).
Defined.

(** A frame that is reported, then a frame on which the parser throws. *)
Lemma exception_is_reported_with_the_aggregate_witness :
  let p := strictPlugin (Examples.delivering []) in
  let input := [encode (lit "data: Hello" ++ [LF; LF] ++ lit "oops" ++ [LF; LF])] in
  let e := NewError (JSON.Str (lit "unexpected line: oops")) in
  readLoop Plain p initialState input EndOfInput
    = (emission (lit "Hello"), Raises e (lit "Hello"))
  /\ start Plain p {| chunks := input; ending := EndOfInput |}
     = emission (lit "Hello") ++ [ControllerError e; OnError e (assistant (lit "Hello"))].
Proof.
  split; [vm_compute; reflexivity|].
  apply (exception_is_reported_with_the_aggregate Plain
           (strictPlugin (Examples.delivering []))
           [encode (lit "data: Hello" ++ [LF; LF] ++ lit "oops" ++ [LF; LF])]
           EndOfInput (emission (lit "Hello"))
           (NewError (JSON.Str (lit "unexpected line: oops"))) (lit "Hello")).
  vm_compute. reflexivity.
Defined.

(** A reply that is reported and the start of a second one, lost. *)
Lemma read_failure_skips_the_leftover_witness :
  let p := OllamaPlugin (Examples.served []) in
  let input := [encode (Examples.member "response" "Hello" ++ lit "{")] in
  let st := {| fullResponse := lit "Hello"; buffer := lit "{";
               textDecoder := {| decoder := utf8Initial; bomSeen := true |} |} in
  let e := Thrown (lit "reset") in
  readLoop Plain p initialState input EndOfInput = (emission (lit "Hello"), Goes st)
  /\ start Plain p {| chunks := input; ending := ReadFailure e |}
     = emission (lit "Hello") ++ [ControllerError e; OnError e (assistant (lit "Hello"))].
Proof.
  split; [vm_compute; reflexivity|].
  apply (read_failure_skips_the_leftover Plain (OllamaPlugin (Examples.served []))
           [encode (Examples.member "response" "Hello" ++ lit "{")]
           (emission (lit "Hello"))
           {| fullResponse := lit "Hello"; buffer := lit "{";
              textDecoder := {| decoder := utf8Initial; bomSeen := true |} |}
           (Thrown (lit "reset"))).
  vm_compute. reflexivity.
Defined.

Lemma sniffer_passes_content_lines_witness :
  blank (lit " ") = true /\ plainText (lit "Hello") = true
  /\ handlePossibleErrorJSON (deltaLine (lit " ") (lit "Hello")) = ([], false)
  /\ handlePossibleErrorJSON (lit "data:" ++ lit " " ++ DONE) = ([], false).
Proof.
  split; [reflexivity|]. split; [reflexivity|].
  apply sniffer_passes_content_lines; reflexivity.
Defined.

(** An error payload after a reply that was reported, and a frame that is
    never processed. *)
Lemma payload_error_stops_witness :
  let p := OllamaPlugin (Examples.served []) in
  let event := Examples.errorLine "X" in
  let errorMsg := JSON.Str (lit "X") in
  let err := JSON.Obj [(lit "message", errorMsg)] in
  let parsed := JSON.Obj [(lit "error", err)] in
  startsWith (stripDataPrefix (trim event)) (lit "{") = true
  /\ JSON.parse (stripDataPrefix (trim event)) = Some parsed
  /\ JSON.get parsed (lit "error") = Some err
  /\ JSON.truthy err = true
  /\ JSON.get err (lit "message") = Some errorMsg
  /\ JSON.truthy errorMsg = true
  /\ JSON.stringThrows errorMsg = false
  /\ processEvents Sniffing p (lit "Hello")
       [event; Examples.member "response" "never processed"]
     = ([OnError (NewError errorMsg) (assistant []);
         ControllerError (NewError errorMsg)], Returns).
Proof.
  split; [reflexivity|]. split; [vm_compute; reflexivity|].
  split; [reflexivity|]. split; [reflexivity|]. split; [reflexivity|].
  split; [reflexivity|]. split; [reflexivity|].
  apply (payload_error_stops (OllamaPlugin (Examples.served [])) (lit "Hello")
           (Examples.errorLine "X")
           [Examples.member "response" "never processed"]
           (JSON.Obj [(lit "error", JSON.Obj [(lit "message", JSON.Str (lit "X"))])])
           (JSON.Obj [(lit "message", JSON.Str (lit "X"))])
           (JSON.Str (lit "X")));
    vm_compute; reflexivity.
Defined.

(** * The buffer and the frames *)

Section LeftmostSplit.

Variables (d : codeunit) (sep' : jsstring).
Local Abbreviation sep := (d :: sep').

Lemma includes_short (s r : jsstring) :
  List.length s < List.length r -> includes s r = false.
Proof.
  induction s as [|c s IH]; intros H; cbn [includes].
  - rewrite startsWith_short by exact H. reflexivity.
  - rewrite startsWith_short by exact H. cbn [orb].
    apply IH. simpl in H. lia.
Qed.

Lemma removelast_sep_clean : includes (removelast sep) sep = false.
Proof.
  apply includes_short.
  rewrite (app_removelast_last d (l := sep)) at 2 by discriminate.
  rewrite length_app. simpl. lia.
Qed.

(** Every piece that the scan closes ends at the first match after its
    start. *)
Lemma split_go_leftmost (s : jsstring) :
  Forall (fun piece => endsAtFirst piece sep = true)
         (removelast (split_go sep 0 s)).
Proof.
  remember (List.length s) as n eqn:Hn.
  revert s Hn; induction n as [n IH] using lt_wf_ind; intros s Hn.
  destruct s as [|c s]; [constructor|].
  destruct (startsWith (c :: s) sep) eqn:E.
  - apply startsWith_spec in E as [u E]. rewrite E in *.
    rewrite split_go_match. rewrite length_app in Hn. simpl in Hn.
    specialize (IH (List.length u) ltac:(lia) u eq_refl).
    destruct (split_go sep 0 u) as [|q0 qs] eqn:Eu;
      [now apply split_go_nonempty in Eu|].
    change (removelast ([] :: q0 :: qs)) with ([] :: removelast (q0 :: qs)).
    constructor; [|exact IH].
    unfold endsAtFirst. cbn [app]. now rewrite removelast_sep_clean.
  - rewrite split_go_miss by exact E.
    pose proof (split_go_join d sep' s) as J.
    specialize (IH (List.length s) ltac:(simpl in Hn; lia) s eq_refl).
    destruct (split_go sep 0 s) as [|p0 [|p1 ps]] eqn:Es.
    + now apply split_go_nonempty in Es.
    + constructor.
    + change (removelast ((c :: p0) :: p1 :: ps))
        with ((c :: p0) :: removelast (p1 :: ps)).
      change (removelast (p0 :: p1 :: ps))
        with (p0 :: removelast (p1 :: ps)) in IH.
      apply Forall_cons_iff in IH as [H0 Hps]. constructor; [|exact Hps].
      unfold endsAtFirst in *. apply negb_true_iff in H0. apply negb_true_iff.
      change ((c :: p0) ++ sep) with (c :: (p0 ++ sep)).
      assert (Hne : p0 ++ sep <> []) by (destruct p0; discriminate).
      replace (removelast (c :: p0 ++ sep)) with (c :: removelast (p0 ++ sep))
        by (destruct (p0 ++ sep); [contradiction | reflexivity]).
      cbn [includes]. rewrite H0, orb_false_r.
      destruct (startsWith (c :: removelast (p0 ++ sep)) sep) eqn:E0;
        [|reflexivity].
      assert (Ex : exists t, c :: s = (c :: removelast (p0 ++ sep)) ++ t).
      { eexists. rewrite <- J, join_cons by discriminate.
        rewrite app_assoc, (app_removelast_last d Hne) at 1.
        rewrite <- app_assoc. reflexivity. }
      destruct Ex as [t Ex]. rewrite Ex in E.
      now rewrite (startsWith_longer _ t _ E0) in E.
Qed.

End LeftmostSplit.

Section Read.

Variables (rev : Revision) (p : ProviderPlugin).

(** What the read loop has done where it awaits the next chunk: it has
    processed the frames of the text read so far and keeps the piece after
    the last delimiter. *)
Lemma readLoop_frames (input : list (list byte)) (effs : list Effect)
  (st : EngineState) :
  readLoop rev p initialState input EndOfInput = (effs, Goes st) ->
  processEvents rev p []
    (fst (frame (snd (decode newTextDecoder (List.concat input))) (delimiterOf p)))
  = (effs, Goes (fullResponse st))
  /\ buffer st
     = snd (frame (snd (decode newTextDecoder (List.concat input))) (delimiterOf p)).
Proof.
  rewrite (readLoop_single rev p input). cbn [readLoop]. unfold onChunk.
  cbn [textDecoder buffer fullResponse initialState app].
  destruct (decode newTextDecoder (List.concat input)) as [dec text].
  cbn [snd].
  destruct (frame text (delimiterOf p)) as [events rest]. cbn [fst snd].
  destruct (processEvents rev p [] events) as [effs' [full| |e found]];
    cbn [bind ret]; intros H; try discriminate.
  injection H as <- <-. cbn [fullResponse buffer].
  now rewrite !app_nil_r.
Qed.

End Read.

Lemma frame_pieces (s sep : jsstring) :
  sep <> [] ->
  join (fst (frame s sep) ++ [snd (frame s sep)]) sep = s
  /\ Forall (fun event => endsAtFirst event sep = true) (fst (frame s sep))
  /\ includes (snd (frame s sep)) sep = false.
Proof.
  intros H. destruct sep as [|d sep']; [contradiction|].
  unfold frame. cbn [fst snd split]. split; [|split].
  - rewrite <- app_removelast_last by apply split_go_nonempty.
    apply split_go_join.
  - apply split_go_leftmost.
  - apply split_go_last_clean.
Qed.

(** C8.  Where the read loop awaits the next chunk after the chunks of
    [input], and where it leaves at the end of the input, the buffer holds
    no occurrence of the delimiter, for a delimiter that is not empty.  The
    text read so far is a sequence of frames, each followed by the
    delimiter, and then the buffer; every frame ends at the first delimiter
    after its start; the loop has processed these frames, in order, and
    nothing else.  The state at an await point is the state in which the
    loop over the chunks read so far ends ([readLoop_app]). *)
Theorem buffer_holds_no_delimiter (rev : Revision) (p : ProviderPlugin)
  (input : list (list byte)) (effs : list Effect) (st : EngineState) :
  delimiterOf p <> [] ->
  readLoop rev p initialState input EndOfInput = (effs, Goes st) ->
  includes (buffer st) (delimiterOf p) = false
  /\ exists events,
       snd (decode newTextDecoder (List.concat input))
       = join (events ++ [buffer st]) (delimiterOf p)
       /\ Forall (fun event => endsAtFirst event (delimiterOf p) = true) events
       /\ processEvents rev p [] events = (effs, Goes (fullResponse st)).
Proof.
  intros Hd H. apply readLoop_frames in H as [Hp Hb].
  destruct (frame_pieces (snd (decode newTextDecoder (List.concat input)))
              (delimiterOf p) Hd) as [J [F C]].
  rewrite <- Hb in J, C. split; [exact C|].
  eexists. split; [symmetry; exact J|]. split; [exact F|exact Hp].
Qed.

(** One chunk: a reply, its line feed, and the first code unit of the next
    line. *)
Lemma buffer_holds_no_delimiter_witness :
  let p := OllamaPlugin (Examples.served []) in
  let input := [encode (Examples.member "response" "Hello " ++ lit "{")] in
  let effs := [Enqueue (encode (lit "Hello ")); OnPartial (assistant (lit "Hello "))] in
  let st := {| fullResponse := lit "Hello "; buffer := lit "{";
               textDecoder := {| decoder := utf8Initial; bomSeen := true |} |} in
  delimiterOf p <> []
  /\ readLoop Plain p initialState input EndOfInput = (effs, Goes st)
  /\ includes (buffer st) (delimiterOf p) = false
  /\ exists events,
       snd (decode newTextDecoder (List.concat input))
       = join (events ++ [buffer st]) (delimiterOf p)
       /\ Forall (fun event => endsAtFirst event (delimiterOf p) = true) events
       /\ processEvents Plain p [] events = (effs, Goes (fullResponse st)).
Proof.
  intros p input effs st.
  assert (Hd : delimiterOf p <> []) by discriminate.
  assert (H : readLoop Plain p initialState input EndOfInput = (effs, Goes st))
    by (vm_compute; reflexivity).
  split; [exact Hd|]. split; [exact H|].
  exact (buffer_holds_no_delimiter Plain p input effs st Hd H).
Defined.

(** C8, at the empty delimiter.  The buffer does hold the delimiter: the
    text is split into its code units, the last one stays in the buffer, and
    the empty string occurs in every string. *)
Lemma buffer_holds_the_empty_delimiter :
  let p := unitsPlugin (Examples.delivering []) in
  let st := {| fullResponse := lit "a"; buffer := lit "b";
               textDecoder := {| decoder := utf8Initial; bomSeen := true |} |} in
  readLoop Plain p initialState [encode (lit "ab")] EndOfInput
    = (emission (lit "a"), Goes st)
  /\ includes (buffer st) (delimiterOf p) = true.
Proof. split; vm_compute; reflexivity. Qed.
